(** * Clinic dashboard: the filter engine and the aggregator

    A shallow embedding of the data-transformation core of the dashboard:
    [Filters.applyFilters] with the range initialisation it depends on,
    the [DataProcessor] roll-ups and distributions, and [DataLoader]
    ([processData] and the file-format dispatch of [parseFile]) with the
    upload handler of [App].

    The JavaScript built-ins the code calls (numbers, [String], plain
    objects used as dictionaries, [Array.prototype.sort], [Date]) are
    modelled in modules [JS] and [JSDate]; the modules after them follow
    the repository's own functions line by line, and the properties come
    last. *)

From Stdlib Require Import ZArith QArith Qround Qabs String Ascii List Bool Lia.
From Stdlib Require Import Sorted Permutation DecimalString DecimalN DecimalNat.
From stdpp Require Import base decidable option list strings gmap.
Import ListNotations.

Local Open Scope string_scope.
Local Open Scope list_scope.

(** ** JavaScript values and built-ins *)

Module JS.

(** A JavaScript number.  The code under study only compares, floors
    and ceils the numbers it reads, and all three are exact on doubles,
    so a finite double is represented by its rational value. *)
Inductive number : Type :=
| NaN
| NegInf
| PosInf
| Fin (q : Q).

Definition of_Z (z : Z) : number := Fin (inject_Z z).

Definition isNaN (n : number) : bool :=
  match n with NaN => true | _ => false end.

(** [a < b]; every comparison with [NaN] is false. *)
Definition lt (a b : number) : bool :=
  match a, b with
  | NaN, _ | _, NaN => false
  | NegInf, NegInf => false
  | NegInf, _ => true
  | _, NegInf => false
  | PosInf, _ => false
  | Fin _, PosInf => true
  | Fin x, Fin y => negb (Qle_bool y x)
  end.

(** [a <= b] *)
Definition le (a b : number) : bool :=
  match a, b with
  | NaN, _ | _, NaN => false
  | NegInf, _ => true
  | _, PosInf => true
  | PosInf, _ => false
  | _, NegInf => false
  | Fin x, Fin y => Qle_bool x y
  end.

(** [a > b] *)
Definition gt (a b : number) : bool := lt b a.

Definition Math_floor (n : number) : number :=
  match n with Fin q => of_Z (Qfloor q) | _ => n end.

Definition Math_ceil (n : number) : number :=
  match n with Fin q => of_Z (Qceiling q) | _ => n end.

Definition min2 (a b : number) : number :=
  if isNaN a || isNaN b then NaN else if lt b a then b else a.

Definition max2 (a b : number) : number :=
  if isNaN a || isNaN b then NaN else if lt a b then b else a.

(** [Math.min(...l)] and [Math.max(...l)] *)
Definition Math_min (l : list number) : number := fold_right min2 PosInf l.
Definition Math_max (l : list number) : number := fold_right max2 NegInf l.

(** The values a parsed cell can hold: primitives and [Date] objects.
    A [Date] is represented by its time value, milliseconds since the
    epoch in UTC; [None] is the time value [NaN] of an Invalid Date. *)
Inductive value : Type :=
| Undefined
| Null
| Boolean (b : bool)
| Number (n : number)
| Str (s : string)
| DateObj (tv : option Z).

(** ToBoolean *)
Definition truthy (v : value) : bool :=
  match v with
  | Undefined | Null => false
  | Boolean b => b
  | Number NaN => false
  | Number (Fin q) => negb (Qeq_bool q 0)
  | Number _ => true
  | Str s => negb (String.eqb s "")
  | DateObj _ => true
  end.

(** What the host environment decides: the offset of local time from
    UTC in milliseconds (taken constant: no daylight-saving change),
    the digits [String] prints for a number, the text it prints for a
    [Date], how [Date.parse] reads text that is not in the ISO
    date-only format, and the number [parseFloat] reads from a text. *)
Class Host : Type := {
  LocalTZA : Z;
  Number_toString : number -> string;
  Date_toString : option Z -> string;
  Date_parse_other : string -> option Z;
  parseFloat : string -> number
}.

(** [String(v)], also the property key [v] is coerced to in [o[v]]. *)
Definition ToString `{Host} (v : value) : string :=
  match v with
  | Undefined => "undefined"
  | Null => "null"
  | Boolean true => "true"
  | Boolean false => "false"
  | Number n => Number_toString n
  | Str s => s
  | DateObj tv => Date_toString tv
  end.

(** [a || b] on cells *)
Definition or_else (a b : value) : value := if truthy a then a else b.

(** [arr.includes(s)] for an array of strings *)
Definition includes (arr : list string) (s : string) : bool :=
  existsb (String.eqb s) arr.

(** *** Decimal digits *)

(** The decimal digits of a natural number, as [String(n)] prints them. *)
Definition digits (n : N) : string := NilEmpty.string_of_uint (N.to_uint n).

(** [String(z)] for an integer *)
Definition Z_toString (z : Z) : string :=
  match z with
  | Zneg p => "-" ++ digits (Npos p)
  | _ => digits (Z.to_N z)
  end.

Fixpoint repeat_zero (k : nat) : string :=
  match k with O => "" | S k' => String "0" (repeat_zero k') end.

(** [s.padStart(w, '0')] *)
Definition padStart0 (w : nat) (s : string) : string :=
  repeat_zero (w - String.length s) ++ s.

(** The natural number a string of ASCII digits denotes; [None] when the
    string is empty or holds anything else. *)
Definition parse_digits (s : string) : option N :=
  match s with
  | "" => None
  | _ => option_map N.of_uint (NilEmpty.uint_of_string s)
  end.

(** *** Plain objects used as dictionaries

    [const o = {}] followed by [o[k] = v]: own string-keyed properties in
    order of creation.  Assigning to an existing key keeps its place.
    The model is the object's own properties: it agrees with JavaScript
    on every key that is not a property name inherited from
    [Object.prototype] (see [inherited_keys]). *)
Definition obj (V : Type) : Type := list (string * V).

Fixpoint get {V} (o : obj V) (k : string) : option V :=
  match o with
  | [] => None
  | (k', v) :: o' => if String.eqb k k' then Some v else get o' k
  end.

Fixpoint set {V} (o : obj V) (k : string) (v : V) : obj V :=
  match o with
  | [] => [(k, v)]
  | (k', v') :: o' =>
      if String.eqb k k' then (k', v) :: o' else (k', v') :: set o' k v
  end.

(** The property names every plain object inherits. *)
Definition inherited_keys : list string :=
  [ "constructor"; "__proto__"; "hasOwnProperty"; "isPrototypeOf";
    "propertyIsEnumerable"; "toLocaleString"; "toString"; "valueOf";
    "__defineGetter__"; "__defineSetter__"; "__lookupGetter__";
    "__lookupSetter__" ].

Definition own_key (k : string) : bool := negb (includes inherited_keys k).

(** A property key is an array index when it is the canonical decimal
    form of an integer below 2^32 - 1. *)
Definition array_index (k : string) : option N :=
  match parse_digits k with
  | Some n =>
      if String.eqb (digits n) k && (n <? 4294967295)%N then Some n else None
  | None => None
  end.

Definition is_index {V} (e : string * V) : bool :=
  match array_index (fst e) with Some _ => true | None => false end.

Definition index_of {V} (e : string * V) : Z :=
  match array_index (fst e) with Some n => Z.of_N n | None => 0 end.

(** *** [Array.prototype.sort]

    The sort is stable.  It is modelled by insertion sort: an element
    goes in front of the first one the comparator does not put it
    after.  A comparator result of [NaN] counts as [0]. *)
Fixpoint insert_sorted {A} (cmp : A -> A -> Z) (x : A) (l : list A) : list A :=
  match l with
  | [] => [x]
  | y :: l' =>
      if (cmp x y <=? 0)%Z then x :: y :: l' else y :: insert_sorted cmp x l'
  end.

Definition sort {A} (cmp : A -> A -> Z) (l : list A) : list A :=
  fold_right (insert_sorted cmp) [] l.

(** [Object.entries(o)]: array-index keys first, in ascending numeric
    order, then the other keys in order of creation. *)
Definition Object_entries {V} (o : obj V) : list (string * V) :=
  sort (fun a b => index_of a - index_of b)%Z (List.filter is_index o)
  ++ List.filter (fun e => negb (is_index e)) o.

(** [arr.slice(0, n)] for an integer [n] *)
Definition slice0 {A} (n : Z) (l : list A) : list A :=
  if (n <? 0)%Z then firstn (Z.to_nat (Z.of_nat (List.length l) + n)) l
  else firstn (Z.to_nat n) l.

(** *** Strings *)

Definition lower_ascii (c : ascii) : ascii :=
  let n := nat_of_ascii c in
  if (65 <=? n)%nat && (n <=? 90)%nat then ascii_of_nat (n + 32) else c.

(** [s.toLowerCase()].  Only the letters A to Z change; no other
    character lowers to one of the letters of "csv", "xlsx" or "xls",
    so comparisons against those are decided exactly. *)
Fixpoint toLowerCase (s : string) : string :=
  match s with
  | EmptyString => EmptyString
  | String c s' => String (lower_ascii c) (toLowerCase s')
  end.

(** [s.split(sep)] for a one-character separator: never empty. *)
Fixpoint split (sep : ascii) (s : string) : list string :=
  match s with
  | EmptyString => [EmptyString]
  | String c s' =>
      if Ascii.eqb c sep then EmptyString :: split sep s'
      else match split sep s' with
           | [] => [String c EmptyString]
           | w :: ws => String c w :: ws
           end
  end.

(** [arr.pop()] on a non-empty array of strings *)
Definition pop (l : list string) : string := List.last l "undefined".

(** *** [parseInt]

    [parseInt(s)] with no radix: white space is skipped, a sign is read,
    a prefix [0x] or [0X] makes the digits hexadecimal, and the digits
    up to the first character that is not one are the number; [NaN]
    when there is no digit.  The white space is the one of ASCII, and
    the integer is exact (a double holds it when it has no more than
    fifteen digits). *)
Definition is_white (c : ascii) : bool :=
  let n := nat_of_ascii c in
  ((9 <=? n)%nat && (n <=? 13)%nat) || (n =? 32)%nat.

Fixpoint trim_start (s : string) : string :=
  match s with
  | EmptyString => EmptyString
  | String c r => if is_white c then trim_start r else s
  end.

Definition is_digit (c : ascii) : bool :=
  let n := nat_of_ascii c in (48 <=? n)%nat && (n <=? 57)%nat.

(** The digits a string starts with *)
Fixpoint leading_digits (s : string) : string :=
  match s with
  | EmptyString => EmptyString
  | String c r => if is_digit c then String c (leading_digits r) else EmptyString
  end.

Definition hex_digit (c : ascii) : option N :=
  let n := N_of_ascii c in
  if (48 <=? n)%N && (n <=? 57)%N then Some (n - 48)%N
  else if (65 <=? n)%N && (n <=? 70)%N then Some (n - 55)%N
  else if (97 <=? n)%N && (n <=? 102)%N then Some (n - 87)%N
  else None.

(** The number the hexadecimal digits at the start of [s] denote, after
    the digits [acc] already read; [None] when there is none at all. *)
Fixpoint leading_hex (acc : option N) (s : string) : option N :=
  match s with
  | EmptyString => acc
  | String c r =>
      match hex_digit c with
      | Some d => leading_hex (Some (16 * default 0%N acc + d)%N) r
      | None => acc
      end
  end.

Definition parseInt (s : string) : number :=
  let s := trim_start s in
  let '(sign, s) :=
    match s with
    | String "-" r => ((-1)%Z, r)
    | String "+" r => (1%Z, r)
    | _ => (1%Z, s)
    end in
  let mathInt :=
    match s with
    | String "0" (String "x" r) | String "0" (String "X" r) => leading_hex None r
    | _ => parse_digits (leading_digits s)
    end in
  match mathInt with
  | Some n => of_Z (sign * Z.of_N n)
  | None => NaN
  end.

End JS.

(** ** The [Date] built-ins *)

Module JSDate.
Import JS.
Local Open Scope Z_scope.

Definition msPerDay : Z := 86400000.

Definition Day (t : Z) : Z := t / msPerDay.
Definition TimeWithinDay (t : Z) : Z := t mod msPerDay.

(** The calendar of ECMAScript is the proleptic Gregorian one, with day 0
    on 1970-01-01.  [DayFromYear] is the standard's formula; the two
    conversions below compute its [MakeDay] and its [YearFromTime],
    [MonthFromTime] and [DateFromTime]. *)
Definition DayFromYear (y : Z) : Z :=
  365 * (y - 1970) + (y - 1969) / 4 - (y - 1901) / 100 + (y - 1601) / 400.

(** Day number of the date [y]-[m]-[d], month counted from 1. *)
Definition days_from_civil (y m d : Z) : Z :=
  let y' := if m <=? 2 then y - 1 else y in
  let era := y' / 400 in
  let yoe := y' - era * 400 in
  let mp := if 2 <? m then m - 3 else m + 9 in
  let doy := (153 * mp + 2) / 5 + d - 1 in
  let doe := yoe * 365 + yoe / 4 - yoe / 100 + doy in
  era * 146097 + doe - 719468.

(** Year, month (from 1) and day of month of a day number. *)
Definition civil_from_days (z : Z) : Z * Z * Z :=
  let z' := z + 719468 in
  let era := z' / 146097 in
  let doe := z' - era * 146097 in
  let yoe := (doe - doe / 1460 + doe / 36524 - doe / 146096) / 365 in
  let doy := doe - (365 * yoe + yoe / 4 - yoe / 100) in
  let mp := (5 * doy + 2) / 153 in
  let d := doy - (153 * mp + 2) / 5 + 1 in
  let m := if mp <? 10 then mp + 3 else mp - 9 in
  let y := yoe + era * 400 in
  (if m <=? 2 then y + 1 else y, m, d).

Definition YearFromTime (t : Z) : Z := fst (fst (civil_from_days (Day t))).
(** month counted from 0, as [getMonth] returns it *)
Definition MonthFromTime (t : Z) : Z := snd (fst (civil_from_days (Day t))) - 1.
Definition DateFromTime (t : Z) : Z := snd (civil_from_days (Day t)).

Definition MakeDay (year month date : Z) : Z :=
  let ym := year + month / 12 in
  let mn := month mod 12 in
  days_from_civil ym (mn + 1) 1 + date - 1.

Definition MakeTime (hour min sec ms : Z) : Z :=
  hour * 3600000 + min * 60000 + sec * 1000 + ms.

Definition MakeDate (day time : Z) : Z := day * msPerDay + time.

(** [TimeClip]: a time value more than 8.64e15 milliseconds from the
    epoch is [NaN], here [None]. *)
Definition TimeClip (t : Z) : option Z :=
  if Z.abs t <=? 8640000000000000 then Some t else None.

Section WithHost.
Context `{Host}.

Definition LocalTime (t : Z) : Z := t + LocalTZA.
Definition UTC (t : Z) : Z := t - LocalTZA.

(** The time the fields of [new Date(year, month, date, hours, minutes,
    seconds, ms)] name: they are local time, and a year from 0 to 99
    means 1900 + year. *)
Definition time_of_fields (year month date hours minutes seconds ms : Z) : Z :=
  let yr := if (0 <=? year) && (year <=? 99) then 1900 + year else year in
  UTC (MakeDate (MakeDay yr month date) (MakeTime hours minutes seconds ms)).

(** The time value of [new Date(year, month, date, hours, minutes,
    seconds, ms)]; [None] is the [NaN] of an Invalid Date, which the
    fields give when they name a time outside the range of [Date]. *)
Definition new_Date (year month date hours minutes seconds ms : Z) : option Z :=
  TimeClip (time_of_fields year month date hours minutes seconds ms).

(** [getFullYear], [getMonth], [getDate]: local fields of a [Date];
    [None] is the [NaN] an Invalid Date answers. *)
Definition getFullYear (d : option Z) : option Z :=
  option_map (fun t => YearFromTime (LocalTime t)) d.
Definition getMonth (d : option Z) : option Z :=
  option_map (fun t => MonthFromTime (LocalTime t)) d.
Definition getDate (d : option Z) : option Z :=
  option_map (fun t => DateFromTime (LocalTime t)) d.
End WithHost.

(** [String(n)] for an integer or [NaN] *)
Definition int_toString (n : option Z) : string :=
  match n with Some z => Z_toString z | None => "NaN" end.

(** [n + 1] *)
Definition succ_int (n : option Z) : option Z := option_map (fun z => z + 1) n.

Definition pad (w : nat) (z : Z) : string := padStart0 w (Z_toString z).

(** [d.toISOString()] on a valid time value: UTC fields, a four-digit
    year from 0 to 9999 and a signed six-digit year otherwise. *)
Definition toISOString (t : Z) : string :=
  let y := YearFromTime t in
  let year :=
    if (0 <=? y) && (y <=? 9999) then pad 4 y
    else ((if Z.ltb y 0 then "-" else "+") ++ pad 6 (Z.abs y))%string in
  let r := TimeWithinDay t in
  (year ++ "-" ++ pad 2 (MonthFromTime t + 1) ++ "-" ++ pad 2 (DateFromTime t)
   ++ "T" ++ pad 2 (r / 3600000) ++ ":" ++ pad 2 ((r / 60000) mod 60)
   ++ ":" ++ pad 2 ((r / 1000) mod 60) ++ "." ++ pad 3 (r mod 1000) ++ "Z")%string.

(** The midnight UTC that text of the ISO date-only forms [YYYY-MM-DD]
    and [±YYYYYY-MM-DD] names, before it is clipped to the range of
    [Date]; [None] for any other text. *)
Definition iso_midnight (s : string) : option Z :=
  let '(sign, body, w) :=
    match s with
    | String "+" r => (1, r, 6%nat)
    | String "-" r => (-1, r, 6%nat)
    | _ => (1, s, 4%nat)
    end in
  if negb (Nat.eqb (String.length body) (w + 6)) then None else
  if negb (String.eqb (substring w 1 body) "-"
           && String.eqb (substring (w + 3) 1 body) "-") then None else
  match parse_digits (substring 0 w body),
        parse_digits (substring (w + 1) 2 body),
        parse_digits (substring (w + 4) 2 body) with
  | Some y, Some m, Some d =>
      let y := sign * Z.of_N y in
      let days := days_from_civil y (Z.of_N m) (Z.of_N d) in
      if (sign =? -1) && (y =? 0) then None
      else if negb ((1 <=? Z.of_N m) && (Z.of_N m <=? 12)) then None
      else match civil_from_days days with
           | (y', m', d') =>
               if (y' =? y) && (m' =? Z.of_N m) && (d' =? Z.of_N d)
               then Some (days * msPerDay) else None
           end
  | _, _, _ => None
  end.

(** The time value of [new Date(s)] for text [s] of the ISO date-only
    forms; [None], an Invalid Date, also when the day lies outside the
    range of [Date]. *)
Definition parse_iso_date (s : string) : option Z :=
  match iso_midnight s with
  | Some t => TimeClip t
  | None => None
  end.

(** The time value of [new Date(s)] for a string [s]; [None] is an
    Invalid Date.  Text that is not of the ISO date-only forms is left
    to the host. *)
Definition Date_parse `{Host} (s : string) : option Z :=
  match iso_midnight s with
  | Some t => TimeClip t
  | None => Date_parse_other s
  end.

(** The time value of [new Date(v)] for a cell [v] that is not a [Date]:
    text is parsed, anything else is taken as a number of milliseconds,
    which must be finite and within 8.64e15 of the epoch. *)
Definition new_Date_of_value `{Host} (v : value) : option Z :=
  let of_number (n : number) :=
    match n with
    | Fin q =>
        if Qle_bool (Qabs q) (inject_Z 8640000000000000)
        then Some (Z.quot (Qnum q) (Zpos (Qden q))) else None
    | _ => None
    end in
  match v with
  | Str s => Date_parse s
  | Number n => of_number n
  | Boolean b => of_number (of_Z (if b then 1 else 0))
  | Null => of_number (of_Z 0)
  | Undefined => None
  | DateObj tv => tv
  end.

(** [new Date(a) - new Date(b)] as a sort comparator result *)
Definition date_diff `{Host} (a b : string) : Z :=
  match Date_parse a, Date_parse b with
  | Some x, Some y => x - y
  | _, _ => 0
  end.

(** [WeekDay(t)]: 0 is Sunday. *)
Definition WeekDay (t : Z) : Z := (Day t + 4) mod 7.

(** [d.getDay()], local; [None] is the [NaN] of an Invalid Date. *)
Definition getDay `{Host} (d : option Z) : option Z :=
  option_map (fun t => WeekDay (LocalTime t)) d.

End JSDate.


(** ** config.js and the shape of a loaded record *)

Module Config.
Import JS.

(** The APPOINTMENT DATE cell of a record that went through
    [DataLoader.processData]: a truthy cell is a [Date] object (one the
    parser built is kept as it is, also when invalid; text is read with
    [new Date] and becomes [null] when that fails), a falsy cell
    ([null], [undefined], the empty string, ...) is left alone.  Every
    reader treats the falsy values alike, so they share [NoDate]. *)
Inductive date_cell : Type :=
| NoDate
| ADate (tv : option Z).

(** The AGE YEARS cell after [processData]: [undefined] when the column
    is missing, else [parseFloat] of the cell with [NaN] turned into
    [null]. *)
Inductive age_cell : Type :=
| AgeUndefined
| AgeNull
| AgeNum (n : number).

(** One record.  [processData] makes EMPLOYEE NO. a string unless the
    column is missing ([None] is [undefined]); the other cells are
    whatever the parser produced.  The fields carry the names of the
    [COLUMNS] keys: [row[COLUMNS.DATE]] is [DATE row]. *)
Record row : Type := Row {
  DATE : date_cell;
  PURPOSE : value;
  EMPLOYEE : option string;
  SEX : value;
  COMPANY : value;
  MONTH : value;
  AGE : age_cell;
  FINDINGS : value;
  ICD : value;
  LABEL : value
}.

Definition AGE_BRACKETS : list string :=
  ["<18"; "18-24"; "25-34"; "35-44"; "45-54"; "55-64"; "65-74"; "75-84";
   "85+"; "Unknown"].

(** The patient number of a row when [row[COLUMNS.EMPLOYEE]] is truthy,
    that is a non-empty string. *)
Definition patient (r : row) : option string :=
  match EMPLOYEE r with
  | Some e => if String.eqb e "" then None else Some e
  | None => None
  end.

(** [age !== null && age !== undefined && !isNaN(age)], with the number
    when the test succeeds *)
Definition numeric_age (a : age_cell) : option number :=
  match a with
  | AgeNum n => if isNaN n then None else Some n
  | _ => None
  end.

(** [d instanceof Date && !isNaN(d.getTime())], with the time value *)
Definition valid_date (c : date_cell) : option Z :=
  match c with
  | ADate (Some t) => Some t
  | _ => None
  end.

Definition WEEKDAYS : list string :=
  ["Monday"; "Tuesday"; "Wednesday"; "Thursday"; "Friday"; "Saturday"; "Sunday"].

End Config.

(** ** searchableSelect.js: the selection of a multiselect *)

Module SearchableSelect.
Import JS.

(** An entry of [SearchableSelect.instances]: the values its options
    were built from and the values selected. *)
Record instance : Type := {
  values : list string;
  selected : list string
}.

(** [create]: the options are those of [values], nothing is selected. *)
Definition create (values : list string) : instance :=
  {| values := values; selected := [] |}.

(** [const index = arr.indexOf(value); arr.splice(index, 1)] for a value
    that occurs: the first occurrence goes. *)
Fixpoint splice_first (value : string) (arr : list string) : list string :=
  match arr with
  | [] => []
  | x :: rest =>
      if String.eqb x value then rest else x :: splice_first value rest
  end.

(** [toggleOption]: nothing happens when no option carries the value;
    a selected value is taken out, another one is pushed. *)
Definition toggleOption (i : instance) (value : string) : instance :=
  if negb (includes (values i) value) then i
  else if includes (selected i) value then
    {| values := values i; selected := splice_first value (selected i) |}
  else
    {| values := values i; selected := selected i ++ [value] |}.

(** [clearAll] and [reset] leave the same selection. *)
Definition reset (i : instance) : instance :=
  {| values := values i; selected := [] |}.

Definition getSelected (i : instance) : list string := selected i.

(** What a user does to one multiselect. *)
Inductive action : Type :=
| Toggle (value : string)
| Clear.

Definition act (i : instance) (a : action) : instance :=
  match a with
  | Toggle value => toggleOption i value
  | Clear => reset i
  end.

End SearchableSelect.

(** ** filters.js *)

Module Filters.
Import JS JSDate Config.

(** [Filters.state] *)
Record state : Type := State {
  companies : list string;
  purposes : list string;
  months : list string;
  sexes : list string;
  labels : list string;
  findings : list string;
  dateStart : option (option Z);
    (* [null] or a [Date], by its time value: [None] for an Invalid Date *)
  dateEnd : option (option Z);
  ageMin : number;
  ageMax : number
}.

(** The attributes of an input of type range that decide which values
    it can hold: the numbers its [min], [max] and [value] attributes
    read as, [None] when the attribute is absent or its text is no
    number; and its step, [None] when the [step] attribute is [any],
    else the number of the attribute, 1 when it is absent. *)
Record slider : Type := Slider {
  min_attr : option Q;
  max_attr : option Q;
  step_attr : option Q;
  value_attr : option Q
}.

(** The page, whose inputs [dateStart], [dateEnd], [ageMin] and [ageMax]
    exist.  What [readFilterState] reads from it: the selection of each
    searchable select; for a date input the empty value ([None]) or the
    three numbers [value.split('-').map(Number)] gives; for a slider
    the number [parseInt(value)] gives.  And what decides the value a
    slider takes when the code writes to it: the slider's attributes. *)
Record ui : Type := UI {
  companyFilter : list string;
  purposeFilter : list string;
  monthFilter : list string;
  sexFilter : list string;
  labelFilter : list string;
  findingsFilter : list string;
  dateStart_value : option (Z * Z * Z);
  dateEnd_value : option (Z * Z * Z);
  ageMin_value : number;
  ageMax_value : number;
  ageMin_slider : slider;
  ageMax_slider : slider
}.

(** *** Inputs of type range

    The markup of the page is not among the sources; a slider's
    attributes are taken as they come.  What follows is the HTML
    standard's range state: the value is a number at all times, kept
    within [min] and [max] and on a step counted from the step base. *)

(** The number of the text [String(n)] when an attribute or a value is
    set to [n]: [Infinity], [-Infinity] and [NaN] are no valid
    floating-point numbers. *)
Definition as_float (n : number) : option Q :=
  match n with Fin q => Some q | _ => None end.

Definition minimum (s : slider) : Q := default 0%Q (min_attr s).
Definition maximum (s : slider) : Q := default 100%Q (max_attr s).

(** Halfway between the minimum and the maximum *)
Definition default_value (s : slider) : Q :=
  if Qle_bool (minimum s) (maximum s)
  then (minimum s + (maximum s - minimum s) / 2)%Q
  else minimum s.

Definition step_base (s : slider) : Q :=
  match min_attr s with
  | Some m => m
  | None => default 0%Q (value_attr s)
  end.

(** The allowed value step: the default 1 stands in for a step that is
    not positive. *)
Definition allowed_step (s : slider) : option Q :=
  match step_attr s with
  | Some q => if Qle_bool q 0 then Some 1%Q else Some q
  | None => None
  end.

Definition whole (x : Q) : bool := Qeq_bool (inject_Z (Qfloor x)) x.

(** The value sanitization algorithm: text that is no number gives the
    default value; a value under the minimum becomes the minimum; one
    over the maximum becomes the maximum, unless the maximum lies under
    the minimum; a value off the steps is rounded to the nearest step
    within these bounds, upwards from halfway, if there is one. *)
Definition sanitize (s : slider) (written : option Q) : Q :=
  let lo := minimum s in
  let hi := maximum s in
  let v := default (default_value s) written in
  let v := if Qle_bool lo v then v else lo in
  let v := if Qle_bool lo hi && negb (Qle_bool v hi) then hi else v in
  Qred
    match allowed_step s with
    | None => v
    | Some step =>
        let base := step_base s in
        if whole ((v - base) / step)%Q then v
        else
          let k := Qfloor ((v - base) / step + (1 # 2))%Q in
          let k_lo := Qceiling ((lo - base) / step)%Q in
          if Qle_bool lo hi then
            let k_hi := Qfloor ((hi - base) / step)%Q in
            if (k_lo <=? k_hi)%Z
            then (base + inject_Z (Z.max k_lo (Z.min k k_hi)) * step)%Q
            else v
          else (base + inject_Z (Z.max k_lo k) * step)%Q
    end.

Section WithHost.
Context `{Host}.

Definition readFilterState (u : ui) : state :=
  {| companies := companyFilter u;
     purposes := purposeFilter u;
     months := monthFilter u;
     sexes := sexFilter u;
     labels := labelFilter u;
     findings := findingsFilter u;
     dateStart :=
       match dateStart_value u with
       | Some (year, month, day) =>
           Some (new_Date year (month - 1) day 0 0 0 0)
       | None => None
       end;
     dateEnd :=
       match dateEnd_value u with
       | Some (year, month, day) =>
           Some (new_Date year (month - 1) day 23 59 59 999)
       | None => None
       end;
     ageMin := ageMin_value u;
     ageMax := ageMax_value u |}.

(** [arr.length > 0] *)
Definition nonempty (arr : list string) : bool :=
  negb (Nat.eqb (List.length arr) 0).

(** [rowDate < bound] and [rowDate > bound] between [Date] objects:
    false when one of the two is an Invalid Date. *)
Definition date_lt (rowDate bound : option Z) : bool :=
  match rowDate, bound with
  | Some t, Some b => (t <? b)%Z
  | _, _ => false
  end.
Definition date_gt (rowDate bound : option Z) : bool :=
  match rowDate, bound with
  | Some t, Some b => (b <? t)%Z
  | _, _ => false
  end.

(** The callback of [data.filter] in [applyFilters]. *)
Definition keep (st : state) (row : Config.row) : bool :=
  if nonempty (companies st)
     && negb (includes (companies st) (ToString (COMPANY row))) then false
  else if nonempty (purposes st)
     && negb (includes (purposes st) (ToString (PURPOSE row))) then false
  else if nonempty (months st)
     && negb (includes (months st) (ToString (MONTH row))) then false
  else if nonempty (sexes st)
     && negb (includes (sexes st) (ToString (SEX row))) then false
  else if nonempty (labels st)
     && negb (includes (labels st) (ToString (LABEL row))) then false
  else if nonempty (findings st)
     && negb (includes (findings st) (ToString (FINDINGS row))) then false
  else if
    match dateStart st, dateEnd st with
    | Some start, Some end_ =>
        match DATE row with
        | ADate rowDate => date_lt rowDate start || date_gt rowDate end_
        | NoDate => false
        end
    | _, _ => false
    end then false
  else if
    match numeric_age (AGE row) with
    | Some age => lt age (ageMin st) || gt age (ageMax st)
    | None => false
    end then false
  else true.

Definition applyFilters (u : ui) (data : list Config.row) : list Config.row :=
  let st := readFilterState u in
  List.filter (keep st) data.

(** [slider.value = n] and, later, [parseInt(slider.value)]: the value
    the slider takes, printed as [String] prints a number, and read. *)
Definition slider_reads (s : slider) (n : number) : number :=
  parseInt (Number_toString (Fin (sanitize s (as_float n)))).

(** [slider.min = minAge; slider.max = maxAge] *)
Definition with_range (minAge maxAge : number) (s : slider) : slider :=
  {| min_attr := as_float minAge;
     max_attr := as_float maxAge;
     step_attr := step_attr s;
     value_attr := value_attr s |}.

(** [formatDate] of [populateDateRange]: the local year, month and day
    that make up the text [year-month-day]. *)
Definition formatDate (d : Z) : Z * Z * Z :=
  (YearFromTime (LocalTime d), (MonthFromTime (LocalTime d) + 1)%Z,
   DateFromTime (LocalTime d)).

(** Assigning to the [value] of a date input: text that is not a valid
    date string (a year of four or more digits, no sign) leaves the
    value empty. *)
Definition set_date_value (ymd : Z * Z * Z) : option (Z * Z * Z) :=
  let '(year, _, _) := ymd in
  if (1000 <=? year)%Z then Some ymd else None.

(** [dates] holds the rows' valid [Date] cells, by time value. *)
Definition populateDateRange (data : list Config.row) (u : ui) : ui :=
  let dates :=
    sort (fun a b => a - b)%Z
      (omap (fun row => valid_date (DATE row)) data) in
  match dates with
  | [] => u
  | minDate :: _ =>
      let maxDate := List.last dates minDate in
      {| companyFilter := companyFilter u;
         purposeFilter := purposeFilter u;
         monthFilter := monthFilter u;
         sexFilter := sexFilter u;
         labelFilter := labelFilter u;
         findingsFilter := findingsFilter u;
         dateStart_value := set_date_value (formatDate minDate);
         dateEnd_value := set_date_value (formatDate maxDate);
         ageMin_value := ageMin_value u;
         ageMax_value := ageMax_value u;
         ageMin_slider := ageMin_slider u;
         ageMax_slider := ageMax_slider u |}
  end.

(** Each slider is given the two ages as its [min] and [max] and then
    one of them as its value. *)
Definition populateAgeRange (data : list Config.row) (u : ui) : ui :=
  let ages := omap (fun row => numeric_age (AGE row)) data in
  match ages with
  | [] => u
  | _ :: _ =>
      let minAge := Math_floor (Math_min ages) in
      let maxAge := Math_ceil (Math_max ages) in
      let ageMinSlider := with_range minAge maxAge (ageMin_slider u) in
      let ageMaxSlider := with_range minAge maxAge (ageMax_slider u) in
      {| companyFilter := companyFilter u;
         purposeFilter := purposeFilter u;
         monthFilter := monthFilter u;
         sexFilter := sexFilter u;
         labelFilter := labelFilter u;
         findingsFilter := findingsFilter u;
         dateStart_value := dateStart_value u;
         dateEnd_value := dateEnd_value u;
         ageMin_value := slider_reads ageMinSlider minAge;
         ageMax_value := slider_reads ageMaxSlider maxAge;
         ageMin_slider := ageMinSlider;
         ageMax_slider := ageMaxSlider |}
  end.

(** [SearchableSelect.create] starts each select with nothing
    selected; then the two ranges are filled in. *)
Definition populateFilters (data : list Config.row) (u : ui) : ui :=
  let u0 :=
    {| companyFilter := []; purposeFilter := []; monthFilter := [];
       sexFilter := []; labelFilter := []; findingsFilter := [];
       dateStart_value := dateStart_value u;
       dateEnd_value := dateEnd_value u;
       ageMin_value := ageMin_value u;
       ageMax_value := ageMax_value u;
       ageMin_slider := ageMin_slider u;
       ageMax_slider := ageMax_slider u |} in
  populateAgeRange data (populateDateRange data u0).

(** The page after the user has set its inputs to what [page] reads;
    the attributes of the sliders stay. *)
Definition edited (page u : ui) : ui :=
  {| companyFilter := companyFilter page;
     purposeFilter := purposeFilter page;
     monthFilter := monthFilter page;
     sexFilter := sexFilter page;
     labelFilter := labelFilter page;
     findingsFilter := findingsFilter page;
     dateStart_value := dateStart_value page;
     dateEnd_value := dateEnd_value page;
     ageMin_value := ageMin_value page;
     ageMax_value := ageMax_value page;
     ageMin_slider := ageMin_slider u;
     ageMax_slider := ageMax_slider u |}.

End WithHost.
(** *** Options of a select, and clearing *)

(** What the host's strings do: how [Array.prototype.sort] without a
    comparator orders two strings (by UTF-16 code units),
    [s.toUpperCase()] and [a.localeCompare(b)]. *)
Class Collation : Type := {
  default_compare : string -> string -> Z;
  toUpperCase : string -> string;
  localeCompare : string -> string -> Z
}.

(** [values.add(s)] on a [Set] of strings, in insertion order *)
Definition add_value (values : list string) (s : string) : list string :=
  if includes values s then values else values ++ [s].

(** [val !== null && val !== undefined && val !== ''] *)
Definition offered (val : value) : bool :=
  match val with
  | Null | Undefined => false
  | Str s => negb (String.eqb s "")
  | _ => true
  end.

(** [getUniqueValues(data, column)]; the column is given by the
    projection that reads it. *)
Definition getUniqueValues `{Host} `{Collation} (data : list Config.row)
  (column : Config.row -> value) : list string :=
  let values :=
    foldl (fun values row =>
             let val := column row in
             if offered val then add_value values (ToString val) else values)
      [] data in
  sort default_compare values.

Definition monthOrder : list string :=
  ["JANUARY"; "FEBRUARY"; "MARCH"; "APRIL"; "MAY"; "JUNE";
   "JULY"; "AUGUST"; "SEPTEMBER"; "OCTOBER"; "NOVEMBER"; "DECEMBER"].

(** [arr.indexOf(s)]: [None] is [-1]. *)
Fixpoint indexOf (arr : list string) (s : string) : option Z :=
  match arr with
  | [] => None
  | x :: rest =>
      if String.eqb x s then Some 0%Z
      else option_map Z.succ (indexOf rest s)
  end.

(** The comparator that puts the months in calendar order. *)
Definition by_calendar `{Collation} (a b : string) : Z :=
  let indexA := indexOf monthOrder (toUpperCase a) in
  let indexB := indexOf monthOrder (toUpperCase b) in
  match indexA, indexB with
  | None, None => localeCompare a b
  | None, Some _ => 1%Z
  | Some _, None => (-1)%Z
  | Some i, Some j => (i - j)%Z
  end.

(** The options [populateFilters] gives the six multiselects. *)
Section Options.
Context `{Host} `{Collation}.

Definition companyOptions (data : list Config.row) : list string :=
  getUniqueValues data COMPANY.
Definition purposeOptions (data : list Config.row) : list string :=
  getUniqueValues data PURPOSE.
Definition monthOptions (data : list Config.row) : list string :=
  sort by_calendar (getUniqueValues data MONTH).
Definition sexOptions (data : list Config.row) : list string :=
  getUniqueValues data SEX.
Definition labelOptions (data : list Config.row) : list string :=
  getUniqueValues data LABEL.
Definition findingsOptions (data : list Config.row) : list string :=
  getUniqueValues data FINDINGS.

End Options.

(** [Filters.originalRanges]: the two date texts, by the numbers they are
    made of ([None] is [null]), and the two ages. *)
Record ranges : Type := Ranges {
  dateMin : option (Z * Z * Z);
  dateMax : option (Z * Z * Z);
  originalAgeMin : number;
  originalAgeMax : number
}.

Definition initialRanges : ranges :=
  {| dateMin := None; dateMax := None;
     originalAgeMin := of_Z 0; originalAgeMax := of_Z 100 |}.

Section Clearing.
Context `{Host}.

(** What [populateDateRange] and [populateAgeRange] store in
    [originalRanges] while they fill in the page. *)
Definition storeDateRange (data : list Config.row) (r : ranges) : ranges :=
  let dates :=
    sort (fun a b => a - b)%Z
      (omap (fun row => valid_date (DATE row)) data) in
  match dates with
  | [] => r
  | minDate :: _ =>
      let maxDate := List.last dates minDate in
      {| dateMin := Some (formatDate minDate);
         dateMax := Some (formatDate maxDate);
         originalAgeMin := originalAgeMin r;
         originalAgeMax := originalAgeMax r |}
  end.

Definition storeAgeRange (data : list Config.row) (r : ranges) : ranges :=
  let ages := omap (fun row => numeric_age (AGE row)) data in
  match ages with
  | [] => r
  | _ :: _ =>
      {| dateMin := dateMin r;
         dateMax := dateMax r;
         originalAgeMin := Math_floor (Math_min ages);
         originalAgeMax := Math_ceil (Math_max ages) |}
  end.

Definition storeRanges (data : list Config.row) (r : ranges) : ranges :=
  storeAgeRange data (storeDateRange data r).

(** [clearFilters]: every select is reset, a date input takes the stored
    text when there is one, each slider is set to the stored age and
    holds what its attributes make of it. *)
Definition clearFilters (r : ranges) (u : ui) : ui :=
  {| companyFilter := []; purposeFilter := []; monthFilter := [];
     sexFilter := []; labelFilter := []; findingsFilter := [];
     dateStart_value :=
       match dateMin r with
       | Some text => set_date_value text
       | None => dateStart_value u
       end;
     dateEnd_value :=
       match dateMax r with
       | Some text => set_date_value text
       | None => dateEnd_value u
       end;
     ageMin_value := slider_reads (ageMin_slider u) (originalAgeMin r);
     ageMax_value := slider_reads (ageMax_slider u) (originalAgeMax r);
     ageMin_slider := ageMin_slider u;
     ageMax_slider := ageMax_slider u |}.

End Clearing.

End Filters.

(** ** The [DataProcessor] module *)

Module DataProcessor.
Import JS JSDate Config.

(** [new Set()], [s.add(e)] and [s.size] on sets of patient numbers *)
Definition Set_add (e : string) (s : gset string) : gset string := {[ e ]} ∪ s.

(** [grouped[k].add(e)] *)
Definition add_at (grouped : obj (gset string)) (k e : string)
  : obj (gset string) :=
  match get grouped k with
  | Some s => set grouped k (Set_add e s)
  | None => grouped
  end.

(** The shared body of the roll-ups keyed by [k]:
    [if (!grouped[k]) grouped[k] = new Set();
     if (row[COLUMNS.EMPLOYEE]) grouped[k].add(row[COLUMNS.EMPLOYEE]);] *)
Definition collect (grouped : obj (gset string)) (k : string) (row : Config.row)
  : obj (gset string) :=
  let grouped :=
    match get grouped k with
    | None => set grouped k ∅
    | Some _ => grouped
    end in
  match patient row with
  | Some e => add_at grouped k e
  | None => grouped
  end.

(** [counts[k] = (counts[k] || 0) + 1] *)
Definition bump (counts : obj nat) (k : string) : obj nat :=
  set counts k (default 0 (get counts k) + 1).

(** [.map(([key, patients]) => ({ key, count: patients.size }))] *)
Definition sizes (entries : list (string * gset string)) : list (string * nat) :=
  map (fun e => (fst e, size (snd e))) entries.

(** [(a, b) => b.count - a.count] *)
Definition by_count_desc (a b : string * nat) : Z :=
  (Z.of_nat (snd b) - Z.of_nat (snd a))%Z.

(** [date.toISOString().split('T')[0]] for a [Date]; [None] is the
    [RangeError] that [toISOString] throws on an Invalid Date. *)
Definition formatDateKey (date : option Z) : option string :=
  match date with
  | Some t => head (split "T" (toISOString t))
  | None => None
  end.

Section WithHost.
Context `{Host}.

Definition formatMonthKey (date : option Z) : string :=
  let year := getFullYear date in
  let month := padStart0 2 (int_toString (succ_int (getMonth date))) in
  int_toString year ++ "-" ++ month.

(** Each result is a list of pairs: the key and the count of one
    object of the array the function returns.  [None] is an exception
    leaving the function. *)
Definition getPatientsPerDay (data : list Config.row)
  : option (list (string * nat)) :=
  grouped ← foldl (fun acc row =>
               grouped ← acc;
               match DATE row with
               | NoDate => Some grouped
               | ADate date =>
                   dateKey ← formatDateKey date;
                   Some (collect grouped dateKey row)
               end) (Some []) data;
  Some (sort (fun a b => date_diff (fst a) (fst b))
          (sizes (Object_entries grouped))).

Definition getPatientsPerMonth (data : list Config.row) : list (string * nat) :=
  let grouped :=
    foldl (fun grouped row =>
             match DATE row with
             | NoDate => grouped
             | ADate date =>
                 let monthKey := formatMonthKey date in
                 collect grouped monthKey row
             end) [] data in
  sort (fun a b => date_diff (fst a ++ "-01") (fst b ++ "-01"))
    (sizes (Object_entries grouped)).

Definition getTopFindings (data : list Config.row) (topN : Z)
  : list (string * nat) :=
  let counts :=
    foldl (fun counts row =>
             let finding := FINDINGS row in
             if truthy finding then bump counts (ToString finding)
             else counts) [] data in
  slice0 topN (sort by_count_desc (Object_entries counts)).

Definition getSexDistribution (data : list Config.row) : list (string * nat) :=
  let grouped :=
    foldl (fun grouped row =>
             let sex := or_else (SEX row) (Str "Unknown") in
             collect grouped (ToString sex) row) [] data in
  sizes (Object_entries grouped).

End WithHost.

Definition categorizeAgeBracket (age : age_cell) : string :=
  match numeric_age age with
  | None => "Unknown"
  | Some age =>
      let age := Math_floor age in
      if lt age (of_Z 18) then "<18"
      else if le age (of_Z 24) then "18-24"
      else if le age (of_Z 34) then "25-34"
      else if le age (of_Z 44) then "35-44"
      else if le age (of_Z 54) then "45-54"
      else if le age (of_Z 64) then "55-64"
      else if le age (of_Z 74) then "65-74"
      else if le age (of_Z 84) then "75-84"
      else "85+"
  end.

(** [if (!employee || seen.has(employee)) return;] : the patient number
    when the row is the first of a patient. *)
Definition first_visit (seen : gset string) (row : Config.row) : option string :=
  match patient row with
  | Some employee => if bool_decide (employee ∈ seen) then None else Some employee
  | None => None
  end.

Definition getAgeBracketDistribution (data : list Config.row)
  : list (string * nat) :=
  let '(grouped, seen) :=
    foldl (fun '(grouped, seen) row =>
             match first_visit seen row with
             | None => (grouped, seen)
             | Some employee =>
                 let seen := Set_add employee seen in
                 let age := AGE row in
                 let bracket := categorizeAgeBracket age in
                 (bump grouped bracket, seen)
             end) ([], ∅) data in
  map (fun bracket => (bracket, default 0 (get grouped bracket)))
    (List.filter (fun bracket => negb (Nat.eqb (default 0 (get grouped bracket)) 0))
       AGE_BRACKETS).

Definition getAgeDistribution (data : list Config.row) : list number :=
  let '(ages, seen) :=
    foldl (fun '(ages, seen) row =>
             match first_visit seen row with
             | None => (ages, seen)
             | Some employee =>
                 let seen := Set_add employee seen in
                 match numeric_age (AGE row) with
                 | Some age => (ages ++ [age], seen)
                 | None => (ages, seen)
                 end
             end) ([], ∅) data in
  ages.

(** *** The other aggregates *)

Definition getUniquePatients (data : list Config.row) : nat :=
  if Nat.eqb (List.length data) 0 then 0
  else size (list_to_set (omap patient data) : gset string).

(** The loop body of [getDailyStats] for a row filed under [dateKey]. *)
Definition daily_step (grouped : obj (nat * gset string)) (dateKey : string)
  (row : Config.row) : obj (nat * gset string) :=
  let grouped :=
    match get grouped dateKey with
    | None => set grouped dateKey (0, ∅)
    | Some _ => grouped
    end in
  let grouped :=
    match get grouped dateKey with
    | Some (records, patients) => set grouped dateKey (records + 1, patients)
    | None => grouped
    end in
  match patient row with
  | Some e =>
      match get grouped dateKey with
      | Some (records, patients) => set grouped dateKey (records, Set_add e patients)
      | None => grouped
      end
  | None => grouped
  end.

Section MoreWithHost.
Context `{Host}.

(** Each entry is [(date, totalRecords, uniquePatients)]. *)
Definition getDailyStats (data : list Config.row)
  : option (list (string * nat * nat)) :=
  grouped ← foldl (fun acc row =>
               grouped ← acc;
               match DATE row with
               | NoDate => Some grouped
               | ADate date =>
                   dateKey ← formatDateKey date;
                   Some (daily_step grouped dateKey row)
               end) (Some []) data;
  Some (sort (fun a b => date_diff (fst (fst a)) (fst (fst b)))
          (map (fun e => (fst e, fst (snd e), size (snd (snd e))))
             (Object_entries grouped))).

Definition getCompanyDistribution (data : list Config.row) (topN : Z)
  : list (string * nat) :=
  let grouped :=
    foldl (fun grouped row =>
             let company := COMPANY row in
             if negb (truthy company) then grouped
             else collect grouped (ToString company) row) [] data in
  slice0 topN (sort by_count_desc (sizes (Object_entries grouped))).

Definition getPurposeDistribution (data : list Config.row) (topN : Z)
  : list (string * nat) :=
  let grouped :=
    foldl (fun grouped row =>
             let purpose := PURPOSE row in
             if negb (truthy purpose) then grouped
             else collect grouped (ToString purpose) row) [] data in
  slice0 topN (sort by_count_desc (sizes (Object_entries grouped))).

(** [WEEKDAYS[new Date(date).getDay() === 0 ? 6 : new Date(date).getDay() - 1]]
    as a property key: an Invalid Date indexes with [NaN] and gets
    [undefined]. *)
Definition weekday_of (date : option Z) : string :=
  match getDay date with
  | Some day =>
      let index := if (day =? 0)%Z then 6%Z else (day - 1)%Z in
      nth (Z.to_nat index) WEEKDAYS "undefined"
  | None => "undefined"
  end.

Definition getWeekdayDistribution (data : list Config.row) : list (string * nat) :=
  let grouped :=
    foldl (fun grouped row =>
             match DATE row with
             | NoDate => grouped
             | ADate date => collect grouped (weekday_of date) row
             end) [] data in
  map (fun weekday =>
         (weekday,
          match get grouped weekday with
          | Some patients => size patients
          | None => 0
          end)) WEEKDAYS.

Definition getICDDistribution (data : list Config.row) (topN : Z)
  : list (string * nat) :=
  let counts :=
    foldl (fun counts row =>
             let icd := or_else (ICD row) (Str "No ICD") in
             bump counts (ToString icd)) [] data in
  slice0 topN (sort by_count_desc (Object_entries counts)).

Definition getLabelDistribution (data : list Config.row) (topN : Z)
  : list (string * nat) :=
  let counts :=
    foldl (fun counts row =>
             let label := or_else (LABEL row) (Str "Unclassified") in
             bump counts (ToString label)) [] data in
  slice0 topN (sort by_count_desc (Object_entries counts)).

(** [arr.reduce((max, curr) => curr.count > max.count ? curr : max)] on a
    non-empty array *)
Definition largest_of (first : string * nat) (rest : list (string * nat))
  : string * nat :=
  foldl (fun max curr => if Nat.ltb (snd max) (snd curr) then curr else max) first rest.

(** The result is [(bracket, topFinding, count)]. *)
Definition getLargestAgeBracketFinding (data : list Config.row)
  : string * string * nat :=
  let brackets := getAgeBracketDistribution data in
  match brackets with
  | [] => ("N/A", "N/A", 0)
  | _ :: _ =>
      let validBrackets :=
        List.filter (fun b => negb (String.eqb (fst b) "Unknown")) brackets in
      match validBrackets with
      | [] => ("N/A", "N/A", 0)
      | first :: rest =>
          let largest := largest_of first rest in
          let bracketData :=
            List.filter (fun row =>
                           String.eqb (categorizeAgeBracket (AGE row)) (fst largest))
              data in
          let topFindings := getTopFindings bracketData 1 in
          (fst largest,
           match topFindings with (finding, _) :: _ => finding | [] => "N/A" end,
           match topFindings with (_, count) :: _ => count | [] => 0 end)
      end
  end.

End MoreWithHost.

End DataProcessor.

(** ** dataLoader.js and the upload handler of app.js *)

Module DataLoader.
Import JS Config.

(** An uploaded [File]: its name and its bytes. *)
Record File : Type := { name : string; bytes : list Byte.byte }.

(** A settled promise. *)
Inductive settled (A : Type) : Type :=
| Resolved (a : A)
| Rejected (message : string).
Arguments Resolved {A} a.
Arguments Rejected {A} message.

(** A row as a parser hands it over: the cells of the ten known
    columns ([undefined] for a column the file lacks) and the cells of
    any other column. *)
Record parsed_row : Type := Parsed {
  cell_DATE : value;
  cell_PURPOSE : value;
  cell_EMPLOYEE : value;
  cell_SEX : value;
  cell_COMPANY : value;
  cell_MONTH : value;
  cell_AGE : value;
  cell_FINDINGS : value;
  cell_ICD : value;
  cell_LABEL : value;
  other_cells : list value
}.

(** The external collaborators: PapaParse on a file ([Rejected] is its
    [error] callback), the [FileReader] ([None] is [onerror]) and SheetJS
    on the bytes read ([Rejected] is an exception it throws). *)
Class Parsers : Type := {
  Papa_parse : File -> settled (list parsed_row);
  readAsArrayBuffer : File -> option (list Byte.byte);
  XLSX_sheet_to_json : list Byte.byte -> settled (list parsed_row)
}.

Section ProcessData.
Context `{Host}.

(** The three coercions of [processData], cell by cell. *)
Definition process_date (dateVal : value) : value :=
  if truthy dateVal then
    match dateVal with
    | DateObj _ => dateVal
    | _ =>
        match JSDate.new_Date_of_value dateVal with
        | Some t => DateObj (Some t)
        | None => Null
        end
    end
  else dateVal.

Definition process_age (cell : value) : value :=
  match cell with
  | Undefined => Undefined
  | _ =>
      let age := parseFloat (ToString cell) in
      if isNaN age then Null else Number age
  end.

Definition process_employee (cell : value) : value :=
  match cell with
  | Undefined => Undefined
  | _ => Str (ToString (or_else cell (Str "")))
  end.

Definition process_row (row : parsed_row) : parsed_row :=
  {| cell_DATE := process_date (cell_DATE row);
     cell_PURPOSE := cell_PURPOSE row;
     cell_EMPLOYEE := process_employee (cell_EMPLOYEE row);
     cell_SEX := cell_SEX row;
     cell_COMPANY := cell_COMPANY row;
     cell_MONTH := cell_MONTH row;
     cell_AGE := process_age (cell_AGE row);
     cell_FINDINGS := cell_FINDINGS row;
     cell_ICD := cell_ICD row;
     cell_LABEL := cell_LABEL row;
     other_cells := other_cells row |}.

(** [val !== null && val !== '' && val !== undefined] *)
Definition filled (val : value) : bool :=
  match val with
  | Null | Undefined => false
  | Str s => negb (String.eqb s "")
  | _ => true
  end.

(** [Object.values(row).some(...)] *)
Definition some_filled (row : parsed_row) : bool :=
  existsb filled
    ([cell_DATE row; cell_PURPOSE row; cell_EMPLOYEE row; cell_SEX row;
      cell_COMPANY row; cell_MONTH row; cell_AGE row; cell_FINDINGS row;
      cell_ICD row; cell_LABEL row] ++ other_cells row).

(** A processed row as the rest of the program reads it. *)
Definition loaded (row : parsed_row) : Config.row :=
  {| DATE := match cell_DATE row with DateObj tv => ADate tv | _ => NoDate end;
     PURPOSE := cell_PURPOSE row;
     EMPLOYEE := match cell_EMPLOYEE row with Str s => Some s | _ => None end;
     SEX := cell_SEX row;
     COMPANY := cell_COMPANY row;
     MONTH := cell_MONTH row;
     AGE := match cell_AGE row with
            | Undefined => AgeUndefined
            | Number n => AgeNum n
            | _ => AgeNull
            end;
     FINDINGS := cell_FINDINGS row;
     ICD := cell_ICD row;
     LABEL := cell_LABEL row |}.

Definition processData (data : list parsed_row) : list Config.row :=
  map loaded (List.filter some_filled (map process_row data)).

Context `{Parsers}.

Definition parseCSV (file : File) : settled (list Config.row) :=
  match Papa_parse file with
  | Resolved data => Resolved (processData data)
  | Rejected message => Rejected ("Failed to parse CSV: " ++ message)
  end.

Definition parseExcel (file : File) : settled (list Config.row) :=
  match readAsArrayBuffer file with
  | Some data =>
      match XLSX_sheet_to_json data with
      | Resolved jsonData => Resolved (processData jsonData)
      | Rejected message => Rejected ("Failed to parse Excel file: " ++ message)
      end
  | None => Rejected "Failed to read file"
  end.

End ProcessData.

(** A computation that records which parser it started. *)
Inductive call : Type :=
| CallParseCSV (file : File)
| CallParseExcel (file : File).

Definition traced (A : Type) : Type := list call * A.

Definition unsupported : string :=
  "Unsupported file format. Please use CSV or Excel files.".

Definition extension_of (file : File) : string :=
  toLowerCase (pop (split "." (name file))).

Definition parseFile `{Host} `{Parsers} (file : File)
  : traced (settled (list Config.row)) :=
  let extension := extension_of file in
  if String.eqb extension "csv" then
    ([CallParseCSV file], parseCSV file)
  else if includes ["xlsx"; "xls"] extension then
    ([CallParseExcel file], parseExcel file)
  else
    ([], Rejected unsupported).

End DataLoader.

Module App.
Import JS Config DataLoader.

(** What the [fileStatus] element shows. *)
Inductive file_status : Type :=
| Idle
| Loading
| Loaded (records : nat)
| Failed (message : string).

Record app : Type := {
  fullData : list Config.row;
  filteredData : list Config.row;
  fileLabel : string;
  fileStatus : file_status;
  filters : Filters.ui;
  dashboardShown : bool
}.

(** The [change] listener that [setupFileUpload] installs on the file
    input, run to the end of its [try]/[catch]; rendering is left out. *)
Definition fileInput_change `{Host} `{Parsers} (file : option File) (a : app)
  : traced app :=
  match file with
  | None => ([], a)
  | Some file =>
      let '(calls, outcome) := parseFile file in
      match outcome with
      | Resolved data =>
          (calls,
           {| fullData := data;
              filteredData := data;
              fileLabel := name file;
              fileStatus := Loaded (List.length data);
              filters := Filters.populateFilters data (filters a);
              dashboardShown := true |})
      | Rejected message =>
          (calls,
           {| fullData := fullData a;
              filteredData := filteredData a;
              fileLabel := name file;
              fileStatus := Failed message;
              filters := filters a;
              dashboardShown := dashboardShown a |})
      end
  end.

(** *** The session: the page's events one after the other *)

(** The application with the [originalRanges] of [Filters]. *)
Record session : Type := {
  application : app;
  originalRanges : Filters.ranges
}.

Definition initialSession (page : Filters.ui) : session :=
  {| application :=
       {| fullData := []; filteredData := []; fileLabel := "";
          fileStatus := Idle; filters := page; dashboardShown := false |};
     originalRanges := Filters.initialRanges |}.

(** What the user does: picks a file; changes the filter inputs, leaving
    them to read what [page] reads; presses the clear button. *)
Inductive event : Type :=
| FileChosen (file : option File)
| FiltersEdited (page : Filters.ui)
| ClearPressed.

Section Events.
Context `{Host} `{Parsers}.

(** [onFilterChange], short of the rendering in [refresh] *)
Definition onFilterChange (a : app) : app :=
  if Nat.eqb (List.length (fullData a)) 0 then a
  else
    {| fullData := fullData a;
       filteredData := Filters.applyFilters (filters a) (fullData a);
       fileLabel := fileLabel a;
       fileStatus := fileStatus a;
       filters := filters a;
       dashboardShown := dashboardShown a |}.

(** The page is now [page]. *)
Definition with_filters (page : Filters.ui) (a : app) : app :=
  {| fullData := fullData a;
     filteredData := filteredData a;
     fileLabel := fileLabel a;
     fileStatus := fileStatus a;
     filters := page;
     dashboardShown := dashboardShown a |}.

(** The listeners [setupFileUpload] and [Filters.setupEventListeners]
    install, each run to its end: a successful upload also stores the
    ranges [populateFilters] finds; a change of an input calls
    [onFilterChange]; the clear button calls [clearFilters] and then
    [onFilterChange]. *)
Definition handle (s : session) (e : event) : session :=
  match e with
  | FileChosen file =>
      let a := snd (fileInput_change file (application s)) in
      {| application := a;
         originalRanges :=
           match file with
           | Some f =>
               match snd (parseFile f) with
               | Resolved data => Filters.storeRanges data (originalRanges s)
               | Rejected _ => originalRanges s
               end
           | None => originalRanges s
           end |}
  | FiltersEdited page =>
      let page := Filters.edited page (filters (application s)) in
      {| application := onFilterChange (with_filters page (application s));
         originalRanges := originalRanges s |}
  | ClearPressed =>
      let page := Filters.clearFilters (originalRanges s) (filters (application s)) in
      {| application := onFilterChange (with_filters page (application s));
         originalRanges := originalRanges s |}
  end.

Definition run (s : session) (events : list event) : session :=
  foldl handle s events.

End Events.

End App.

(** ** The CSV download of chartToolbar.js *)

Module ChartToolbar.
Import JS.

(** A cell of a chart's table: a text or a count. *)
Inductive cell : Type :=
| Text (s : string)
| Count (n : N).

Definition quote : ascii := ascii_of_nat 34.
Definition comma : ascii := ",".

(** [val.includes(c)] for a one-character [c] *)
Fixpoint has (c : ascii) (s : string) : bool :=
  match s with
  | EmptyString => false
  | String c' s' => Ascii.eqb c' c || has c s'
  end.

(** [val.replace] of every double quote by two of them *)
Fixpoint double_quotes (s : string) : string :=
  match s with
  | EmptyString => EmptyString
  | String c s' =>
      if Ascii.eqb c quote then String quote (String quote (double_quotes s'))
      else String c (double_quotes s')
  end.

(** The callback of [chartInfo.columns.map] in [downloadCSV], followed by
    the coercion [join] applies to a number. *)
Definition field (val : cell) : string :=
  match val with
  | Text s =>
      if has comma s || has quote s
      then String quote (double_quotes s ++ String quote EmptyString)
      else s
  | Count n => digits n
  end.

(** [r.join(',')] *)
Fixpoint join (sep : string) (parts : list string) : string :=
  match parts with
  | [] => EmptyString
  | [p] => p
  | p :: rest => p ++ sep ++ join sep rest
  end.

Definition line (row : list cell) : string := join "," (map field row).

End ChartToolbar.

(** * Properties *)

(** ** Vocabulary of the statements *)

Module Spec.
Import JS JSDate Config DataProcessor.

(** *** Conditions of the filter *)

Section Conditions.
Context `{Host}.

(** A category cell passes an accepted-value set: the set is empty, or
    the cell coerced to a string is a member. *)
Definition accepts (accepted : list string) (cell : value) : Prop :=
  accepted = [] \/ In (ToString cell) accepted.

Definition categories_ok (st : Filters.state) (row : Config.row) : Prop :=
  accepts (Filters.companies st) (COMPANY row) /\
  accepts (Filters.purposes st) (PURPOSE row) /\
  accepts (Filters.months st) (MONTH row) /\
  accepts (Filters.sexes st) (SEX row) /\
  accepts (Filters.labels st) (LABEL row) /\
  accepts (Filters.findings st) (FINDINGS row).

(** When both ends of the date range are set, a valid date is not
    before the start and not after the end, each of them counting when
    it is a valid [Date]. *)
Definition date_ok (st : Filters.state) (row : Config.row) : Prop :=
  forall start end_ t,
    Filters.dateStart st = Some start -> Filters.dateEnd st = Some end_ ->
    valid_date (DATE row) = Some t ->
    (forall s, start = Some s -> (s <= t)%Z) /\
    (forall e, end_ = Some e -> (t <= e)%Z).

(** A numeric age is neither below [ageMin] nor above [ageMax]. *)
Definition age_ok (st : Filters.state) (row : Config.row) : Prop :=
  forall age,
    numeric_age (AGE row) = Some age ->
    lt age (Filters.ageMin st) = false /\ gt age (Filters.ageMax st) = false.

End Conditions.

(** The valid dates and the numeric ages of a record set, as
    [populateDateRange] and [populateAgeRange] collect them. *)
Definition valid_dates (data : list Config.row) : list Z :=
  omap (fun row => valid_date (DATE row)) data.

Definition numeric_ages (data : list Config.row) : list number :=
  omap (fun row => numeric_age (AGE row)) data.



(** *** Groupings *)

(** Ascending order of a numeric key, and the order [E] among elements
    with equal keys. *)
Definition key_then {A} (f : A -> Z) (E : A -> A -> Prop) (a b : A) : Prop :=
  (f a < f b)%Z \/ (f a = f b /\ E a b).

(** An occurrence of [a] with no [b] before it: the first [a] comes
    before the first [b]. *)
Definition first_before (ks : list string) (a b : string) : Prop :=
  exists l1 l2, ks = l1 ++ a :: l2 /\ ~ In b (l1 ++ [a]).

(** The order in which [Object.entries] lists the keys of an object
    whose keys were assigned in the sequence [ks]. *)
Definition enum_before (ks : list string) (a b : string) : Prop :=
  match array_index a, array_index b with
  | Some i, Some j => (i < j)%N
  | Some _, None => True
  | None, Some _ => False
  | None, None => first_before ks a b
  end.

(** The loops [data.forEach(row => { ...; o[k] = h(o[k], row) })], where
    a row without a key is skipped. *)
Section Group.
Context {R V : Type} (kf : R -> option string) (h : option V -> R -> V).

Definition group_step (o : obj V) (row : R) : obj V :=
  match kf row with
  | None => o
  | Some k => set o k (h (get o k) row)
  end.

Definition group (data : list R) : obj V := foldl group_step [] data.

(** The value a key ends with, computed on its own. *)
Definition value_of (k : string) (data : list R) : option V :=
  foldl (fun acc row =>
           if bool_decide (kf row = Some k) then Some (h acc row) else acc)
    None data.
End Group.

(** The rows with key [k] *)
Definition rows_of {R} (kf : R -> option string) (k : string) (data : list R)
  : list R :=
  List.filter (fun row => bool_decide (kf row = Some k)) data.

(** The distinct patients of a list of rows *)
Definition patients (rows : list Config.row) : gset string :=
  list_to_set (omap patient rows).

(** What the roll-up loops keep under a key: the patients seen so far
    and the row's own, for [collect]; one more, for [bump]. *)
Definition absorb (s : option (gset string)) (row : Config.row) : gset string :=
  match patient row with
  | Some e => Set_add e (default ∅ s)
  | None => default ∅ s
  end.

Definition tally (c : option nat) (row : Config.row) : nat := default 0 c + 1.

Section Keys.
Context `{Host}.

(** The key each loop files a row under; [None] when it skips the row. *)
Definition sex_key (row : Config.row) : option string :=
  Some (ToString (or_else (SEX row) (Str "Unknown"))).

Definition finding_key (row : Config.row) : option string :=
  if truthy (FINDINGS row) then Some (ToString (FINDINGS row)) else None.

Definition month_key (row : Config.row) : option string :=
  match DATE row with
  | NoDate => None
  | ADate date => Some (formatMonthKey date)
  end.

Definition day_key (row : Config.row) : option string :=
  match DATE row with
  | NoDate => None
  | ADate date => formatDateKey date
  end.

End Keys.

(** The rows that are the first of their patient, in order: what the
    loops guarded by [seen] act on. *)
Fixpoint first_visits_from (seen : gset string) (data : list Config.row)
  : list Config.row :=
  match data with
  | [] => []
  | row :: rest =>
      match first_visit seen row with
      | Some employee => row :: first_visits_from (Set_add employee seen) rest
      | None => first_visits_from seen rest
      end
  end.

Definition first_visits (data : list Config.row) : list Config.row :=
  first_visits_from ∅ data.

Definition bracket_key (row : Config.row) : option string :=
  Some (categorizeAgeBracket (AGE row)).

(** The number of rows whose age falls in bracket [b] *)
Definition in_bracket (b : string) (rows : list Config.row) : nat :=
  List.length (rows_of bracket_key b rows).

(** The brackets as the specification words them: a name and the least
    and greatest whole age it holds, [None] for no bound. *)
Definition bracket_table : list (string * option Z * option Z) :=
  [ ("<18", None, Some 17); ("18-24", Some 18, Some 24);
    ("25-34", Some 25, Some 34); ("35-44", Some 35, Some 44);
    ("45-54", Some 45, Some 54); ("55-64", Some 55, Some 64);
    ("65-74", Some 65, Some 74); ("75-84", Some 75, Some 84);
    ("85+", Some 85, None) ]%Z.

Definition within (lo hi : option Z) (n : Z) : Prop :=
  match lo with Some l => (l <= n)%Z | None => True end /\
  match hi with Some h => (n <= h)%Z | None => True end.

(** No key of the loop is a property name that plain objects inherit:
    the inputs on which a dictionary models the loop's object exactly. *)
Definition plain_keys `{Host} (kf : Config.row -> option string)
  (data : list Config.row) : Prop :=
  Forall (fun row => forall k, kf row = Some k -> own_key k = true) data.

(** No row carries an Invalid Date object. *)
Definition dates_valid (data : list Config.row) : Prop :=
  Forall (fun row => DATE row <> ADate None) data.

(** *** The other roll-ups *)

Section MoreKeys.
Context `{Host}.

Definition company_key (row : Config.row) : option string :=
  if truthy (COMPANY row) then Some (ToString (COMPANY row)) else None.

Definition purpose_key (row : Config.row) : option string :=
  if truthy (PURPOSE row) then Some (ToString (PURPOSE row)) else None.

Definition icd_key (row : Config.row) : option string :=
  Some (ToString (or_else (ICD row) (Str "No ICD"))).

Definition label_key (row : Config.row) : option string :=
  Some (ToString (or_else (LABEL row) (Str "Unclassified"))).

Definition weekday_key (row : Config.row) : option string :=
  match DATE row with
  | NoDate => None
  | ADate date => Some (weekday_of date)
  end.

End MoreKeys.

(** The record has a date cell ([row[COLUMNS.DATE]] is truthy). *)
Definition dated (row : Config.row) : bool :=
  match DATE row with NoDate => false | ADate _ => true end.

(** What [getDailyStats] keeps under a day: the records so far plus one,
    and the patients as [absorb] collects them. *)
Definition record (s : option (nat * gset string)) (row : Config.row)
  : nat * gset string :=
  (default 0 (option_map fst s) + 1, absorb (option_map snd s) row).

(** The page with both date inputs emptied, and the page with the
    companies [chosen] in the company multiselect. *)
Definition no_date_range (u : Filters.ui) : Filters.ui :=
  {| Filters.companyFilter := Filters.companyFilter u;
     Filters.purposeFilter := Filters.purposeFilter u;
     Filters.monthFilter := Filters.monthFilter u;
     Filters.sexFilter := Filters.sexFilter u;
     Filters.labelFilter := Filters.labelFilter u;
     Filters.findingsFilter := Filters.findingsFilter u;
     Filters.dateStart_value := None;
     Filters.dateEnd_value := None;
     Filters.ageMin_value := Filters.ageMin_value u;
     Filters.ageMax_value := Filters.ageMax_value u;
     Filters.ageMin_slider := Filters.ageMin_slider u;
     Filters.ageMax_slider := Filters.ageMax_slider u |}.

Definition choose_companies (chosen : list string) (u : Filters.ui) : Filters.ui :=
  {| Filters.companyFilter := chosen;
     Filters.purposeFilter := Filters.purposeFilter u;
     Filters.monthFilter := Filters.monthFilter u;
     Filters.sexFilter := Filters.sexFilter u;
     Filters.labelFilter := Filters.labelFilter u;
     Filters.findingsFilter := Filters.findingsFilter u;
     Filters.dateStart_value := Filters.dateStart_value u;
     Filters.dateEnd_value := Filters.dateEnd_value u;
     Filters.ageMin_value := Filters.ageMin_value u;
     Filters.ageMax_value := Filters.ageMax_value u;
     Filters.ageMin_slider := Filters.ageMin_slider u;
     Filters.ageMax_slider := Filters.ageMax_slider u |}.

(** *** The age sliders *)

(** [String] prints a whole number that a double holds exactly, one of
    at most 2^53 in magnitude, by its decimal digits. *)
Definition prints_integers `{Host} : Prop :=
  forall z, (Z.abs z <= 2 ^ 53)%Z -> Number_toString (of_Z z) = Z_toString z.

(** A finite age whose floor and ceiling are such whole numbers. *)
Definition safe_age (n : number) : Prop :=
  match n with
  | Fin q => (- 2 ^ 53 <= Qfloor q)%Z /\ (Qceiling q <= 2 ^ 53)%Z
  | _ => False
  end.

Definition finite_ages (data : list Config.row) : Prop :=
  Forall safe_age (numeric_ages data).

(** The slider can rest on every whole number from its minimum on: its
    step is 1, or any. *)
Definition whole_steps (s : Filters.slider) : Prop :=
  match Filters.step_attr s with
  | Some q => q == 1
  | None => True
  end.

(** Every upload among the events that a parser accepts brings
    records with finite ages. *)
Definition loads_finite_ages `{Host} `{DataLoader.Parsers}
  (events : list App.event) : Prop :=
  Forall (fun e =>
            match e with
            | App.FileChosen (Some file) =>
                match snd (DataLoader.parseFile file) with
                | DataLoader.Resolved data => finite_ages data
                | DataLoader.Rejected _ => True
                end
            | _ => True
            end) events.

(** What holds of a session between two events: the view is the
    filtered data; the [ageMax] slider can rest on every whole number;
    and clearing would show all the data. *)
Definition steady `{Host} (s : App.session) : Prop :=
  let a := App.application s in
  App.filteredData a = Filters.applyFilters (App.filters a) (App.fullData a) /\
  whole_steps (Filters.ageMax_slider (App.filters a)) /\
  (forall u,
     Filters.ageMin_slider u = Filters.ageMin_slider (App.filters a) ->
     Filters.ageMax_slider u = Filters.ageMax_slider (App.filters a) ->
     Filters.applyFilters (Filters.clearFilters (App.originalRanges s) u)
       (App.fullData a) = App.fullData a).

(** An object with [f] applied to each of its values. *)
Definition on_values {V W} (f : V -> W) (o : obj V) : obj W :=
  map (fun e => (fst e, f (snd e))) o.

(** Descending counts; among equal counts, the order [E] of the keys. *)
Definition ranked (E : string -> string -> Prop) (a b : string * nat) : Prop :=
  snd b < snd a \/ (snd a = snd b /\ E (fst a) (fst b)).

(** The place of a month's name in the calendar, 12 for any other text. *)
Definition month_rank `{Filters.Collation} (s : string) : Z :=
  default 12%Z (Filters.indexOf Filters.monthOrder (Filters.toUpperCase s)).

(** The text a table cell shows. *)
Definition shown (c : ChartToolbar.cell) : string :=
  match c with
  | ChartToolbar.Text s => s
  | ChartToolbar.Count n => digits n
  end.

(** What [iso_midnight] makes of the fields of a date once the sign
    and the width of the year are known. *)
Definition iso_fields (sign : Z) (body : string) (w : nat) : option Z :=
  if negb (Nat.eqb (String.length body) (w + 6)) then None else
  if negb (String.eqb (substring w 1 body) "-"
           && String.eqb (substring (w + 3) 1 body) "-") then None else
  match parse_digits (substring 0 w body),
        parse_digits (substring (w + 1) 2 body),
        parse_digits (substring (w + 4) 2 body) with
  | Some y, Some m, Some d =>
      let y := (sign * Z.of_N y)%Z in
      let days := days_from_civil y (Z.of_N m) (Z.of_N d) in
      if (sign =? -1)%Z && (y =? 0)%Z then None
      else if negb ((1 <=? Z.of_N m)%Z && (Z.of_N m <=? 12)%Z) then None
      else match civil_from_days days with
           | (y', m', d') =>
               if (y' =? y)%Z && (m' =? Z.of_N m)%Z && (d' =? Z.of_N d)%Z
               then Some (days * msPerDay)%Z else None
           end
  | _, _, _ => None
  end.

(** The date part of [toISOString]: what [formatDateKey] answers. *)
Definition iso_date (t : Z) : string :=
  let y := YearFromTime t in
  let year :=
    if (0 <=? y)%Z && (y <=? 9999)%Z then pad 4 y
    else ((if Z.ltb y 0 then "-" else "+") ++ pad 6 (Z.abs y))%string in
  (year ++ "-" ++ pad 2 (MonthFromTime t + 1) ++ "-" ++ pad 2 (DateFromTime t))%string.

(** The ten digits. *)
Definition digit_chars : list ascii :=
  ["0"; "1"; "2"; "3"; "4"; "5"; "6"; "7"; "8"; "9"]%char.

(** What may follow a field on a line of the table: nothing, or a comma
    and more; a text written without quotes; and what follows the first
    field of the line of a row. *)
Definition follows (t : string) : Prop :=
  t = EmptyString \/ exists t', t = String ChartToolbar.comma t'.

Definition plain (s : string) : Prop :=
  ChartToolbar.has ChartToolbar.comma s = false /\
  ChartToolbar.has ChartToolbar.quote s = false.

Definition rest_of (row : list ChartToolbar.cell) : string :=
  match row with
  | [] => EmptyString
  | _ :: _ => String ChartToolbar.comma (ChartToolbar.line row)
  end.

End Spec.

(** ** Concrete inputs *)

Module Examples.
Import JS JSDate Config.

(** A host eight hours ahead of UTC.  It prints and reads whole numbers
    the way JavaScript does those below 10^21; the examples print no
    fraction, no greater number and no date, and read no other
    number. *)
Definition manila : Host := {|
  LocalTZA := 28800000;
  Number_toString := fun n =>
    match n with
    | NaN => "NaN"
    | PosInf => "Infinity"
    | NegInf => "-Infinity"
    | Fin q => Z_toString (Qfloor q)
    end;
  Date_toString := fun tv =>
    match tv with Some t => toISOString t | None => "Invalid Date" end;
  Date_parse_other := fun _ => None;
  parseFloat := fun s =>
    match parse_digits s with Some n => of_Z (Z.of_N n) | None => NaN end
|}.

(** A row with every cell missing. *)
Definition blank : row :=
  {| DATE := NoDate; PURPOSE := Undefined; EMPLOYEE := None; SEX := Undefined;
     COMPANY := Undefined; MONTH := Undefined; AGE := AgeUndefined;
     FINDINGS := Undefined; ICD := Undefined; LABEL := Undefined |}.

(** [{date, employee, age, company, finding}], the date being what
    [new Date] makes of the ISO text. *)
Definition visit (date employee : string) (age : Z) (company finding : string) : row :=
  {| DATE := ADate (parse_iso_date date); PURPOSE := Undefined;
     EMPLOYEE := Some employee; SEX := Undefined; COMPANY := Str company;
     MONTH := Undefined; AGE := AgeNum (of_Z age); FINDINGS := Str finding;
     ICD := Undefined; LABEL := Undefined |}.

(** The three records of the specification's scenario. *)
Definition scenario : list row :=
  [ visit "2024-01-05" "E1" 30 "A" "F1";
    visit "2024-01-05" "E1" 30 "A" "F2";
    visit "2024-02-10" "E2" 70 "B" "F1" ].

(** The same three records as a parser hands them over, before
    [processData]: the date still text. *)
Definition parsed_visit (date employee : string) (age : Z) (company finding : string)
  : DataLoader.parsed_row :=
  {| DataLoader.cell_DATE := Str date;
     DataLoader.cell_PURPOSE := Undefined;
     DataLoader.cell_EMPLOYEE := Str employee;
     DataLoader.cell_SEX := Undefined;
     DataLoader.cell_COMPANY := Str company;
     DataLoader.cell_MONTH := Undefined;
     DataLoader.cell_AGE := Number (of_Z age);
     DataLoader.cell_FINDINGS := Str finding;
     DataLoader.cell_ICD := Undefined;
     DataLoader.cell_LABEL := Undefined;
     DataLoader.other_cells := [] |}.

Definition parsed_scenario : list DataLoader.parsed_row :=
  [ parsed_visit "2024-01-05" "E1" 30 "A" "F1";
    parsed_visit "2024-01-05" "E1" 30 "A" "F2";
    parsed_visit "2024-02-10" "E2" 70 "B" "F1" ].

(** A visit with a sex and a patient number. *)
Definition patient_of_sex (sex employee : string) : row :=
  {| DATE := NoDate; PURPOSE := Undefined; EMPLOYEE := Some employee;
     SEX := Str sex; COMPANY := Undefined; MONTH := Undefined;
     AGE := AgeUndefined; FINDINGS := Undefined; ICD := Undefined;
     LABEL := Undefined |}.

Definition one_man_two_women : list row :=
  [ patient_of_sex "M" "E1"; patient_of_sex "F" "E2"; patient_of_sex "F" "E3" ].

(** A finding with nothing else. *)
Definition finding_only (finding : string) : row :=
  {| DATE := NoDate; PURPOSE := Undefined; EMPLOYEE := None; SEX := Undefined;
     COMPANY := Undefined; MONTH := Undefined; AGE := AgeUndefined;
     FINDINGS := Str finding; ICD := Undefined; LABEL := Undefined |}.

(** A dated visit whose patient number is the empty string. *)
Definition anonymous_visit (date : string) : row :=
  {| DATE := ADate (parse_iso_date date); PURPOSE := Undefined;
     EMPLOYEE := Some ""; SEX := Undefined; COMPANY := Undefined;
     MONTH := Undefined; AGE := AgeUndefined; FINDINGS := Undefined;
     ICD := Undefined; LABEL := Undefined |}.

(** A slider whose markup gives it no attribute: from 0 to 100 by
    steps of 1. *)
Definition plain_slider : Filters.slider :=
  {| Filters.min_attr := None; Filters.max_attr := None;
     Filters.step_attr := Some 1%Q; Filters.value_attr := None |}.

(** A visit whose date cell holds an Invalid Date object, as a
    spreadsheet parser may hand one over. *)
Definition invalid_date_visit (employee : string) : row :=
  {| DATE := ADate None; PURPOSE := Undefined;
     EMPLOYEE := Some employee; SEX := Undefined; COMPANY := Undefined;
     MONTH := Undefined; AGE := AgeUndefined; FINDINGS := Undefined;
     ICD := Undefined; LABEL := Undefined |}.

(** The page with nothing selected, the date range set to January 2024
    and the sliders on 0 and 100. *)
Definition january : Filters.ui :=
  {| Filters.companyFilter := []; Filters.purposeFilter := [];
     Filters.monthFilter := []; Filters.sexFilter := [];
     Filters.labelFilter := []; Filters.findingsFilter := [];
     Filters.dateStart_value := Some (2024, 1, 1)%Z;
     Filters.dateEnd_value := Some (2024, 1, 31)%Z;
     Filters.ageMin_value := of_Z 0;
     Filters.ageMax_value := of_Z 100;
     Filters.ageMin_slider := plain_slider;
     Filters.ageMax_slider := plain_slider |}.

(** The page with the year 50 typed into both date inputs. *)
Definition year_fifty : Filters.ui :=
  {| Filters.companyFilter := []; Filters.purposeFilter := [];
     Filters.monthFilter := []; Filters.sexFilter := [];
     Filters.labelFilter := []; Filters.findingsFilter := [];
     Filters.dateStart_value := Some (50, 1, 1)%Z;
     Filters.dateEnd_value := Some (50, 12, 31)%Z;
     Filters.ageMin_value := of_Z 0;
     Filters.ageMax_value := of_Z 100;
     Filters.ageMin_slider := plain_slider;
     Filters.ageMax_slider := plain_slider |}.

(** A host five hours behind UTC, otherwise like the first. *)
Definition new_york : Host := {|
  LocalTZA := -18000000;
  Number_toString := Number_toString (Host := manila);
  Date_toString := Date_toString (Host := manila);
  Date_parse_other := Date_parse_other (Host := manila);
  parseFloat := parseFloat (Host := manila)
|}.

(** The page with the last day of [Date]'s range, 275760-09-13, typed
    into both date inputs. *)
Definition last_day : Filters.ui :=
  {| Filters.companyFilter := []; Filters.purposeFilter := [];
     Filters.monthFilter := []; Filters.sexFilter := [];
     Filters.labelFilter := []; Filters.findingsFilter := [];
     Filters.dateStart_value := Some (275760, 9, 13)%Z;
     Filters.dateEnd_value := Some (275760, 9, 13)%Z;
     Filters.ageMin_value := of_Z 0;
     Filters.ageMax_value := of_Z 100;
     Filters.ageMin_slider := plain_slider;
     Filters.ageMax_slider := plain_slider |}.





(** An upload whose name ends in an extension no parser takes. *)
Definition report_pdf : DataLoader.File :=
  {| DataLoader.name := "visits.2024.PDF"; DataLoader.bytes := [] |}.

(** Parsers that would accept anything. *)
Definition eager_parsers : DataLoader.Parsers :=
  {| DataLoader.Papa_parse := fun _ => DataLoader.Resolved [];
     DataLoader.readAsArrayBuffer := fun file => Some (DataLoader.bytes file);
     DataLoader.XLSX_sheet_to_json := fun _ => DataLoader.Resolved [] |}.

(** Parsers that read the scenario from every file. *)
Definition scenario_parsers : DataLoader.Parsers :=
  {| DataLoader.Papa_parse := fun _ => DataLoader.Resolved parsed_scenario;
     DataLoader.readAsArrayBuffer := fun file => Some (DataLoader.bytes file);
     DataLoader.XLSX_sheet_to_json := fun _ => DataLoader.Resolved parsed_scenario |}.

(** The dashboard with the scenario loaded. *)
Definition loaded_app : App.app :=
  {| App.fullData := scenario; App.filteredData := scenario;
     App.fileLabel := "visits.csv"; App.fileStatus := App.Loaded 3;
     App.filters := january; App.dashboardShown := true |}.

(** A visit with a purpose, an ICD code and a diagnosis label. *)
Definition coded_visit (employee purpose icd label : string) : row :=
  {| DATE := NoDate; PURPOSE := Str purpose; EMPLOYEE := Some employee;
     SEX := Undefined; COMPANY := Undefined; MONTH := Undefined;
     AGE := AgeUndefined; FINDINGS := Undefined; ICD := Str icd;
     LABEL := Str label |}.

(** Two consultations with a code and a follow-up without. *)
Definition coded : list row :=
  [ coded_visit "E1" "Consult" "J00" "Respiratory";
    coded_visit "E2" "Consult" "J00" "Respiratory";
    coded_visit "E1" "Follow-up" "" "" ].

(** A host whose strings are compared byte by byte and whose
    [toUpperCase] changes the letters a to z. *)
Definition upper_ascii (c : ascii) : ascii :=
  let n := nat_of_ascii c in
  if (97 <=? n)%nat && (n <=? 122)%nat then ascii_of_nat (n - 32) else c.

Fixpoint upper (s : string) : string :=
  match s with
  | EmptyString => EmptyString
  | String c s' => String (upper_ascii c) (upper s')
  end.

Definition bytewise : Filters.Collation :=
  {| Filters.default_compare := fun a b =>
       match String.compare a b with Lt => (-1)%Z | Eq => 0%Z | Gt => 1%Z end;
     Filters.toUpperCase := upper;
     Filters.localeCompare := fun a b =>
       match String.compare a b with Lt => (-1)%Z | Eq => 0%Z | Gt => 1%Z end |}.

(** The page with only a start date. *)
Definition from_february : Filters.ui :=
  {| Filters.companyFilter := []; Filters.purposeFilter := [];
     Filters.monthFilter := []; Filters.sexFilter := [];
     Filters.labelFilter := []; Filters.findingsFilter := [];
     Filters.dateStart_value := Some (2024, 2, 1)%Z;
     Filters.dateEnd_value := None;
     Filters.ageMin_value := of_Z 0;
     Filters.ageMax_value := of_Z 100;
     Filters.ageMin_slider := plain_slider;
     Filters.ageMax_slider := plain_slider |}.

(** An upload named in capitals, with a dot in the base name. *)
Definition visits_csv : DataLoader.File :=
  {| DataLoader.name := "Visits.2024.CSV"; DataLoader.bytes := [] |}.

(** A session: an upload, a start date typed in, the clear button. *)
Definition upload_edit_clear : list App.event :=
  [ App.FileChosen (Some visits_csv); App.FiltersEdited from_february;
    App.ClearPressed ].

End Examples.

(** ** Strings and decimal digits *)

Module StringFacts.
Import JS ChartToolbar Spec.

Lemma append_nil (t : string) : (EmptyString ++ t)%string = t.
Proof. reflexivity. Qed.

Lemma append_cons c (s t : string) : (String c s ++ t)%string = String c (s ++ t).
Proof. reflexivity. Qed.

Lemma string_app_assoc (a b c : string) : ((a ++ b) ++ c = a ++ (b ++ c))%string.
Proof.
  induction a as [|x a IH]; [reflexivity|]. now rewrite !append_cons, IH.
Qed.

Lemma append_length (a b : string) :
  String.length (a ++ b) = String.length a + String.length b.
Proof.
  induction a as [|x a IH]; [reflexivity|].
  rewrite append_cons. cbn [String.length]. now rewrite IH.
Qed.

Lemma has_append c (a b : string) : has c (a ++ b) = has c a || has c b.
Proof.
  induction a as [|x a IH]; [reflexivity|].
  rewrite append_cons. cbn [has]. now rewrite IH, orb_assoc.
Qed.

(** *** [split] *)

Lemma split_never_empty sep s : split sep s <> [].
Proof.
  destruct s as [|c s]; simpl; [discriminate|].
  destruct (Ascii.eqb c sep); [discriminate|].
  destruct (split sep s); discriminate.
Qed.

Lemma split_app sep (a b : string) :
  split sep (a ++ String sep b) = split sep a ++ split sep b.
Proof.
  induction a as [|c a IH].
  - rewrite append_nil. cbn [split]. now rewrite Ascii.eqb_refl.
  - rewrite append_cons. cbn [split]. destruct (Ascii.eqb c sep); [now rewrite IH|].
    rewrite IH. destruct (split sep a) as [|w ws] eqn:Hs; [|reflexivity].
    now apply split_never_empty in Hs.
Qed.

Lemma split_whole sep s : has sep s = false -> split sep s = [s].
Proof.
  induction s as [|c s IH]; simpl; [reflexivity|].
  intros [Hc Hs]%orb_false_iff. rewrite Hc, (IH Hs). reflexivity.
Qed.

Lemma head_split sep (a b : string) :
  has sep a = false -> head (split sep (a ++ String sep b)) = Some a.
Proof. intros Ha. now rewrite split_app, (split_whole sep a Ha). Qed.

(** *** [substring] *)

Lemma substring_none n (s : string) : substring n 0 s = EmptyString.
Proof. revert n. induction s as [|c s IH]; intros [|n]; simpl; auto. Qed.

Lemma substring_take (a b : string) : substring 0 (String.length a) (a ++ b) = a.
Proof.
  induction a as [|c a IH].
  - rewrite append_nil. apply substring_none.
  - rewrite append_cons. cbn [String.length substring]. now rewrite IH.
Qed.

Lemma substring_all (a : string) : substring 0 (String.length a) a = a.
Proof. induction a as [|c a IH]; [reflexivity|]. cbn. now rewrite IH. Qed.

Lemma substring_skip (a b : string) n m :
  substring (String.length a + n) m (a ++ b) = substring n m b.
Proof.
  induction a as [|c a IH]; [reflexivity|].
  rewrite append_cons. cbn [String.length Nat.add substring]. exact IH.
Qed.

(** *** Decimal digits *)

Lemma string_of_uint_chars d c :
  ~ In c digit_chars -> has c (NilEmpty.string_of_uint d) = false.
Proof.
  intros Hc. induction d; cbn [NilEmpty.string_of_uint has]; [reflexivity|..];
    rewrite IHd, orb_false_r; apply Ascii.eqb_neq; intros <-; apply Hc;
    unfold digit_chars; simpl; tauto.
Qed.

Lemma has_zeros c k : c <> "0"%char -> has c (repeat_zero k) = false.
Proof.
  intros Hc. induction k as [|k IH]; [reflexivity|].
  cbn [repeat_zero has]. rewrite IH, orb_false_r. apply Ascii.eqb_neq. congruence.
Qed.

Lemma has_padded_digits c w n :
  ~ In c digit_chars -> has c (padStart0 w (digits n)) = false.
Proof.
  intros Hc. unfold padStart0, digits. rewrite has_append.
  rewrite string_of_uint_chars by assumption.
  rewrite has_zeros; [reflexivity|]. intros ->. apply Hc. now left.
Qed.

Lemma uint_of_string_zeros k s :
  NilEmpty.uint_of_string (repeat_zero k ++ s)
  = option_map (Nat.iter k Decimal.D0) (NilEmpty.uint_of_string s).
Proof.
  induction k as [|k IH].
  - cbn [repeat_zero]. rewrite append_nil. now destruct (NilEmpty.uint_of_string s).
  - cbn [repeat_zero]. rewrite append_cons. cbn [NilEmpty.uint_of_string].
    rewrite IH. now destruct (NilEmpty.uint_of_string s).
Qed.

Lemma of_uint_zeros k d : N.of_uint (Nat.iter k Decimal.D0 d) = N.of_uint d.
Proof. induction k as [|k IH]; [reflexivity|exact IH]. Qed.

Lemma digits_not_empty n : digits n <> EmptyString.
Proof.
  unfold digits. intros He.
  assert (Hu : NilEmpty.uint_of_string (NilEmpty.string_of_uint (N.to_uint n))
               = Some Decimal.Nil) by now rewrite He.
  rewrite NilEmpty.usu in Hu. injection Hu as Hu.
  now destruct n as [|p]; [|apply (DecimalPos.Unsigned.to_uint_nonnil p)].
Qed.

(** Padding with zeros does not change the number read back. *)
Lemma parse_digits_padded w n : parse_digits (padStart0 w (digits n)) = Some n.
Proof.
  unfold parse_digits, padStart0.
  destruct (repeat_zero _ ++ digits n)%string eqn:Hs.
  - exfalso. destruct (repeat_zero _); [|discriminate].
    rewrite append_nil in Hs. now apply digits_not_empty in Hs.
  - rewrite <- Hs, uint_of_string_zeros. unfold digits. rewrite NilEmpty.usu.
    cbn [option_map]. now rewrite of_uint_zeros, DecimalN.Unsigned.of_to.
Qed.

Lemma padded_length w s :
  String.length s <= w -> String.length (padStart0 w s) = w.
Proof.
  intros Hs. unfold padStart0. rewrite append_length.
  assert (Hz : forall k, String.length (repeat_zero k) = k)
    by (induction k as [|k IH]; [reflexivity|cbn; now rewrite IH]).
  rewrite Hz. lia.
Qed.

(** *** How many digits a number has *)

Lemma string_of_uint_length d :
  String.length (NilEmpty.string_of_uint d) = Decimal.nb_digits d.
Proof. induction d; simpl; congruence. Qed.

Lemma of_uint_acc_bounds l acc :
  (Z.pos acc * 10 ^ Z.of_nat (Decimal.nb_digits l) <= Z.pos (Pos.of_uint_acc l acc)
   < (Z.pos acc + 1) * 10 ^ Z.of_nat (Decimal.nb_digits l))%Z.
Proof.
  revert acc. induction l as [|l IH|l IH|l IH|l IH|l IH|l IH|l IH|l IH|l IH|l IH];
    intros acc; cbn [Pos.of_uint_acc Decimal.nb_digits];
    [rewrite Z.pow_0_r; lia|..];
    rewrite Nat2Z.inj_succ, Z.pow_succ_r by lia;
    match goal with
    | |- context [Pos.of_uint_acc l ?a] => specialize (IH a)
    end;
    assert (0 < 10 ^ Z.of_nat (Decimal.nb_digits l))%Z by (apply Z.pow_pos_nonneg; lia);
    nia.
Qed.

Lemma to_uint_normal n : Decimal.unorm (N.to_uint n) = N.to_uint n.
Proof.
  rewrite <- DecimalN.Unsigned.to_of. now rewrite DecimalN.Unsigned.of_to.
Qed.

(** A positive number with [k] digits lies from [10^(k-1)] up to, not
    including, [10^k]. *)
Lemma digits_size n :
  (0 < n)%N ->
  (10 ^ (Z.of_nat (String.length (digits n)) - 1) <= Z.of_N n
   < 10 ^ Z.of_nat (String.length (digits n)))%Z.
Proof.
  intros Hn. unfold digits. rewrite string_of_uint_length.
  pose proof (to_uint_normal n) as Hnorm.
  pose proof (DecimalN.Unsigned.of_to n) as Hof.
  destruct (N.to_uint n) as [|l|l|l|l|l|l|l|l|l|l] eqn:Hd.
  - discriminate Hnorm.
  - exfalso. destruct l as [|? | ? | ? | ? | ? | ? | ? | ? | ? | ?] eqn:Hl;
      [cbn in Hof; lia|..];
      rewrite DecimalFacts.unorm_D0 in Hnorm;
      match type of Hnorm with
      | Decimal.unorm ?u = _ =>
          pose proof (DecimalFacts.nb_digits_unorm u ltac:(discriminate)) as Hlen
      end;
      rewrite Hnorm in Hlen; cbn [Decimal.nb_digits] in Hlen; lia.
  - pose proof (of_uint_acc_bounds l 1) as Hb. cbn [Decimal.nb_digits].
    rewrite Nat2Z.inj_succ. replace (Z.succ (Z.of_nat (Decimal.nb_digits l)) - 1)%Z
      with (Z.of_nat (Decimal.nb_digits l)) by lia.
    rewrite Z.pow_succ_r by lia. subst n. cbn [N.of_uint Pos.of_uint Z.of_N].
    assert (0 < 10 ^ Z.of_nat (Decimal.nb_digits l))%Z by (apply Z.pow_pos_nonneg; lia).
    nia.
  - pose proof (of_uint_acc_bounds l 2) as Hb. cbn [Decimal.nb_digits].
    rewrite Nat2Z.inj_succ. replace (Z.succ (Z.of_nat (Decimal.nb_digits l)) - 1)%Z
      with (Z.of_nat (Decimal.nb_digits l)) by lia.
    rewrite Z.pow_succ_r by lia. subst n. cbn [N.of_uint Pos.of_uint Z.of_N].
    assert (0 < 10 ^ Z.of_nat (Decimal.nb_digits l))%Z by (apply Z.pow_pos_nonneg; lia).
    nia.
  - pose proof (of_uint_acc_bounds l 3) as Hb. cbn [Decimal.nb_digits].
    rewrite Nat2Z.inj_succ. replace (Z.succ (Z.of_nat (Decimal.nb_digits l)) - 1)%Z
      with (Z.of_nat (Decimal.nb_digits l)) by lia.
    rewrite Z.pow_succ_r by lia. subst n. cbn [N.of_uint Pos.of_uint Z.of_N].
    assert (0 < 10 ^ Z.of_nat (Decimal.nb_digits l))%Z by (apply Z.pow_pos_nonneg; lia).
    nia.
  - pose proof (of_uint_acc_bounds l 4) as Hb. cbn [Decimal.nb_digits].
    rewrite Nat2Z.inj_succ. replace (Z.succ (Z.of_nat (Decimal.nb_digits l)) - 1)%Z
      with (Z.of_nat (Decimal.nb_digits l)) by lia.
    rewrite Z.pow_succ_r by lia. subst n. cbn [N.of_uint Pos.of_uint Z.of_N].
    assert (0 < 10 ^ Z.of_nat (Decimal.nb_digits l))%Z by (apply Z.pow_pos_nonneg; lia).
    nia.
  - pose proof (of_uint_acc_bounds l 5) as Hb. cbn [Decimal.nb_digits].
    rewrite Nat2Z.inj_succ. replace (Z.succ (Z.of_nat (Decimal.nb_digits l)) - 1)%Z
      with (Z.of_nat (Decimal.nb_digits l)) by lia.
    rewrite Z.pow_succ_r by lia. subst n. cbn [N.of_uint Pos.of_uint Z.of_N].
    assert (0 < 10 ^ Z.of_nat (Decimal.nb_digits l))%Z by (apply Z.pow_pos_nonneg; lia).
    nia.
  - pose proof (of_uint_acc_bounds l 6) as Hb. cbn [Decimal.nb_digits].
    rewrite Nat2Z.inj_succ. replace (Z.succ (Z.of_nat (Decimal.nb_digits l)) - 1)%Z
      with (Z.of_nat (Decimal.nb_digits l)) by lia.
    rewrite Z.pow_succ_r by lia. subst n. cbn [N.of_uint Pos.of_uint Z.of_N].
    assert (0 < 10 ^ Z.of_nat (Decimal.nb_digits l))%Z by (apply Z.pow_pos_nonneg; lia).
    nia.
  - pose proof (of_uint_acc_bounds l 7) as Hb. cbn [Decimal.nb_digits].
    rewrite Nat2Z.inj_succ. replace (Z.succ (Z.of_nat (Decimal.nb_digits l)) - 1)%Z
      with (Z.of_nat (Decimal.nb_digits l)) by lia.
    rewrite Z.pow_succ_r by lia. subst n. cbn [N.of_uint Pos.of_uint Z.of_N].
    assert (0 < 10 ^ Z.of_nat (Decimal.nb_digits l))%Z by (apply Z.pow_pos_nonneg; lia).
    nia.
  - pose proof (of_uint_acc_bounds l 8) as Hb. cbn [Decimal.nb_digits].
    rewrite Nat2Z.inj_succ. replace (Z.succ (Z.of_nat (Decimal.nb_digits l)) - 1)%Z
      with (Z.of_nat (Decimal.nb_digits l)) by lia.
    rewrite Z.pow_succ_r by lia. subst n. cbn [N.of_uint Pos.of_uint Z.of_N].
    assert (0 < 10 ^ Z.of_nat (Decimal.nb_digits l))%Z by (apply Z.pow_pos_nonneg; lia).
    nia.
  - pose proof (of_uint_acc_bounds l 9) as Hb. cbn [Decimal.nb_digits].
    rewrite Nat2Z.inj_succ. replace (Z.succ (Z.of_nat (Decimal.nb_digits l)) - 1)%Z
      with (Z.of_nat (Decimal.nb_digits l)) by lia.
    rewrite Z.pow_succ_r by lia. subst n. cbn [N.of_uint Pos.of_uint Z.of_N].
    assert (0 < 10 ^ Z.of_nat (Decimal.nb_digits l))%Z by (apply Z.pow_pos_nonneg; lia).
    nia.
Qed.

Lemma digits_at_most n k :
  (0 < k)%nat -> (Z.of_N n < 10 ^ Z.of_nat k)%Z -> String.length (digits n) <= k.
Proof.
  intros Hk Hn. destruct (N.eq_dec n 0%N) as [->|Hpos]; [cbn; lia|].
  pose proof (digits_size n ltac:(lia)) as [Hlo _].
  destruct (le_lt_dec (String.length (digits n)) k) as [|Hgt]; [assumption|exfalso].
  assert (10 ^ Z.of_nat k <= 10 ^ (Z.of_nat (String.length (digits n)) - 1))%Z
    by (apply Z.pow_le_mono_r; lia).
  lia.
Qed.

(** The numbers below 10000 have at most four digits, those below 100
    at most two, and the numbers from 1000 on at least four. *)
Lemma digits_length n :
  (n < 10000)%N ->
  String.length (digits n) <= 4 /\
  ((n < 100)%N -> String.length (digits n) <= 2) /\
  ((1000 <= n)%N -> String.length (digits n) = 4).
Proof.
  intros Hn. destruct (N.eq_dec n 0%N) as [->|Hpos];
    [split; [cbn; lia|split; [cbn; lia|lia]]|].
  pose proof (digits_size n ltac:(lia)) as [Hlo Hhi].
  set (len := String.length (digits n)) in *.
  assert (H4 : len <= 4).
  { destruct (le_lt_dec len 4) as [|Hgt]; [assumption|exfalso].
    assert (10 ^ 4 <= 10 ^ (Z.of_nat len - 1))%Z by (apply Z.pow_le_mono_r; lia).
    lia. }
  split; [exact H4|]. split.
  - intros Hlt. destruct (le_lt_dec len 2) as [|Hgt]; [assumption|exfalso].
    assert (10 ^ 2 <= 10 ^ (Z.of_nat len - 1))%Z by (apply Z.pow_le_mono_r; lia).
    lia.
  - intros Hge. destruct (le_lt_dec 4 len) as [|Hlt]; [lia|exfalso].
    assert (10 ^ Z.of_nat len <= 10 ^ 3)%Z by (apply Z.pow_le_mono_r; lia).
    lia.
Qed.

End StringFacts.

(** ** [Array.prototype.sort] and [Object.entries] *)

Module SortFacts.
Import JS Spec.

Section Sorting.
Context {A : Type}.

Lemma insert_sorted_Permutation (cmp : A -> A -> Z) x l :
  Permutation (insert_sorted cmp x l) (x :: l).
Proof.
  induction l as [|y l IH]; simpl; [reflexivity|].
  destruct (cmp x y <=? 0)%Z; [reflexivity|].
  rewrite IH. apply perm_swap.
Qed.

Lemma sort_Permutation (cmp : A -> A -> Z) l : Permutation (sort cmp l) l.
Proof.
  induction l as [|x l IH]; simpl; [reflexivity|].
  unfold sort in *. simpl.
  rewrite insert_sorted_Permutation. now constructor.
Qed.

Lemma sort_ext (cmp cmp' : A -> A -> Z) l :
  (forall a b, cmp a b = cmp' a b) -> sort cmp l = sort cmp' l.
Proof.
  intros Hc. induction l as [|x l IH]; [reflexivity|].
  unfold sort in *. simpl. rewrite IH. clear IH.
  induction (fold_right (insert_sorted cmp') [] l) as [|y s IHs]; simpl; [reflexivity|].
  now rewrite Hc, IHs.
Qed.

Lemma slice0_firstn (n : Z) (l : list A) :
  (0 <= n)%Z -> slice0 n l = firstn (Z.to_nat n) l.
Proof.
  intros Hn. unfold slice0. destruct (Z.ltb_spec n 0); [lia|reflexivity].
Qed.

Lemma sort_In (cmp : A -> A -> Z) l x : In x (sort cmp l) <-> In x l.
Proof.
  split; apply Permutation_in; [|symmetry]; apply sort_Permutation.
Qed.

(** Sorting by a numeric key is stable: elements come out in
    ascending key order, and elements with equal keys keep the order
    [E] the input had. *)
Lemma insert_sorted_key_then (f : A -> Z) (E : A -> A -> Prop) x s :
  StronglySorted (key_then f E) s ->
  Forall (E x) s ->
  StronglySorted (key_then f E) (insert_sorted (fun a b => f a - f b)%Z x s).
Proof.
  induction s as [|y s IH]; intros Hs Hx; simpl.
  - repeat constructor.
  - apply StronglySorted_inv in Hs as [Hs Hy].
    apply Forall_cons_iff in Hx as [Hxy Hx].
    destruct (Z.leb_spec (f x - f y) 0) as [Hle|Hgt].
    + constructor; [constructor; assumption|].
      constructor.
      * unfold key_then. destruct (Z.eq_dec (f x) (f y)); [right|left]; auto with zarith.
      * rewrite List.Forall_forall in *. intros z Hz.
        specialize (Hy z Hz). specialize (Hx z Hz).
        unfold key_then in *. destruct Hy as [?|[? _]];
          destruct (Z.eq_dec (f x) (f z)); auto with zarith; left; lia.
    + constructor; [apply IH; assumption|].
      rewrite List.Forall_forall. intros z Hz.
      apply (Permutation_in _ (insert_sorted_Permutation _ x s)) in Hz.
      destruct Hz as [<-|Hz].
      * left. lia.
      * rewrite List.Forall_forall in Hy. auto.
Qed.

Lemma sort_key_then (f : A -> Z) (E : A -> A -> Prop) l :
  StronglySorted E l ->
  StronglySorted (key_then f E) (sort (fun a b => f a - f b)%Z l).
Proof.
  induction l as [|x l IH]; intros Hl; [constructor|].
  apply StronglySorted_inv in Hl as [Hl Hx].
  change (sort (fun a b => f a - f b)%Z (x :: l))
    with (insert_sorted (fun a b => f a - f b)%Z x (sort (fun a b => f a - f b)%Z l)).
  apply insert_sorted_key_then; [auto|].
  rewrite List.Forall_forall in *. intros z Hz. apply Hx.
  now apply sort_In in Hz.
Qed.

Lemma StronglySorted_weaken (R R' : A -> A -> Prop) l :
  (forall a b, In a l -> In b l -> R a b -> R' a b) ->
  StronglySorted R l -> StronglySorted R' l.
Proof.
  induction l as [|x l IH]; intros HR Hl; [constructor|].
  apply StronglySorted_inv in Hl as [Hl Hx].
  constructor.
  - apply IH; [|assumption]. intros a b Ha Hb. apply HR; now right.
  - rewrite List.Forall_forall in *. intros z Hz.
    apply HR; [now left|now right|auto].
Qed.

Lemma StronglySorted_filter (R : A -> A -> Prop) (p : A -> bool) l :
  StronglySorted R l -> StronglySorted R (List.filter p l).
Proof.
  induction 1 as [|x l Hl IH Hx]; simpl; [constructor|].
  destruct (p x); [|assumption].
  constructor; [assumption|].
  rewrite List.Forall_forall in *. intros z Hz.
  apply filter_In in Hz as [Hz _]. auto.
Qed.

Lemma StronglySorted_app (R : A -> A -> Prop) l1 l2 :
  StronglySorted R l1 -> StronglySorted R l2 ->
  (forall a b, In a l1 -> In b l2 -> R a b) ->
  StronglySorted R (l1 ++ l2).
Proof.
  induction l1 as [|x l1 IH]; intros H1 H2 H12; simpl; [assumption|].
  apply StronglySorted_inv in H1 as [H1 Hx].
  constructor.
  - apply IH; auto. intros a b Ha Hb. apply H12; [now right|assumption].
  - apply Forall_app. split; [assumption|].
    rewrite List.Forall_forall. intros z Hz. apply H12; [now left|assumption].
Qed.

Lemma In_firstn n (l : list A) x : In x (firstn n l) -> In x l.
Proof.
  intros Hx. rewrite <- (firstn_skipn n l). apply in_or_app. now left.
Qed.

Lemma StronglySorted_firstn (R : A -> A -> Prop) n l :
  StronglySorted R l -> StronglySorted R (firstn n l).
Proof.
  revert n. induction l as [|x l IH]; intros [|n] Hl; simpl; try constructor.
  - apply IH. now apply StronglySorted_inv in Hl.
  - apply StronglySorted_inv in Hl as [_ Hx].
    rewrite List.Forall_forall in *. intros z Hz.
    apply Hx. eapply In_firstn; eauto.
Qed.

End Sorting.

Lemma StronglySorted_map {A B} (f : A -> B) (R : B -> B -> Prop) l :
  StronglySorted (fun a b => R (f a) (f b)) l -> StronglySorted R (map f l).
Proof.
  induction 1 as [|x l Hl IH Hx]; simpl; constructor; [assumption|].
  rewrite List.Forall_forall in *. intros z Hz.
  apply in_map_iff in Hz as (a & <- & Ha). auto.
Qed.

End SortFacts.

(** ** Plain objects and the grouping loops *)

Module ObjFacts.
Import JS Spec.

Section Obj.
Context {V : Type}.
Implicit Types (o : obj V) (k : string) (v : V).

Lemma get_set o k k' v :
  get (set o k v) k' = if String.eqb k' k then Some v else get o k'.
Proof.
  induction o as [|[k0 v0] o IH]; simpl.
  - destruct (String.eqb_spec k' k); reflexivity.
  - destruct (String.eqb_spec k k0) as [->|Hk]; simpl.
    + destruct (String.eqb_spec k' k0); reflexivity.
    + rewrite IH. destruct (String.eqb_spec k' k0) as [->|Hk'].
      * destruct (String.eqb_spec k0 k); [congruence|reflexivity].
      * reflexivity.
Qed.

Lemma get_set_eq o k v : get (set o k v) k = Some v.
Proof. rewrite get_set, String.eqb_refl. reflexivity. Qed.

Lemma get_set_ne o k k' v : k' <> k -> get (set o k v) k' = get o k'.
Proof. intros Hk. rewrite get_set. now destruct (String.eqb_spec k' k). Qed.

Lemma set_set o k v v' : set (set o k v) k v' = set o k v'.
Proof.
  induction o as [|[k0 v0] o IH]; simpl.
  - now rewrite String.eqb_refl.
  - destruct (String.eqb_spec k k0) as [->|Hk]; simpl.
    + now rewrite String.eqb_refl.
    + destruct (String.eqb_spec k k0); [congruence|]. now rewrite IH.
Qed.

Lemma set_same o k v : get o k = Some v -> set o k v = o.
Proof.
  induction o as [|[k0 v0] o IH]; simpl; [discriminate|].
  destruct (String.eqb_spec k k0) as [->|Hk]; intros Hg.
  - congruence.
  - now rewrite IH.
Qed.

Lemma get_Some_In o k v : get o k = Some v -> In (k, v) o.
Proof.
  induction o as [|[k0 v0] o IH]; simpl; [discriminate|].
  destruct (String.eqb_spec k k0) as [->|Hk]; intros Hg.
  - left. congruence.
  - right. auto.
Qed.

Lemma get_None_keys o k : get o k = None <-> ~ In k (map fst o).
Proof.
  induction o as [|[k0 v0] o IH]; simpl; [tauto|].
  destruct (String.eqb_spec k k0) as [->|Hk].
  - split; [discriminate|]. intros Hn. exfalso. apply Hn. now left.
  - rewrite IH. split; [intros Hn [?|?]; [congruence|auto]|tauto].
Qed.

Lemma In_get o k v : List.NoDup (map fst o) -> In (k, v) o -> get o k = Some v.
Proof.
  induction o as [|[k0 v0] o IH]; simpl; [tauto|].
  intros Hnd [Heq|Hin]; apply List.NoDup_cons_iff in Hnd as [Hk0 Hnd].
  - inversion Heq; subst. now rewrite String.eqb_refl.
  - destruct (String.eqb_spec k k0) as [->|Hk]; [|auto].
    exfalso. apply Hk0. apply in_map_iff. now exists (k0, v).
Qed.

(** Keys after an assignment: unchanged for an existing key, one more
    at the end for a new one. *)
Lemma keys_set o k v :
  map fst (set o k v) =
  match get o k with Some _ => map fst o | None => map fst o ++ [k] end.
Proof.
  induction o as [|[k0 v0] o IH]; simpl; [reflexivity|].
  destruct (String.eqb_spec k k0) as [->|Hk]; simpl; [reflexivity|].
  rewrite IH. now destruct (get o k).
Qed.

End Obj.

Lemma first_before_snoc ks k a b :
  first_before ks a b -> first_before (ks ++ [k]) a b.
Proof.
  intros (l1 & l2 & -> & Hb). exists l1, (l2 ++ [k]).
  split; [|assumption]. now rewrite <- app_assoc.
Qed.

Lemma first_before_new ks k a :
  In a ks -> ~ In k ks -> first_before (ks ++ [k]) a k.
Proof.
  intros Ha Hk. apply in_split in Ha as (l1 & l2 & ->).
  exists l1, (l2 ++ [k]). split; [now rewrite <- app_assoc|].
  intros Hin. apply Hk. apply in_app_or in Hin as [Hin|[<-|[]]];
    apply in_or_app; [now left|right; now left].
Qed.

Lemma first_before_irrefl ks a : ~ first_before ks a a.
Proof.
  intros (l1 & l2 & _ & Hb). apply Hb. apply in_or_app. right. now left.
Qed.

Lemma StronglySorted_snoc {A} (R : A -> A -> Prop) l x :
  StronglySorted R l -> Forall (fun a => R a x) l -> StronglySorted R (l ++ [x]).
Proof.
  intros Hl Hx. apply SortFacts.StronglySorted_app; auto.
  - repeat constructor.
  - intros a b Ha [<-|[]]. rewrite List.Forall_forall in Hx. auto.
Qed.

(** The loops [data.forEach(row => { ...; o[k] = h(o[k], row) })]. *)
Section Group.
Context {R V : Type} (kf : R -> option string) (h : option V -> R -> V).
Local Abbreviation group := (group kf h).
Local Abbreviation group_step := (group_step kf h).
Local Abbreviation value_of := (value_of kf h).

Lemma group_snoc data row :
  group (data ++ [row]) = group_step (group data) row.
Proof. unfold group. now rewrite foldl_app. Qed.

Lemma value_of_snoc k data row :
  value_of k (data ++ [row]) =
  if bool_decide (kf row = Some k) then Some (h (value_of k data) row)
  else value_of k data.
Proof. unfold value_of. now rewrite foldl_app. Qed.

Lemma get_group k data : get (group data) k = value_of k data.
Proof.
  induction data as [|row data IH] using rev_ind; [reflexivity|].
  rewrite group_snoc, value_of_snoc. unfold group_step.
  destruct (kf row) as [k'|] eqn:Hk.
  - rewrite get_set. destruct (String.eqb_spec k k') as [->|Hne].
    + rewrite bool_decide_eq_true_2 by reflexivity. now rewrite IH.
    + rewrite bool_decide_eq_false_2 by congruence. exact IH.
  - rewrite bool_decide_eq_false_2 by congruence. exact IH.
Qed.

Lemma value_of_Some k data :
  is_Some (value_of k data) <-> In (Some k) (map kf data).
Proof.
  induction data as [|row data IH] using rev_ind.
  - simpl. split; [intros [? ?]; discriminate|tauto].
  - rewrite value_of_snoc, map_app, in_app_iff. simpl.
    destruct (bool_decide_reflect (kf row = Some k)) as [Hk|Hk].
    + split; [intros _; right; left; assumption|intros _; eauto].
    + rewrite IH. split; [tauto|]. intros [?|[?|[]]]; [assumption|contradiction].
Qed.

Lemma keys_group_In k data :
  In k (map fst (group data)) <-> In (Some k) (map kf data).
Proof.
  rewrite <- value_of_Some, <- get_group.
  destruct (get (group data) k) eqn:Hg.
  - split; [eauto|]. intros _.
    apply get_Some_In in Hg. apply in_map_iff. now exists (k, v).
  - apply get_None_keys in Hg. split; [tauto|]. intros [? ?]; discriminate.
Qed.

Lemma keys_group_NoDup data : List.NoDup (map fst (group data)).
Proof.
  induction data as [|row data IH] using rev_ind; [constructor|].
  rewrite group_snoc. unfold group_step. destruct (kf row) as [k|]; [|exact IH].
  rewrite keys_set. destruct (get (group data) k) eqn:Hg; [exact IH|].
  apply get_None_keys in Hg.
  apply List.NoDup_app; [assumption|repeat constructor; simpl; tauto|].
  intros x Hx [<-|[]]. now apply Hg.
Qed.

(** Keys are created in order of first appearance. *)
Lemma keys_group_order data :
  StronglySorted (first_before (omap kf data)) (map fst (group data)).
Proof.
  induction data as [|row data IH] using rev_ind; [constructor|].
  rewrite group_snoc, omap_app. unfold group_step. simpl.
  destruct (kf row) as [k|] eqn:Hk; simpl.
  - rewrite keys_set. destruct (get (group data) k) eqn:Hg.
    + eapply SortFacts.StronglySorted_weaken; [|exact IH].
      intros a b _ _. apply first_before_snoc.
    + apply StronglySorted_snoc.
      * eapply SortFacts.StronglySorted_weaken; [|exact IH].
        intros a b _ _. apply first_before_snoc.
      * rewrite List.Forall_forall. intros a Ha.
        assert (Hin : forall x, In x (omap kf data) <-> In (Some x) (map kf data)).
        { intros x. rewrite <- !list_elem_of_In, list_elem_of_omap, list_elem_of_fmap.
          split; [intros (r & ? & ?); eauto|intros (r & ? & ?); eauto]. }
        apply first_before_new.
        -- apply Hin. now apply keys_group_In.
        -- rewrite Hin, <- keys_group_In. now apply get_None_keys.
  - rewrite app_nil_r. exact IH.
Qed.

End Group.

End ObjFacts.

Module EntriesFacts.
Import JS Spec SortFacts ObjFacts.

Lemma array_index_digits k n : array_index k = Some n -> k = digits n.
Proof.
  unfold array_index. destruct (parse_digits k) as [m|]; [|discriminate].
  destruct (String.eqb_spec (digits m) k) as [<-|]; simpl; [|discriminate].
  destruct (m <? 4294967295)%N; [|discriminate].
  now intros [= ->].
Qed.

Lemma array_index_inj a b n :
  array_index a = Some n -> array_index b = Some n -> a = b.
Proof.
  intros Ha%array_index_digits Hb%array_index_digits. congruence.
Qed.

Lemma filter_split_Permutation {A} (p : A -> bool) l :
  Permutation (List.filter p l ++ List.filter (fun e => negb (p e)) l) l.
Proof.
  induction l as [|x l IH]; simpl; [reflexivity|].
  destruct (p x); simpl.
  - now constructor.
  - rewrite <- Permutation_middle. now constructor.
Qed.

Lemma StronglySorted_map_inv {A B} (f : A -> B) (R : B -> B -> Prop) l :
  StronglySorted R (map f l) -> StronglySorted (fun a b => R (f a) (f b)) l.
Proof.
  induction l as [|x l IH]; simpl; intros Hl; [constructor|].
  apply StronglySorted_inv in Hl as [Hl Hx].
  constructor; [auto|].
  rewrite List.Forall_forall in *. intros z Hz. apply Hx. now apply in_map.
Qed.

Section Entries.
Context {V : Type}.
Implicit Types o : obj V.

Lemma Object_entries_Permutation o : Permutation (Object_entries o) o.
Proof.
  unfold Object_entries. rewrite sort_Permutation. apply filter_split_Permutation.
Qed.

Lemma Object_entries_In o e : In e (Object_entries o) <-> In e o.
Proof.
  split; apply Permutation_in; [|symmetry]; apply Object_entries_Permutation.
Qed.

Lemma Object_entries_NoDup o :
  List.NoDup (map fst o) -> List.NoDup (map fst (Object_entries o)).
Proof.
  apply Permutation_NoDup. apply Permutation_map. symmetry.
  apply Object_entries_Permutation.
Qed.

Lemma distinct_keys_sorted o :
  List.NoDup (map fst o) -> StronglySorted (fun a b => fst a <> fst b) o.
Proof.
  induction o as [|x o IH]; simpl; intros Hnd; [constructor|].
  apply List.NoDup_cons_iff in Hnd as [Hx Hnd].
  constructor; [auto|].
  rewrite List.Forall_forall. intros z Hz Heq. apply Hx. rewrite Heq. now apply in_map.
Qed.

(** [Object.entries] lists array-index keys first, in ascending order,
    and then the other keys in the order the object acquired them. *)
Lemma Object_entries_order o ks :
  List.NoDup (map fst o) ->
  StronglySorted (fun a b => first_before ks (fst a) (fst b)) o ->
  StronglySorted (fun a b => enum_before ks (fst a) (fst b)) (Object_entries o).
Proof.
  intros Hnd Hord. unfold Object_entries.
  apply StronglySorted_app.
  - eapply StronglySorted_weaken;
      [|apply (sort_key_then index_of (fun a b => fst a <> fst b));
        apply StronglySorted_filter, distinct_keys_sorted, Hnd].
    intros a b Ha%sort_In Hb%sort_In.
    apply filter_In in Ha as [_ Ha]. apply filter_In in Hb as [_ Hb].
    unfold is_index, index_of, enum_before, key_then in *.
    destruct (array_index (fst a)) as [i|] eqn:Hi; [|discriminate].
    destruct (array_index (fst b)) as [j|] eqn:Hj; [|discriminate].
    intros [Hlt|[Heq Hne]]; [lia|].
    exfalso. apply Hne. apply N2Z.inj in Heq. subst j.
    eapply array_index_inj; eassumption.
  - eapply StronglySorted_weaken; [|apply StronglySorted_filter, Hord].
    intros a b [_ Ha]%filter_In [_ Hb]%filter_In.
    unfold is_index, enum_before in *.
    destruct (array_index (fst a)); [discriminate|].
    destruct (array_index (fst b)); [discriminate|]. auto.
  - intros a b [_ Ha]%sort_In%filter_In [_ Hb]%filter_In.
    unfold is_index, enum_before in *.
    destruct (array_index (fst a)); [|discriminate].
    destruct (array_index (fst b)); [discriminate|]. exact I.
Qed.

End Entries.

(** The entries of a grouping object, in the order [Object.entries]
    gives them. *)
Lemma group_entries_order {R V} (kf : R -> option string) (h : option V -> R -> V) data :
  StronglySorted (fun a b => enum_before (omap kf data) (fst a) (fst b))
    (Object_entries (group kf h data)).
Proof.
  apply Object_entries_order; [apply keys_group_NoDup|].
  apply StronglySorted_map_inv, keys_group_order.
Qed.

End EntriesFacts.

(** ** The roll-up loops as groupings *)

Module ProcessorFacts.
Import JS JSDate Config DataProcessor Spec SortFacts ObjFacts EntriesFacts.

Lemma foldl_ext {A B} (f g : A -> B -> A) a l :
  (forall a x, f a x = g a x) -> foldl f a l = foldl g a l.
Proof.
  intros Hfg. revert a. induction l as [|x l IH]; intros a; simpl; [reflexivity|].
  now rewrite Hfg, IH.
Qed.

Lemma collect_set grouped k row :
  collect grouped k row = set grouped k (absorb (get grouped k) row).
Proof.
  unfold collect, absorb, add_at.
  destruct (get grouped k) as [s|] eqn:Hg; destruct (patient row) as [e|]; simpl.
  - now rewrite Hg.
  - now rewrite set_same.
  - now rewrite get_set_eq, set_set.
  - reflexivity.
Qed.

Lemma rows_of_snoc {R} (kf : R -> option string) k data row :
  rows_of kf k (data ++ [row]) =
  rows_of kf k data ++ (if bool_decide (kf row = Some k) then [row] else []).
Proof. unfold rows_of. now rewrite List.filter_app. Qed.

Lemma rows_of_In {R} (kf : R -> option string) k data row :
  In row (rows_of kf k data) <-> In row data /\ kf row = Some k.
Proof. unfold rows_of. now rewrite filter_In, bool_decide_eq_true. Qed.

Lemma patients_snoc rows row :
  patients (rows ++ [row]) = absorb (Some (patients rows)) row.
Proof.
  unfold patients, absorb, Set_add. rewrite omap_app, list_to_set_app_L. simpl.
  destruct (patient row); simpl.
  - now rewrite (right_id_L ∅ (∪)), (comm_L (∪)).
  - now rewrite (right_id_L ∅ (∪)).
Qed.

Lemma value_of_absorb kf k data :
  value_of kf absorb k data =
  match rows_of kf k data with
  | [] => None
  | _ :: _ => Some (patients (rows_of kf k data))
  end.
Proof.
  induction data as [|row data IH] using rev_ind; [reflexivity|].
  rewrite value_of_snoc, rows_of_snoc, IH.
  destruct (bool_decide (kf row = Some k)).
  - destruct (rows_of kf k data) as [|r rs] eqn:Hrs.
    + simpl. f_equal. unfold absorb, patients, Set_add. simpl.
      destruct (patient row); reflexivity.
    + rewrite <- patients_snoc. reflexivity.
  - rewrite app_nil_r. reflexivity.
Qed.

Lemma value_of_tally kf k data :
  value_of kf tally k data =
  match rows_of kf k data with
  | [] => None
  | _ :: _ => Some (List.length (rows_of kf k data))
  end.
Proof.
  induction data as [|row data IH] using rev_ind; [reflexivity|].
  rewrite value_of_snoc, rows_of_snoc, IH.
  destruct (bool_decide (kf row = Some k)).
  - destruct (rows_of kf k data) as [|r rs] eqn:Hrs; [reflexivity|].
    simpl. rewrite length_app. simpl. unfold tally. simpl. reflexivity.
  - rewrite app_nil_r. reflexivity.
Qed.

(** The entries of a grouping object are the keys that occur, each once,
    with the value the key ends with. *)
Lemma group_entries_In {V} kf (h : option V -> Config.row -> V) data k v :
  In (k, v) (Object_entries (group kf h data)) <-> value_of kf h k data = Some v.
Proof.
  rewrite Object_entries_In, <- get_group. split.
  - apply In_get, keys_group_NoDup.
  - apply get_Some_In.
Qed.

Lemma sizes_In entries k c :
  In (k, c) (sizes entries) <-> exists s, In (k, s) entries /\ c = size s.
Proof.
  unfold sizes. rewrite in_map_iff. split.
  - intros ([k' s] & [= <- <-] & Hin). eauto.
  - intros (s & Hin & ->). now exists (k, s).
Qed.

Lemma roll_up_In kf data k c :
  In (k, c) (sizes (Object_entries (group kf absorb data))) <->
  rows_of kf k data <> [] /\ c = size (patients (rows_of kf k data)).
Proof.
  rewrite sizes_In. setoid_rewrite group_entries_In.
  rewrite value_of_absorb. destruct (rows_of kf k data) as [|r rs].
  - split; [intros (s & [=] & _)|intros [[] _]; reflexivity].
  - split; [intros (s & [= <-] & ->); split; [discriminate|reflexivity]|].
    intros [_ ->]. eauto.
Qed.

Lemma sizes_keys entries : map fst (sizes entries) = map fst entries.
Proof. unfold sizes. rewrite map_map. reflexivity. Qed.

Section WithHost.
Context `{Host}.

Lemma getSexDistribution_group data :
  getSexDistribution data = sizes (Object_entries (group sex_key absorb data)).
Proof.
  unfold getSexDistribution, group. do 2 f_equal.
  apply foldl_ext. intros g row. now rewrite collect_set.
Qed.

Lemma getPatientsPerMonth_group data :
  getPatientsPerMonth data =
  sort (fun a b => date_diff (fst a ++ "-01") (fst b ++ "-01"))
    (sizes (Object_entries (group month_key absorb data))).
Proof.
  unfold getPatientsPerMonth, group. do 3 f_equal.
  apply foldl_ext. intros g row. unfold group_step, month_key.
  destruct (DATE row); [reflexivity|]. now rewrite collect_set.
Qed.

Lemma getTopFindings_group data topN :
  getTopFindings data topN =
  slice0 topN (sort by_count_desc (Object_entries (group finding_key tally data))).
Proof.
  unfold getTopFindings, group. do 3 f_equal.
  apply foldl_ext. intros g row. unfold group_step, finding_key.
  destruct (truthy (FINDINGS row)); reflexivity.
Qed.

Lemma split_nonempty sep s : split sep s <> [].
Proof.
  destruct s as [|c s]; simpl; [discriminate|].
  destruct (Ascii.eqb c sep); [discriminate|].
  destruct (split sep s); discriminate.
Qed.

Lemma formatDateKey_valid t : is_Some (formatDateKey (Some t)).
Proof.
  unfold formatDateKey.
  destruct (split "T" (toISOString t)) eqn:Hs; [|simpl; eauto].
  now apply split_nonempty in Hs.
Qed.

Lemma getPatientsPerDay_group data :
  dates_valid data ->
  getPatientsPerDay data =
  Some (sort (fun a b => date_diff (fst a) (fst b))
          (sizes (Object_entries (group day_key absorb data)))).
Proof.
  intros Hv. unfold getPatientsPerDay.
  match goal with |- mbind _ ?m = _ =>
    assert (Hfold : m = Some (group day_key absorb data)) end.
  { induction data as [|row data IH] using rev_ind; [reflexivity|].
    apply Forall_app in Hv as [Hv Hrow]. apply Forall_inv in Hrow.
    rewrite foldl_app, group_snoc. simpl. rewrite (IH Hv). simpl.
    unfold group_step, day_key. destruct (DATE row) as [|[t|]]; [reflexivity| |congruence].
    destruct (formatDateKey_valid t) as [k Hk]. rewrite Hk. simpl.
    now rewrite collect_set. }
  rewrite Hfold. reflexivity.
Qed.

(** An Invalid Date object anywhere in the data makes [toISOString]
    throw, and the exception leaves [getPatientsPerDay]. *)
Lemma getPatientsPerDay_throws data :
  ~ dates_valid data -> getPatientsPerDay data = None.
Proof.
  intros Hv. unfold getPatientsPerDay.
  match goal with |- mbind _ ?m = _ => assert (Hfold : m = None) end.
  { induction data as [|row data IH] using rev_ind.
    - exfalso. apply Hv. constructor.
    - rewrite foldl_app. simpl.
      destruct (DATE row) as [|[t|]] eqn:Hrow.
      + rewrite IH; [reflexivity|]. intros Hd. apply Hv.
        apply Forall_app. split; [assumption|]. constructor; [congruence|constructor].
      + rewrite IH; [reflexivity|]. intros Hd. apply Hv.
        apply Forall_app. split; [assumption|]. constructor; [congruence|constructor].
      + simpl. now destruct (foldl _ _ data). }
  rewrite Hfold. reflexivity.
Qed.

End WithHost.

End ProcessorFacts.

(** ** Calendar days and number ranges *)

Module RangeFacts.
Import JS JSDate Config Spec SortFacts.

Section Calendar.
Local Open Scope Z_scope.

Lemma yoe_bounds doe :
  0 <= doe < 146097 ->
  let yoe := (doe - doe / 1460 + doe / 36524 - doe / 146096) / 365 in
  0 <= yoe <= 399 /\ 0 <= doe - (365 * yoe + yoe / 4 - yoe / 100) <= 365.
Proof.
  intros Hdoe yoe. subst yoe. Z.div_mod_to_equations. lia.
Qed.

Lemma civil_from_days_inverse z :
  days_from_civil (fst (fst (civil_from_days z))) (snd (fst (civil_from_days z)))
    (snd (civil_from_days z)) = z /\
  1 <= snd (fst (civil_from_days z)) <= 12.
Proof.
  unfold civil_from_days. cbv zeta.
  set (z' := z + 719468).
  set (era := z' / 146097).
  set (doe := z' - era * 146097).
  assert (Hdoe : 0 <= doe < 146097).
  { subst doe era. pose proof (Z.mod_pos_bound z' 146097 ltac:(lia)).
    rewrite Z.mod_eq in H by lia. lia. }
  pose proof (yoe_bounds doe Hdoe) as Hy. cbv zeta in Hy.
  set (yoe := (doe - doe / 1460 + doe / 36524 - doe / 146096) / 365) in *.
  set (doy := doe - (365 * yoe + yoe / 4 - yoe / 100)) in *.
  set (mp := (5 * doy + 2) / 153).
  assert (Hmp : 0 <= mp <= 11).
  { subst mp. destruct Hy as [_ Hdoy]. Z.div_mod_to_equations. lia. }
  simpl fst. simpl snd.
  destruct (Z.ltb_spec mp 10) as [Hlt|Hge].
  - split; [|lia]. unfold days_from_civil.
    destruct (Z.leb_spec (mp + 3) 2); [lia|].
    destruct (Z.ltb_spec 2 (mp + 3)); [|lia].
    replace (mp + 3 - 3) with mp by lia.
    replace ((yoe + era * 400) / 400) with era
      by (apply Z.div_unique with (r := yoe); lia).
    replace (yoe + era * 400 - era * 400) with yoe by lia.
    subst doy doe z'. lia.
  - split; [|lia]. unfold days_from_civil.
    destruct (Z.leb_spec (mp - 9) 2); [|lia].
    destruct (Z.ltb_spec 2 (mp - 9)); [lia|].
    replace (mp - 9 + 9) with mp by lia.
    replace (yoe + era * 400 + 1 - 1) with (yoe + era * 400) by lia.
    replace ((yoe + era * 400) / 400) with era
      by (apply Z.div_unique with (r := yoe); lia).
    replace (yoe + era * 400 - era * 400) with yoe by lia.
    subst doy doe z'. lia.
Qed.

Lemma DayFromYear_civil y : days_from_civil y 1 1 = DayFromYear y.
Proof.
  unfold days_from_civil, DayFromYear. simpl. Z.div_mod_to_equations. lia.
Qed.

Lemma MakeDay_civil y m d :
  1 <= m <= 12 -> MakeDay y (m - 1) d = days_from_civil y m d.
Proof.
  intros Hm. unfold MakeDay.
  replace ((m - 1) / 12) with 0 by (symmetry; apply Z.div_small; lia).
  rewrite Z.mod_small by lia.
  replace (y + 0) with y by lia. replace (m - 1 + 1) with m by lia.
  unfold days_from_civil. lia.
Qed.

Context `{Host}.

(** Outside the years 0 to 99, the fields of [new Date(y, m - 1, d, ...)]
    name the given time of day of the local day [y]-[m]-[d]. *)
Lemma time_of_fields_local y m d hh mm ss ms :
  ~ (0 <= y <= 99) -> 1 <= m <= 12 ->
  LocalTime (time_of_fields y (m - 1) d hh mm ss ms) =
  days_from_civil y m d * msPerDay + MakeTime hh mm ss ms.
Proof.
  intros Hy Hm. unfold time_of_fields, LocalTime, UTC, MakeDate.
  destruct (Z.leb_spec 0 y), (Z.leb_spec y 99); simpl; try lia;
    rewrite MakeDay_civil by assumption; lia.
Qed.

(** Whatever the fields of [new Date(y, m, d, hh, mm, ss, ms)], the time
    they name is [hh:mm:ss.ms] past a local midnight. *)
Lemma time_of_fields_time_of_day y m d hh mm ss ms :
  0 <= MakeTime hh mm ss ms < msPerDay ->
  TimeWithinDay (LocalTime (time_of_fields y m d hh mm ss ms)) = MakeTime hh mm ss ms.
Proof.
  intros Ht. unfold time_of_fields, LocalTime, UTC, MakeDate, TimeWithinDay.
  match goal with |- (?a * msPerDay + ?b - ?c + ?c) mod _ = _ =>
    replace (a * msPerDay + b - c + c) with (b + a * msPerDay) by lia end.
  rewrite Z.mod_add by (unfold msPerDay; lia). now apply Z.mod_small.
Qed.

(** The day a valid date falls on in local time, written down by
    [formatDate] and read back by [readFilterState]: its first and last
    millisecond. *)
Lemma local_day_ends t :
  let '(y, m, d) := Filters.formatDate t in
  1000 <= y ->
  LocalTime (time_of_fields y (m - 1) d 0 0 0 0) = Day (LocalTime t) * msPerDay /\
  LocalTime (time_of_fields y (m - 1) d 23 59 59 999) =
    Day (LocalTime t) * msPerDay + 86399999.
Proof.
  unfold Filters.formatDate, YearFromTime, MonthFromTime, DateFromTime.
  set (L := LocalTime t).
  destruct (civil_from_days_inverse (Day L)) as [Hinv Hm].
  destruct (civil_from_days (Day L)) as [[y m] d]. simpl in *.
  intros Hy. replace (m - 1 + 1) with m by lia.
  rewrite !time_of_fields_local by lia. rewrite Hinv. unfold MakeTime. lia.
Qed.

Lemma local_day_bounds t :
  let '(y, m, d) := Filters.formatDate t in
  1000 <= y ->
  time_of_fields y (m - 1) d 0 0 0 0 <= t <= time_of_fields y (m - 1) d 23 59 59 999.
Proof.
  pose proof (local_day_ends t) as Hends.
  destruct (Filters.formatDate t) as [[y m] d]. intros Hy.
  destruct (Hends Hy) as [Hs He]. unfold LocalTime, Day, msPerDay in *.
  pose proof (Z.mod_pos_bound (t + LocalTZA) 86400000 ltac:(lia)) as Hmod.
  rewrite Z.mod_eq in Hmod by lia. lia.
Qed.

Lemma sorted_last_max (l : list Z) d x :
  StronglySorted Z.le l -> In x l -> x <= List.last l d.
Proof.
  revert x. induction l as [|a l IH]; intros x Hs Hx; [destruct Hx|].
  apply StronglySorted_inv in Hs as [Hs Ha].
  destruct l as [|b l].
  - destruct Hx as [<-|[]]. simpl. lia.
  - change (List.last (a :: b :: l) d) with (List.last (b :: l) d).
    destruct Hx as [<-|Hx]; [|now apply IH].
    rewrite List.Forall_forall in Ha.
    transitivity b; [apply Ha; now left|apply IH; [assumption|now left]].
Qed.

Lemma StronglySorted_any {A} (l : list A) : StronglySorted (fun _ _ => True) l.
Proof.
  induction l as [|a l IH]; constructor; [assumption|].
  apply List.Forall_forall. intros; exact I.
Qed.

Lemma sort_ascending (l : list Z) :
  StronglySorted Z.le (sort (fun a b => a - b) l).
Proof.
  eapply StronglySorted_weaken;
    [|apply (sort_key_then (fun x : Z => x) (fun _ _ => True)), StronglySorted_any].
  intros a b _ _ [Hlt|[Heq _]]; lia.
Qed.

End Calendar.

(** *** The order of numbers *)

Lemma le_lt_false a b : le b a = true -> lt a b = false.
Proof.
  destruct a, b; simpl; try reflexivity; try discriminate.
  intros ->. reflexivity.
Qed.

Lemma lt_false_le a b :
  isNaN a = false -> isNaN b = false -> lt a b = false -> le b a = true.
Proof.
  destruct a, b; simpl; try reflexivity; try discriminate.
  intros _ _. now destruct (Qle_bool q0 q).
Qed.

Lemma lt_le a b : lt a b = true -> le a b = true.
Proof.
  destruct a, b; simpl; try reflexivity; try discriminate.
  intros Hlt. apply Qle_bool_iff. apply Qlt_le_weak. apply Qnot_le_lt.
  intros Hle. apply Qle_bool_iff in Hle. rewrite Hle in Hlt. discriminate.
Qed.

Lemma le_refl a : isNaN a = false -> le a a = true.
Proof.
  destruct a; simpl; try reflexivity; try discriminate.
  intros _. apply Qle_bool_iff, Qle_refl.
Qed.

Lemma le_trans a b c : le a b = true -> le b c = true -> le a c = true.
Proof.
  destruct a, b, c; simpl; try reflexivity; try discriminate.
  rewrite !Qle_bool_iff. apply Qle_trans.
Qed.

Lemma le_not_NaN a b : le a b = true -> isNaN a = false /\ isNaN b = false.
Proof. destruct a, b; simpl; try discriminate; auto. Qed.

Lemma Math_floor_le a : isNaN a = false -> le (Math_floor a) a = true.
Proof.
  destruct a; simpl; try reflexivity; try discriminate.
  intros _. apply Qle_bool_iff, Qfloor_le.
Qed.

Lemma Math_ceil_ge a : isNaN a = false -> le a (Math_ceil a) = true.
Proof.
  destruct a; simpl; try reflexivity; try discriminate.
  intros _. apply Qle_bool_iff, Qle_ceiling.
Qed.

Lemma min2_le a b :
  isNaN a = false -> isNaN b = false ->
  le (min2 a b) a = true /\ le (min2 a b) b = true.
Proof.
  intros Ha Hb. unfold min2. rewrite Ha, Hb. simpl.
  destruct (lt b a) eqn:Hlt.
  - split; [now apply lt_le|now apply le_refl].
  - split; [now apply le_refl|now apply lt_false_le].
Qed.

Lemma max2_ge a b :
  isNaN a = false -> isNaN b = false ->
  le a (max2 a b) = true /\ le b (max2 a b) = true.
Proof.
  intros Ha Hb. unfold max2. rewrite Ha, Hb. simpl.
  destruct (lt a b) eqn:Hlt.
  - split; [now apply lt_le|now apply le_refl].
  - split; [now apply le_refl|now apply lt_false_le].
Qed.

Lemma Math_min_le l a :
  Forall (fun n => isNaN n = false) l -> In a l -> le (Math_min l) a = true.
Proof.
  intros Hl. revert a. induction Hl as [|b l Hb Hl IH]; intros a Ha; [destruct Ha|].
  unfold Math_min in *. simpl.
  destruct l as [|c l].
  - destruct Ha as [<-|[]]. simpl. now apply (min2_le b PosInf).
  - assert (Hm : isNaN (fold_right min2 PosInf (c :: l)) = false).
    { apply (le_not_NaN _ c). apply IH. now left. }
    destruct (min2_le b _ Hb Hm) as [H1 H2].
    destruct Ha as [<-|Ha]; [assumption|].
    eapply le_trans; [exact H2|now apply IH].
Qed.

Lemma Math_max_ge l a :
  Forall (fun n => isNaN n = false) l -> In a l -> le a (Math_max l) = true.
Proof.
  intros Hl. revert a. induction Hl as [|b l Hb Hl IH]; intros a Ha; [destruct Ha|].
  unfold Math_max in *. simpl.
  destruct l as [|c l].
  - destruct Ha as [<-|[]]. simpl. now apply (max2_ge b NegInf).
  - assert (Hm : isNaN (fold_right max2 NegInf (c :: l)) = false).
    { apply (le_not_NaN c _). apply IH. now left. }
    destruct (max2_ge b _ Hb Hm) as [H1 H2].
    destruct Ha as [<-|Ha]; [assumption|].
    eapply le_trans; [now apply IH|exact H2].
Qed.

Lemma numeric_age_not_NaN age n : numeric_age age = Some n -> isNaN n = false.
Proof.
  destruct age as [| |m]; simpl; try discriminate.
  destruct (isNaN m) eqn:Hm; [discriminate|]. now intros [= <-].
Qed.

(** Every numeric age of the data lies between the floor of the least
    and the ceiling of the greatest. *)
Lemma age_range_bounds (ages : list number) a :
  Forall (fun n => isNaN n = false) ages -> In a ages ->
  lt a (Math_floor (Math_min ages)) = false /\
  gt a (Math_ceil (Math_max ages)) = false.
Proof.
  intros Hl Ha.
  pose proof (Math_min_le ages a Hl Ha) as Hmin.
  pose proof (Math_max_ge ages a Hl Ha) as Hmax.
  destruct (le_not_NaN _ _ Hmin) as [Hn1 _].
  destruct (le_not_NaN _ _ Hmax) as [_ Hn2].
  split; [|unfold gt]; apply le_lt_false.
  - eapply le_trans; [now apply Math_floor_le|exact Hmin].
  - eapply le_trans; [exact Hmax|now apply Math_ceil_ge].
Qed.

End RangeFacts.

(** ** What a slider holds and reads back *)

Module SliderFacts.
Import JS JSDate Config Filters Spec SortFacts RangeFacts StringFacts.

(** *** [parseInt] of the digits of a whole number *)

Lemma leading_digits_all d :
  leading_digits (NilEmpty.string_of_uint d) = NilEmpty.string_of_uint d.
Proof.
  induction d; cbn [NilEmpty.string_of_uint leading_digits]; [reflexivity|..];
    (change (is_digit _) with true; cbv iota; now rewrite IHd).
Qed.

Lemma parse_digits_digits n : parse_digits (digits n) = Some n.
Proof. exact (parse_digits_padded 0 n). Qed.

Lemma parseInt_uint d :
  d <> Decimal.Nil ->
  (parseInt (NilEmpty.string_of_uint d)
   = match parse_digits (leading_digits (NilEmpty.string_of_uint d)) with
     | Some n => of_Z (1 * Z.of_N n)
     | None => NaN
     end) /\
  (parseInt (String "-" (NilEmpty.string_of_uint d))
   = match parse_digits (leading_digits (NilEmpty.string_of_uint d)) with
     | Some n => of_Z (-1 * Z.of_N n)
     | None => NaN
     end).
Proof.
  intros Hd. destruct d as [|d|d|d|d|d|d|d|d|d|d]; [contradiction|..];
    destruct d; repeat split; reflexivity.
Qed.

Lemma parseInt_Z_toString z : parseInt (Z_toString z) = of_Z z.
Proof.
  assert (Hn : forall n, N.to_uint n <> Decimal.Nil).
  { intros [|p]; [discriminate|apply DecimalPos.Unsigned.to_uint_nonnil]. }
  destruct z as [|p|p]; unfold Z_toString.
  - reflexivity.
  - unfold digits.
    rewrite (proj1 (parseInt_uint _ (Hn (Z.to_N (Z.pos p))))), leading_digits_all.
    fold (digits (Z.to_N (Z.pos p))). rewrite parse_digits_digits.
    reflexivity.
  - change ("-" ++ digits (N.pos p))%string with (String "-" (digits (N.pos p))).
    unfold digits.
    rewrite (proj2 (parseInt_uint _ (Hn (N.pos p)))), leading_digits_all.
    fold (digits (N.pos p)). rewrite parse_digits_digits. reflexivity.
Qed.

(** *** Whole numbers as rationals *)

Lemma Qred_inject_Z z : Qred (inject_Z z) = inject_Z z.
Proof.
  unfold Qred, inject_Z.
  pose proof (Z.ggcd_gcd z 1) as Hg. pose proof (Z.ggcd_correct_divisors z 1) as Hd.
  destruct (Z.ggcd z 1) as [g [aa bb]]. cbn [fst snd] in *.
  rewrite Z.gcd_1_r in Hg. subst g. destruct Hd as [Ha Hb].
  replace aa with z by lia. replace bb with 1%Z by lia. reflexivity.
Qed.

Lemma whole_inject x k : x == inject_Z k -> whole x = true.
Proof.
  intros Hx. unfold whole. apply Qeq_bool_iff.
  rewrite (Qfloor_comp x (inject_Z k) Hx), Qfloor_Z. symmetry. exact Hx.
Qed.

Lemma Qle_bool_Z a b : Qle_bool (inject_Z a) (inject_Z b) = (a <=? b)%Z.
Proof. unfold Qle_bool. simpl. now rewrite !Z.mul_1_r. Qed.

(** *** The sliders after [populateAgeRange] *)

Section WithHost.
Context `{Host}.

(** A whole number within the range and on a step stays as written. *)
Lemma sanitize_kept s a b v :
  min_attr s = Some (inject_Z a) -> max_attr s = Some (inject_Z b) ->
  (a <= v <= b)%Z ->
  (forall step, allowed_step s = Some step ->
     exists k, (inject_Z v - inject_Z a) / step == inject_Z k) ->
  sanitize s (Some (inject_Z v)) = inject_Z v.
Proof.
  intros Hmin Hmax Hv Hstep. unfold sanitize, minimum, maximum, step_base.
  rewrite Hmin, Hmax. cbn [from_option id].
  rewrite !Qle_bool_Z.
  destruct (Z.leb_spec a v) as [_|]; [|lia].
  rewrite !Qle_bool_Z.
  destruct (Z.leb_spec v b) as [_|]; [|lia].
  cbn [negb]. rewrite !andb_false_r.
  destruct (allowed_step s) as [step|]; [|apply Qred_inject_Z].
  destruct (Hstep step eq_refl) as [k Hk].
  rewrite (whole_inject _ k Hk). apply Qred_inject_Z.
Qed.

Lemma slider_reads_whole s a b v :
  prints_integers ->
  min_attr s = Some (inject_Z a) -> max_attr s = Some (inject_Z b) ->
  (a <= v <= b)%Z -> (Z.abs v <= 2 ^ 53)%Z ->
  (forall step, allowed_step s = Some step ->
     exists k, (inject_Z v - inject_Z a) / step == inject_Z k) ->
  slider_reads s (of_Z v) = of_Z v.
Proof.
  intros Hprint Hmin Hmax Hv Hsafe Hstep. unfold slider_reads.
  cbn [as_float of_Z]. rewrite (sanitize_kept s a b v) by assumption.
  fold (of_Z v). rewrite Hprint by assumption. apply parseInt_Z_toString.
Qed.

Lemma allowed_step_whole s step :
  whole_steps s -> allowed_step s = Some step -> step == 1.
Proof.
  unfold whole_steps, allowed_step. destruct (step_attr s) as [q|]; [|discriminate].
  intros Hq. destruct (Qle_bool q 0) eqn:Hle; intros [= <-]; [reflexivity|assumption].
Qed.

Lemma allowed_step_nonzero s step : allowed_step s = Some step -> ~ step == 0.
Proof.
  unfold allowed_step. destruct (step_attr s) as [q|]; [|discriminate].
  destruct (Qle_bool q 0) eqn:Hle; intros [= <-]; [discriminate|].
  intros Hq. rewrite Hq in Hle. discriminate.
Qed.

(** The minimum is on a step whatever the step is: the steps are
    counted from it. *)
Lemma slider_reads_min s a b :
  prints_integers -> (a <= b)%Z -> (Z.abs a <= 2 ^ 53)%Z ->
  slider_reads (with_range (of_Z a) (of_Z b) s) (of_Z a) = of_Z a.
Proof.
  intros Hprint Hab Ha.
  apply (slider_reads_whole _ a b a); try assumption; try reflexivity; [lia|].
  intros step Hstep. exists 0%Z.
  apply allowed_step_nonzero in Hstep. field. exact Hstep.
Qed.

Lemma slider_reads_max s a b :
  prints_integers -> whole_steps s -> (a <= b)%Z -> (Z.abs b <= 2 ^ 53)%Z ->
  slider_reads (with_range (of_Z a) (of_Z b) s) (of_Z b) = of_Z b.
Proof.
  intros Hprint Hwhole Hab Hb.
  apply (slider_reads_whole _ a b b); try assumption; try reflexivity; [lia|].
  intros step Hstep. exists (b - a)%Z.
  apply (allowed_step_whole (with_range (of_Z a) (of_Z b) s)) in Hstep;
    [|exact Hwhole].
  rewrite Hstep. unfold Zminus. rewrite inject_Z_plus, inject_Z_opp. field.
Qed.

End WithHost.

(** *** The least and the greatest of finite ages *)

Lemma Math_min_In l :
  l <> [] -> Forall (fun n => isNaN n = false) l -> In (Math_min l) l.
Proof.
  intros Hne Hl. induction Hl as [|a l Ha Hl IH]; [contradiction|].
  unfold Math_min in *. cbn [fold_right]. destruct l as [|b l].
  - left. cbn. unfold min2. rewrite Ha. cbn. now destruct a.
  - specialize (IH ltac:(discriminate)).
    set (m := fold_right min2 PosInf (b :: l)) in *.
    assert (Hm : isNaN m = false).
    { rewrite List.Forall_forall in Hl. now apply Hl. }
    unfold min2. rewrite Ha, Hm. cbn [orb].
    destruct (lt m a); [right; exact IH|now left].
Qed.

Lemma Math_max_In l :
  l <> [] -> Forall (fun n => isNaN n = false) l -> In (Math_max l) l.
Proof.
  intros Hne Hl. induction Hl as [|a l Ha Hl IH]; [contradiction|].
  unfold Math_max in *. cbn [fold_right]. destruct l as [|b l].
  - left. cbn. unfold max2. rewrite Ha. cbn. now destruct a.
  - specialize (IH ltac:(discriminate)).
    set (m := fold_right max2 NegInf (b :: l)) in *.
    assert (Hm : isNaN m = false).
    { rewrite List.Forall_forall in Hl. now apply Hl. }
    unfold max2. rewrite Ha, Hm. cbn [orb].
    destruct (lt a m); [right; exact IH|now left].
Qed.

Lemma safe_age_not_NaN n : safe_age n -> isNaN n = false.
Proof. destruct n; simpl; tauto. Qed.

Lemma Qfloor_le_ceiling q : (Qfloor q <= Qceiling q)%Z.
Proof.
  rewrite Zle_Qle. eapply Qle_trans; [apply Qfloor_le|apply Qle_ceiling].
Qed.

(** The two ages [populateAgeRange] works out for finite ages: whole
    numbers no more than 2^53 from zero, the first not above the
    second. *)
Lemma age_range_whole ages :
  ages <> [] -> Forall safe_age ages ->
  exists a b,
    Math_floor (Math_min ages) = of_Z a /\ Math_ceil (Math_max ages) = of_Z b /\
    (a <= b)%Z /\ (Z.abs a <= 2 ^ 53)%Z /\ (Z.abs b <= 2 ^ 53)%Z.
Proof.
  intros Hne Hsafe.
  assert (Hnan : Forall (fun n => isNaN n = false) ages).
  { eapply List.Forall_impl; [|exact Hsafe]. apply safe_age_not_NaN. }
  pose proof (Math_min_In ages Hne Hnan) as Hmin.
  pose proof (Math_max_In ages Hne Hnan) as Hmax.
  pose proof (Math_min_le ages _ Hnan Hmax) as Hle.
  rewrite List.Forall_forall in Hsafe.
  pose proof (Hsafe _ Hmin) as Smin. pose proof (Hsafe _ Hmax) as Smax.
  destruct (Math_min ages) as [| | |q]; try contradiction.
  destruct (Math_max ages) as [| | |q']; try contradiction.
  cbn in Smin, Smax, Hle. apply Qle_bool_iff in Hle.
  exists (Qfloor q), (Qceiling q'). cbn [Math_floor Math_ceil].
  pose proof (Qfloor_le_ceiling q). pose proof (Qfloor_le_ceiling q').
  assert (Qfloor q <= Qfloor q')%Z by now apply Qfloor_resp_le.
  repeat split; lia.
Qed.

End SliderFacts.

(** ** The filter engine *)

Module FilterFacts.
Import JS JSDate Config Filters DataLoader Spec Examples SortFacts RangeFacts.
Import SliderFacts.

Lemma includes_In arr s : includes arr s = true <-> In s arr.
Proof.
  unfold includes. rewrite existsb_exists. split.
  - intros (x & Hx & Heq). apply String.eqb_eq in Heq. now subst.
  - intros Hin. exists s. split; [assumption|apply String.eqb_refl].
Qed.

Lemma nonempty_false arr : nonempty arr = false <-> arr = [].
Proof. unfold nonempty. destruct arr; simpl; split; (reflexivity || discriminate). Qed.

Section WithHost.
Context `{Host}.

Lemma category_check accepted cell :
  nonempty accepted && negb (includes accepted (ToString cell)) = false
  <-> accepts accepted cell.
Proof.
  unfold accepts. rewrite andb_false_iff, negb_false_iff, nonempty_false, includes_In.
  reflexivity.
Qed.

Lemma date_check st row :
  match dateStart st, dateEnd st with
  | Some start, Some end_ =>
      match DATE row with
      | ADate rowDate => date_lt rowDate start || date_gt rowDate end_
      | NoDate => false
      end
  | _, _ => false
  end = false
  <-> date_ok st row.
Proof.
  unfold date_ok.
  destruct (dateStart st) as [start|], (dateEnd st) as [end_|];
    try (split; [intros _ ? ? ? ? ?; discriminate|reflexivity]).
  destruct (DATE row) as [|[t|]]; simpl;
    try (split; [intros _ ? ? ? _ _ ?; discriminate|reflexivity]).
  rewrite orb_false_iff. split.
  - intros [Hs He] s' e' t' [= <-] [= <-] [= <-]. split.
    + intros s ->. apply Z.ltb_ge in Hs. lia.
    + intros e ->. apply Z.ltb_ge in He. lia.
  - intros Hok. destruct (Hok start end_ t eq_refl eq_refl eq_refl) as [Hs He].
    split.
    + destruct start as [s|]; [|reflexivity]. apply Z.ltb_ge. now apply Hs.
    + destruct end_ as [e|]; [|reflexivity]. apply Z.ltb_ge. now apply He.
Qed.

Lemma age_check st row :
  match numeric_age (AGE row) with
  | Some age => lt age (ageMin st) || gt age (ageMax st)
  | None => false
  end = false
  <-> age_ok st row.
Proof.
  unfold age_ok. destruct (numeric_age (AGE row)) as [age|].
  - rewrite orb_false_iff. split.
    + intros Hc age' [= <-]. exact Hc.
    + intros Hok. now apply Hok.
  - split; [intros _ ? ?; discriminate|reflexivity].
Qed.

(** The callback keeps a row exactly when every check lets it pass. *)
Lemma keep_true st row :
  keep st row = true <-> categories_ok st row /\ date_ok st row /\ age_ok st row.
Proof.
  unfold keep, categories_ok.
  rewrite <- !category_check, <- date_check, <- age_check.
  repeat match goal with
         | |- context [if ?c then false else _] => destruct c
         end; intuition discriminate.
Qed.

Lemma applyFilters_In u data row :
  In row (applyFilters u data) <->
  In row data /\ keep (readFilterState u) row = true.
Proof. unfold applyFilters. apply filter_In. Qed.

(** C1.  A record is in the output of [applyFilters] exactly when it is
    in the input and, for each of company, purpose, month, sex, label and
    finding, the accepted set of the criteria is empty or holds the
    record's value coerced to a string, and the date and age conditions
    hold. *)
Theorem applyFilters_members u data row :
  let st := readFilterState u in
  In row (applyFilters u data) <->
  In row data /\ categories_ok st row /\ date_ok st row /\ age_ok st row.
Proof.
  intros st. subst st. rewrite applyFilters_In, keep_true. reflexivity.
Qed.

(** What [processData] makes of a date cell holding text that
    [new Date] cannot read: [null], no date. *)
Lemma unparseable_date_loaded raw s :
  cell_DATE raw = Str s -> Date_parse s = None ->
  DATE (loaded (process_row raw)) = NoDate.
Proof.
  intros Hcell Hparse. unfold loaded, process_row, process_date. simpl.
  rewrite Hcell. simpl. destruct (String.eqb s ""); simpl; [reflexivity|].
  now rewrite Hparse.
Qed.

(** [processData] leaves no [NaN] in the age cell. *)
Lemma processData_age data row :
  In row (processData data) -> AGE row <> AgeNum NaN.
Proof.
  unfold processData. intros (p & <- & Hp)%in_map_iff.
  apply filter_In in Hp as [(raw & <- & _)%in_map_iff _].
  unfold loaded, process_row, process_age. simpl.
  destruct (cell_AGE raw); try discriminate;
    destruct (parseFloat _); simpl; discriminate.
Qed.

Lemma TimeClip_Some t s : TimeClip t = Some s -> s = t.
Proof. unfold TimeClip. destruct (_ <=? _)%Z; [now intros [= <-]|discriminate]. Qed.

Lemma Day_of_local_day x r :
  (0 <= r < msPerDay)%Z -> Day (x * msPerDay + r) = x.
Proof.
  intros Hr. unfold Day. symmetry. apply Z.div_unique with (r := r); lia.
Qed.

(** C3, amended.  With both dates of the range set, a record that meets
    the other conditions and has a valid date is kept exactly when the
    date is not before [new Date(year, month - 1, day, 0, 0, 0, 0)] of
    the start and not after [new Date(year, month - 1, day, 23, 59, 59,
    999)] of the end, each of the two counting when it is a valid
    [Date]; a record without a valid date is kept, and such is a record
    whose date text [processData] could not read.  In local time a
    valid start is the first millisecond of a day and a valid end the
    last millisecond of a day: the days typed in, for years outside 0 to
    99. *)
Theorem date_range_inclusive u data row y m d y' m' d' :
  dateStart_value u = Some (y, m, d) ->
  dateEnd_value u = Some (y', m', d') ->
  let st := readFilterState u in
  let start := new_Date y (m - 1) d 0 0 0 0 in
  let end_ := new_Date y' (m' - 1) d' 23 59 59 999 in
  (In row data -> categories_ok st row -> age_ok st row ->
   match valid_date (DATE row) with
   | Some t =>
       In row (applyFilters u data) <->
       (forall s, start = Some s -> s <= t)%Z /\
       (forall e, end_ = Some e -> t <= e)%Z
   | None => In row (applyFilters u data)
   end) /\
  (forall raw s,
     cell_DATE raw = Str s -> Date_parse s = None ->
     valid_date (DATE (loaded (process_row raw))) = None) /\
  (forall s, start = Some s ->
     TimeWithinDay (LocalTime s) = 0%Z /\
     (~ (0 <= y <= 99)%Z -> (1 <= m <= 12)%Z ->
      Day (LocalTime s) = days_from_civil y m d)) /\
  (forall e, end_ = Some e ->
     TimeWithinDay (LocalTime e) = 86399999%Z /\
     (~ (0 <= y' <= 99)%Z -> (1 <= m' <= 12)%Z ->
      Day (LocalTime e) = days_from_civil y' m' d')).
Proof.
  intros Hs He st start end_. split; [|split; [|split]].
  - intros Hin Hcat Hage.
    assert (Hst : dateStart st = Some start /\ dateEnd st = Some end_).
    { subst st. unfold readFilterState. simpl. now rewrite Hs, He. }
    destruct Hst as [Hst Hen].
    destruct (valid_date (DATE row)) as [t|] eqn:Hv.
    + rewrite applyFilters_In, keep_true. fold st. split.
      * intros (_ & _ & Hd & _). now apply (Hd start end_ t).
      * intros Ht. split; [assumption|split; [assumption|split; [|assumption]]].
        intros s e t' Hs' He' Ht'. rewrite Hv in Ht'. injection Ht' as <-.
        rewrite Hst in Hs'. rewrite Hen in He'.
        injection Hs' as <-. injection He' as <-. exact Ht.
    + apply applyFilters_In. split; [assumption|]. apply keep_true. fold st.
      split; [assumption|split; [|assumption]].
      intros s e t' _ _ Ht'. rewrite Hv in Ht'. discriminate.
  - intros raw s Hcell Hparse.
    now rewrite (unparseable_date_loaded raw s Hcell Hparse).
  - intros s Hstart. apply TimeClip_Some in Hstart. subst s. split.
    + rewrite time_of_fields_time_of_day; [reflexivity|].
      unfold MakeTime, msPerDay. lia.
    + intros Hy Hm. rewrite time_of_fields_local by assumption.
      apply Day_of_local_day. unfold MakeTime, msPerDay. lia.
  - intros e Hend. apply TimeClip_Some in Hend. subst e. split.
    + rewrite time_of_fields_time_of_day; [reflexivity|].
      unfold MakeTime, msPerDay. lia.
    + intros Hy Hm. rewrite time_of_fields_local by assumption.
      apply Day_of_local_day. unfold MakeTime, msPerDay. lia.
Qed.

Lemma filter_all {A} (p : A -> bool) l :
  (forall x, In x l -> p x = true) -> List.filter p l = l.
Proof.
  induction l as [|x l IH]; intros Hp; [reflexivity|].
  simpl. rewrite (Hp x) by now left. f_equal. apply IH.
  intros y Hy. apply Hp. now right.
Qed.

Lemma populateFilters_selects data u :
  let st := readFilterState (populateFilters data u) in
  companies st = [] /\ purposes st = [] /\ months st = [] /\
  sexes st = [] /\ labels st = [] /\ findings st = [].
Proof.
  unfold populateFilters, populateAgeRange, populateDateRange.
  destruct (omap _ data); destruct (sort _ _); simpl; repeat split; reflexivity.
Qed.

Lemma populateFilters_dates data u row t start end_ :
  let st := readFilterState (populateFilters data u) in
  In row data -> valid_date (DATE row) = Some t ->
  dateStart st = Some start -> dateEnd st = Some end_ ->
  (forall s, start = Some s -> s <= t)%Z /\ (forall e, end_ = Some e -> t <= e)%Z.
Proof.
  intros st Hrow Ht. subst st.
  unfold populateFilters, populateAgeRange, populateDateRange.
  pose proof (sort_ascending (omap (fun row => valid_date (DATE row)) data)) as Hsorted.
  assert (Hin : In t (sort (fun a b => a - b)%Z
                        (omap (fun row => valid_date (DATE row)) data))).
  { apply sort_In. apply list_elem_of_In, list_elem_of_omap.
    exists row. split; [now apply list_elem_of_In|assumption]. }
  destruct (sort _ (omap (fun row => valid_date (DATE row)) data))
    as [|minDate rest] eqn:Hdates; [destruct Hin|].
  set (maxDate := List.last (minDate :: rest) minDate).
  assert (Hmin : (minDate <= t)%Z).
  { apply StronglySorted_inv in Hsorted as [_ Hall].
    destruct Hin as [<-|Hin]; [lia|].
    rewrite List.Forall_forall in Hall. now apply Hall. }
  assert (Hmax : (t <= maxDate)%Z) by now apply sorted_last_max.
  pose proof (local_day_bounds minDate) as Bmin.
  pose proof (local_day_bounds maxDate) as Bmax.
  destruct (formatDate minDate) as [[y m] d].
  destruct (formatDate maxDate) as [[y' m'] d'].
  destruct (omap (fun row => numeric_age (AGE row)) data); simpl;
    destruct (Z.leb_spec 1000 y); try discriminate;
    destruct (Z.leb_spec 1000 y'); try discriminate;
    intros [= <-] [= <-];
    (split; [intros s Hs%TimeClip_Some|intros e He%TimeClip_Some]); lia.
Qed.

Lemma populateDateRange_sliders data u :
  ageMin_slider (populateDateRange data u) = ageMin_slider u /\
  ageMax_slider (populateDateRange data u) = ageMax_slider u.
Proof. unfold populateDateRange. destruct (sort _ _); split; reflexivity. Qed.

(** On finite ages the sliders take the two ages [populateAgeRange]
    writes to them, and [readFilterState] reads them back. *)
Lemma populateFilters_age_range data u :
  prints_integers -> finite_ages data -> whole_steps (ageMax_slider u) ->
  let st := readFilterState (populateFilters data u) in
  numeric_ages data <> [] ->
  ageMin st = Math_floor (Math_min (numeric_ages data)) /\
  ageMax st = Math_ceil (Math_max (numeric_ages data)).
Proof.
  intros Hprint Hfinite Hwhole st Hne. subst st.
  destruct (age_range_whole (numeric_ages data) Hne Hfinite)
    as (a & b & Ha & Hb & Hab & Hasafe & Hbsafe).
  unfold populateFilters, populateAgeRange. fold (numeric_ages data).
  destruct (numeric_ages data) as [|n ages] eqn:Hages; [contradiction|].
  cbn [readFilterState ageMin ageMax ageMin_value ageMax_value].
  rewrite Ha, Hb.
  split; [now apply slider_reads_min|].
  apply slider_reads_max; try assumption.
  now rewrite (proj2 (populateDateRange_sliders data _)).
Qed.

Lemma populateFilters_ages data u row age :
  prints_integers -> finite_ages data -> whole_steps (ageMax_slider u) ->
  let st := readFilterState (populateFilters data u) in
  In row data -> numeric_age (AGE row) = Some age ->
  lt age (ageMin st) = false /\ gt age (ageMax st) = false.
Proof.
  intros Hprint Hfinite Hwhole st Hrow Hage. subst st.
  assert (Hin : In age (numeric_ages data)).
  { apply list_elem_of_In, list_elem_of_omap.
    exists row. split; [now apply list_elem_of_In|assumption]. }
  assert (Hall : Forall (fun n => isNaN n = false) (numeric_ages data)).
  { eapply List.Forall_impl; [|exact Hfinite]. apply safe_age_not_NaN. }
  assert (Hne : numeric_ages data <> []) by (intros Hnil; rewrite Hnil in Hin; destruct Hin).
  destruct (populateFilters_age_range data u Hprint Hfinite Hwhole Hne) as [-> ->].
  exact (age_range_bounds (numeric_ages data) age Hall Hin).
Qed.






End WithHost.

Lemma date_range_inclusive_witness :
  In (visit "2024-01-05" "E1" 30 "A" "F1") (applyFilters (H := manila) january scenario)
  <-> (forall s, new_Date (H := manila) 2024 (1 - 1) 1 0 0 0 0 = Some s ->
         s <= 1704412800000)%Z /\
      (forall e, new_Date (H := manila) 2024 (1 - 1) 31 23 59 59 999 = Some e ->
         1704412800000 <= e)%Z.
Proof.
  destruct (date_range_inclusive (H := manila) january scenario
              (visit "2024-01-05" "E1" 30 "A" "F1") 2024 1 1 2024 1 31
              eq_refl eq_refl) as [W _].
  apply W.
  - now left.
  - repeat split; left; reflexivity.
  - intros age [= <-]. split; reflexivity.
Defined.

(** The host of the examples prints every whole number by its digits. *)
Lemma manila_prints_integers : prints_integers (H := manila).
Proof.
  intros z _. unfold Number_toString, manila, of_Z. now rewrite Qfloor_Z.
Qed.

Lemma scenario_finite_ages : finite_ages scenario.
Proof. repeat constructor; vm_compute; discriminate. Qed.



(** A year typed as 0050 is read by [new Date(year, month - 1, day)] as
    1950: of a visit in June of the year 50 and one in June 1950, the
    range from 0050-01-01 to 0050-12-31 keeps the second and not the
    first.  And the last day of the range of [Date], whose midnight
    UTC ends the range, gives an Invalid Date five hours behind UTC;
    no date is before an Invalid Date: with 275760-09-13 typed in, the
    visits of 2024 are kept. *)
Lemma two_digit_year_range :
  let data := [visit "0050-06-15" "E1" 30 "A" "F1"; visit "1950-06-15" "E2" 30 "A" "F1"] in
  let st := readFilterState (H := manila) year_fifty in
  (dateStart_value year_fifty = Some (50, 1, 1)%Z /\
   dateEnd_value year_fifty = Some (50, 12, 31)%Z /\
   dateStart st = Some (Some (time_of_fields (H := manila) 1950 0 1 0 0 0 0)) /\
   dateEnd st = Some (Some (time_of_fields (H := manila) 1950 11 31 23 59 59 999)) /\
   valid_date (DATE (visit "0050-06-15" "E1" 30 "A" "F1"))
     = Some (days_from_civil 50 6 15 * msPerDay)%Z /\
   applyFilters (H := manila) year_fifty data = [visit "1950-06-15" "E2" 30 "A" "F1"]) /\
  (dateStart_value last_day = Some (275760, 9, 13)%Z /\
   dateEnd_value last_day = Some (275760, 9, 13)%Z /\
   time_of_fields (H := new_york) 275760 8 13 0 0 0 0 = 8640000018000000%Z /\
   dateStart (readFilterState (H := new_york) last_day) = Some None /\
   dateEnd (readFilterState (H := new_york) last_day) = Some None /\
   applyFilters (H := new_york) last_day scenario = scenario).
Proof. repeat split; vm_compute; reflexivity. Qed.

End FilterFacts.

(** ** Roll-ups per day and per month, and the sex distribution *)

Module RollUps.
Import JS JSDate Config DataProcessor Spec SortFacts ObjFacts EntriesFacts.
Import ProcessorFacts Examples.

(** C7.  On the three records of the specification's scenario (two visits
    of E1 on 2024-01-05, one of E2 on 2024-02-10), [getPatientsPerDay]
    returns the entries 2024-01-05 with count 1 and 2024-02-10 with
    count 1, in that order, whatever the host's time zone; and so it
    does on what [processData] makes of the records as parsed. *)
Theorem scenario_patients_per_day `{Host} :
  getPatientsPerDay scenario = Some [("2024-01-05", 1); ("2024-02-10", 1)] /\
  getPatientsPerDay (DataLoader.processData parsed_scenario)
    = Some [("2024-01-05", 1); ("2024-02-10", 1)].
Proof. split; vm_compute; reflexivity. Qed.

(** The day key is the UTC day.  A [Date] built at local midnight in a
    zone ahead of UTC is filed under the day before, while the month key
    follows local time. *)
Lemma local_midnight_day_key :
  formatDateKey (new_Date (H := manila) 2024 0 5 0 0 0 0) = Some "2024-01-04" /\
  formatMonthKey (H := manila) (new_Date (H := manila) 2024 0 1 0 0 0 0)
    = "2024-01".
Proof. split; vm_compute; reflexivity. Qed.

Lemma patients_none rows :
  (forall r, In r rows -> patient r = None) -> patients rows = ∅.
Proof.
  unfold patients. induction rows as [|r rows IH]; intros Hr; [reflexivity|].
  simpl. rewrite (Hr r) by now left. apply IH. intros r' Hr'. apply Hr. now right.
Qed.

Lemma roll_up_empty_group kf data row k :
  In row data -> kf row = Some k ->
  (forall r, In r data -> kf r = Some k -> patient r = None) ->
  In (k, 0) (sizes (Object_entries (group kf absorb data))).
Proof.
  intros Hrow Hk Hnone. apply roll_up_In. split.
  - intros Hnil. assert (Hin : In row (rows_of kf k data)) by now apply rows_of_In.
    rewrite Hnil in Hin. destruct Hin.
  - rewrite patients_none; [now rewrite size_empty|].
    intros r [Hr Hkr]%rows_of_In. auto.
Qed.

(** C10, amended.  A day on which some record has a valid date and every record
    has an empty or missing patient number still gets its entry from
    [getPatientsPerDay], with count 0, and likewise a month from
    [getPatientsPerMonth]: such records are not dropped.  (The roll-up
    per day returns at all only when no record carries an Invalid Date
    object.) *)
Theorem patient_less_group_kept `{Host} data row t day :
  In row data -> DATE row = ADate (Some t) ->
  formatDateKey (Some t) = Some day ->
  (dates_valid data ->
   (forall r, In r data -> day_key r = Some day -> patient r = None) ->
   exists out, getPatientsPerDay data = Some out /\ In (day, 0) out) /\
  ((forall r, In r data ->
      month_key r = Some (formatMonthKey (Some t)) -> patient r = None) ->
   In (formatMonthKey (Some t), 0) (getPatientsPerMonth data)).
Proof.
  intros Hrow Hdate Hday. split.
  - intros Hvalid Hnone.
    rewrite getPatientsPerDay_group by assumption.
    eexists. split; [reflexivity|].
    apply sort_In. apply (roll_up_empty_group day_key data row); auto.
    unfold day_key. now rewrite Hdate.
  - intros Hnone. rewrite getPatientsPerMonth_group.
    apply sort_In. apply (roll_up_empty_group month_key data row); auto.
    unfold month_key. now rewrite Hdate.
Qed.

Lemma patient_less_group_kept_witness :
  (exists out,
     getPatientsPerDay (H := manila)
       [anonymous_visit "2024-01-05"; visit "2024-02-10" "E2" 70 "B" "F1"]
     = Some out /\ In ("2024-01-05", 0) out) /\
  In ("2024-01", 0)
    (getPatientsPerMonth (H := manila)
       [anonymous_visit "2024-01-05"; visit "2024-02-10" "E2" 70 "B" "F1"]).
Proof.
  pose proof (patient_less_group_kept (H := manila)
    [anonymous_visit "2024-01-05"; visit "2024-02-10" "E2" 70 "B" "F1"]
    (anonymous_visit "2024-01-05") 1704412800000 "2024-01-05") as W.
  destruct W as [Wday Wmonth]; [now left|reflexivity|reflexivity|].
  split.
  - apply Wday.
    + repeat constructor; vm_compute; discriminate.
    + intros r [<-|[<-|[]]]; vm_compute; [reflexivity|discriminate].
  - apply Wmonth.
    intros r [<-|[<-|[]]]; vm_compute; [reflexivity|discriminate].
Defined.

(** One record with an Invalid Date object after an anonymous visit on
    2024-01-05: every record of that day lacks a patient number, yet
    [getPatientsPerDay] has no entry for the day, it throws in
    [formatDateKey]; and [getPatientsPerMonth] does not drop the record
    without a valid date, it files it under the month "NaN-NaN". *)
Lemma invalid_date_stops_per_day :
  let data := [anonymous_visit "2024-01-05"; invalid_date_visit "E2"] in
  valid_date (DATE (anonymous_visit "2024-01-05")) = Some 1704412800000%Z /\
  valid_date (DATE (invalid_date_visit "E2")) = None /\
  getPatientsPerDay (H := manila) data = None /\
  getPatientsPerMonth (H := manila) data = [("2024-01", 0); ("NaN-NaN", 1)].
Proof. repeat split; vm_compute; reflexivity. Qed.

(** The sex distribution of one man and two women comes out in the order
    the sexes were met, the smaller count first. *)
Lemma sex_distribution_not_sorted :
  getSexDistribution (H := manila) one_man_two_women = [("M", 1); ("F", 2)] /\
  ~ StronglySorted (fun a b => snd b <= snd a)
      (getSexDistribution (H := manila) one_man_two_women).
Proof.
  split; [vm_compute; reflexivity|].
  replace (getSexDistribution (H := manila) one_man_two_women)
    with [("M", 1); ("F", 2)] by (vm_compute; reflexivity).
  intros Hs. apply StronglySorted_inv in Hs as [_ Hs].
  apply Forall_inv in Hs. simpl in Hs. lia.
Qed.

(** C6, amended.  [getSexDistribution] files each record under its sex
    coerced to a string, a record without sex under "Unknown"; it
    returns one entry per group present, with the number of distinct
    non-empty patient numbers of the group; the entries come in the order
    [Object.entries] lists the keys (array-index keys ascending, then the
    others by first appearance), not sorted by count.  Stated for records
    none of whose keys is a property name inherited by plain objects. *)
Theorem getSexDistribution_groups `{Host} data :
  plain_keys sex_key data ->
  let out := getSexDistribution data in
  (forall row, truthy (SEX row) = false -> sex_key row = Some "Unknown") /\
  (forall k c,
     In (k, c) out <->
     rows_of sex_key k data <> [] /\ c = size (patients (rows_of sex_key k data))) /\
  List.NoDup (map fst out) /\
  StronglySorted (enum_before (omap sex_key data)) (map fst out).
Proof.
  intros _ out. subst out. rewrite getSexDistribution_group.
  split; [|split; [|split]].
  - intros row Hsex. unfold sex_key, or_else. now rewrite Hsex.
  - intros k c. apply roll_up_In.
  - rewrite sizes_keys. apply Object_entries_NoDup, keys_group_NoDup.
  - rewrite sizes_keys. apply StronglySorted_map, group_entries_order.
Qed.

Lemma getSexDistribution_groups_witness :
  let out := getSexDistribution (H := manila) one_man_two_women in
  (forall k c,
     In (k, c) out <->
     rows_of (sex_key (H := manila)) k one_man_two_women <> [] /\
     c = size (patients (rows_of (sex_key (H := manila)) k one_man_two_women))) /\
  StronglySorted (enum_before (omap (sex_key (H := manila)) one_man_two_women))
    (map fst out).
Proof.
  pose proof (getSexDistribution_groups (H := manila) one_man_two_women) as W.
  destruct W as (_ & Win & _ & Word).
  - repeat constructor; intros k [= <-]; reflexivity.
  - split; [exact Win|exact Word].
Defined.

End RollUps.

(** ** Top findings *)

Module TopFindings.
Import JS JSDate Config DataProcessor Spec SortFacts ObjFacts EntriesFacts.
Import ProcessorFacts Examples.

Lemma tally_In kf data k c :
  In (k, c) (Object_entries (group kf tally data)) <->
  c = List.length (rows_of kf k data) /\ c <> 0.
Proof.
  rewrite group_entries_In, value_of_tally.
  destruct (rows_of kf k data) as [|r rs]; simpl.
  - split; [discriminate|]. intros [-> Hc]. now destruct Hc.
  - split; [intros [= <-]; split; [reflexivity|discriminate]|].
    intros [-> _]. reflexivity.
Qed.

(** Two findings met once each, "b" before "1": the tie is not broken by
    first appearance, the array-index key "1" comes out first. *)
Lemma top_findings_tie_by_key_order :
  getTopFindings (H := manila) [finding_only "b"; finding_only "1"] 2
    = [("1", 1); ("b", 1)] /\
  ~ StronglySorted
      (fun a b =>
         snd b < snd a \/
         (snd a = snd b /\
          first_before
            (omap (finding_key (H := manila)) [finding_only "b"; finding_only "1"])
            (fst a) (fst b)))
      (getTopFindings (H := manila) [finding_only "b"; finding_only "1"] 2).
Proof.
  split; [vm_compute; reflexivity|].
  replace (getTopFindings (H := manila) [finding_only "b"; finding_only "1"] 2)
    with [("1", 1); ("b", 1)] by (vm_compute; reflexivity).
  intros Hs. apply StronglySorted_inv in Hs as [_ Hs].
  apply Forall_inv in Hs. simpl in Hs.
  destruct Hs as [Hlt|[_ (l1 & l2 & Heq & Hnot)]]; [lia|].
  apply Hnot. destruct l1 as [|x l1]; [discriminate|].
  injection Heq as <- _. now left.
Qed.

(** C4, amended.  [getTopFindings] counts, per record, the occurrences of
    each distinct finding (as a property key) among the records whose
    finding is truthy, leaving the others out; it sorts the pairs by
    descending count, pairs with equal counts staying in the order
    [Object.entries] lists the keys (array-index keys first in ascending
    numeric order, then the other keys by first appearance); and it
    returns the first [topN] pairs.  Stated for records none of whose
    findings is a property name inherited by plain objects, and for
    [topN >= 0]. *)
Theorem getTopFindings_ranking `{Host} data topN :
  plain_keys finding_key data ->
  (0 <= topN)%Z ->
  exists ranking,
    getTopFindings data topN = firstn (Z.to_nat topN) ranking /\
    (forall row, finding_key row = None <-> truthy (FINDINGS row) = false) /\
    (forall k c,
       In (k, c) ranking <->
       c = List.length (rows_of finding_key k data) /\ c <> 0) /\
    List.NoDup (map fst ranking) /\
    StronglySorted
      (fun a b =>
         snd b < snd a \/
         (snd a = snd b /\ enum_before (omap finding_key data) (fst a) (fst b)))
      ranking.
Proof.
  intros _ HtopN.
  exists (sort by_count_desc (Object_entries (group finding_key tally data))).
  split; [|split; [|split; [|split]]].
  - rewrite getTopFindings_group. now apply slice0_firstn.
  - intros row. unfold finding_key. destruct (truthy (FINDINGS row)); split; congruence.
  - intros k c. rewrite sort_In. apply tally_In.
  - eapply Permutation_NoDup;
      [apply Permutation_map; symmetry; apply sort_Permutation|].
    apply Object_entries_NoDup, keys_group_NoDup.
  - rewrite (sort_ext by_count_desc
               (fun a b => (fun e => - Z.of_nat (snd e)) a - (fun e => - Z.of_nat (snd e)) b)%Z)
      by (intros a b; unfold by_count_desc; lia).
    eapply StronglySorted_weaken;
      [|apply sort_key_then, (group_entries_order finding_key tally data)].
    intros a b _ _ [Hlt|[Heq He]]; [left; lia|right; split; [lia|exact He]].
Qed.

Lemma getTopFindings_ranking_witness :
  exists ranking,
    getTopFindings (H := manila) [finding_only "b"; finding_only "1"] 1
      = firstn 1 ranking /\
    In ("b", 1) ranking /\ In ("1", 1) ranking.
Proof.
  destruct (getTopFindings_ranking (H := manila)
              [finding_only "b"; finding_only "1"] 1)
    as (ranking & Hout & _ & Hin & _).
  - repeat constructor; intros k [= <-]; reflexivity.
  - lia.
  - exists ranking. split; [exact Hout|].
    split; apply Hin; vm_compute; split; (reflexivity || discriminate).
Defined.

End TopFindings.

(** ** Age brackets *)

Module AgeBrackets.
Import JS JSDate Config DataProcessor Spec SortFacts ObjFacts EntriesFacts.
Import ProcessorFacts Examples.

(** *** The classification *)

Lemma Qle_bool_inject_Z a b : Qle_bool (inject_Z a) (inject_Z b) = (a <=? b)%Z.
Proof. unfold Qle_bool. simpl. now rewrite !Z.mul_1_r. Qed.

Lemma lt_of_Z a b : lt (of_Z a) (of_Z b) = (a <? b)%Z.
Proof.
  unfold lt, of_Z. rewrite Qle_bool_inject_Z.
  destruct (Z.leb_spec b a), (Z.ltb_spec a b); (reflexivity || lia).
Qed.

Lemma le_of_Z a b : le (of_Z a) (of_Z b) = (a <=? b)%Z.
Proof. unfold le, of_Z. apply Qle_bool_inject_Z. Qed.

(** On a finite age the comparisons are between whole numbers. *)
Lemma categorizeAgeBracket_finite q :
  categorizeAgeBracket (AgeNum (Fin q)) =
  let n := Qfloor q in
  if (n <? 18)%Z then "<18"
  else if (n <=? 24)%Z then "18-24"
  else if (n <=? 34)%Z then "25-34"
  else if (n <=? 44)%Z then "35-44"
  else if (n <=? 54)%Z then "45-54"
  else if (n <=? 64)%Z then "55-64"
  else if (n <=? 74)%Z then "65-74"
  else if (n <=? 84)%Z then "75-84"
  else "85+".
Proof.
  unfold categorizeAgeBracket. cbn [numeric_age isNaN Math_floor].
  rewrite lt_of_Z, !le_of_Z. reflexivity.
Qed.

Lemma categorizeAgeBracket_table q name lo hi :
  In (name, lo, hi) bracket_table ->
  categorizeAgeBracket (AgeNum (Fin q)) = name <-> within lo hi (Qfloor q).
Proof.
  rewrite categorizeAgeBracket_finite. cbv zeta. unfold bracket_table, within.
  intros Hin. simpl in Hin.
  repeat (destruct Hin as [[= <- <- <-]|Hin]); [..|destruct Hin];
    repeat match goal with
           | |- context [(?a <? ?b)%Z] => destruct (Z.ltb_spec a b)
           | |- context [(?a <=? ?b)%Z] => destruct (Z.leb_spec a b)
           end;
    split; try discriminate; try (intros _; lia); try (intros [? ?]; lia);
    try (intros _; split; (exact I || lia)); try reflexivity.
Qed.

Lemma categorizeAgeBracket_Unknown age :
  categorizeAgeBracket age = "Unknown" <-> numeric_age age = None.
Proof.
  unfold categorizeAgeBracket. destruct (numeric_age age) as [n|]; [|tauto].
  split; [|discriminate].
  repeat match goal with |- context [if ?c then _ else _] => destruct c end;
    discriminate.
Qed.

Lemma categorizeAgeBracket_listed age : In (categorizeAgeBracket age) AGE_BRACKETS.
Proof.
  unfold categorizeAgeBracket, AGE_BRACKETS. destruct (numeric_age age) as [n|].
  - repeat match goal with |- context [if ?c then _ else _] => destruct c end;
      simpl; tauto.
  - simpl. tauto.
Qed.

(** *** The loops guarded by [seen] *)

Lemma first_visit_Some seen row e :
  first_visit seen row = Some e <-> patient row = Some e /\ e ∉ seen.
Proof.
  unfold first_visit. destruct (patient row) as [e'|]; [|split; [discriminate|intros [[=] _]]].
  destruct (bool_decide_reflect (e' ∈ seen)) as [Hin|Hin].
  - split; [discriminate|]. intros [[= ->] Hn]. contradiction.
  - split; [intros [= ->]; auto|]. now intros [[= ->] _].
Qed.

Lemma not_elem_Set_add e e' seen :
  e ∉ Set_add e' seen <-> e <> e' /\ e ∉ seen.
Proof. unfold Set_add. rewrite elem_of_union, elem_of_singleton. tauto. Qed.

Lemma bracket_loop grouped seen data :
  fst (foldl (fun '(grouped, seen) row =>
                match first_visit seen row with
                | None => (grouped, seen)
                | Some employee =>
                    let seen := Set_add employee seen in
                    let age := AGE row in
                    let bracket := categorizeAgeBracket age in
                    (bump grouped bracket, seen)
                end) (grouped, seen) data)
  = foldl (group_step bracket_key tally) grouped (first_visits_from seen data).
Proof.
  revert grouped seen. induction data as [|row data IH]; intros grouped seen;
    [reflexivity|].
  simpl. destruct (first_visit seen row) as [e|]; simpl; apply IH.
Qed.

Lemma ages_loop ages seen data :
  fst (foldl (fun '(ages, seen) row =>
                match first_visit seen row with
                | None => (ages, seen)
                | Some employee =>
                    let seen := Set_add employee seen in
                    match numeric_age (AGE row) with
                    | Some age => (ages ++ [age], seen)
                    | None => (ages, seen)
                    end
                end) (ages, seen) data)
  = ages ++ omap (fun row => numeric_age (AGE row)) (first_visits_from seen data).
Proof.
  revert ages seen. induction data as [|row data IH]; intros ages seen; simpl;
    [now rewrite app_nil_r|].
  destruct (first_visit seen row) as [e|]; simpl; [|apply IH].
  destruct (numeric_age (AGE row)) as [age|]; rewrite IH; [|reflexivity].
  now rewrite <- app_assoc.
Qed.

Lemma in_bracket_get b rows :
  default 0 (get (group bracket_key tally rows) b) = in_bracket b rows.
Proof.
  rewrite get_group, value_of_tally. unfold in_bracket.
  now destruct (rows_of bracket_key b rows).
Qed.

(** The result of [getAgeBracketDistribution] in terms of the first
    visits. *)
Lemma getAgeBracketDistribution_eq data :
  getAgeBracketDistribution data =
  map (fun b => (b, in_bracket b (first_visits data)))
    (List.filter (fun b => negb (Nat.eqb (in_bracket b (first_visits data)) 0))
       AGE_BRACKETS).
Proof.
  unfold getAgeBracketDistribution.
  match goal with |- context [foldl ?f ?a data] => set (x := foldl f a data) end.
  assert (Hloop : fst x = foldl (group_step bracket_key tally) []
                            (first_visits_from ∅ data))
    by (subst x; apply bracket_loop).
  destruct x as [grouped seen]. simpl in Hloop. subst grouped.
  change (foldl (group_step bracket_key tally) [] (first_visits_from ∅ data))
    with (group bracket_key tally (first_visits data)).
  erewrite map_ext; [erewrite filter_ext; [reflexivity|]|];
    intros b; simpl; now rewrite in_bracket_get.
Qed.

Lemma getAgeDistribution_eq data :
  getAgeDistribution data =
  omap (fun row => numeric_age (AGE row)) (first_visits data).
Proof.
  unfold getAgeDistribution.
  match goal with |- context [foldl ?f ?a data] => set (x := foldl f a data) end.
  assert (Hloop : fst x = [] ++ omap (fun row => numeric_age (AGE row))
                                  (first_visits_from ∅ data))
    by (subst x; apply ages_loop).
  destruct x as [ages seen]. simpl in Hloop. now subst ages.
Qed.

(** *** The first visits *)

Lemma first_visits_from_In seen data row :
  In row (first_visits_from seen data) ->
  In row data /\ exists e, patient row = Some e /\ e ∉ seen.
Proof.
  revert seen. induction data as [|r data IH]; intros seen; simpl; [tauto|].
  destruct (first_visit seen r) as [e|] eqn:Hfv.
  - intros [<-|Hin].
    + apply first_visit_Some in Hfv. eauto.
    + apply IH in Hin as (Hin & e' & He' & Hn). split; [now right|].
      exists e'. split; [assumption|]. now apply not_elem_Set_add in Hn.
  - intros Hin. apply IH in Hin as [Hin He]. split; [now right|assumption].
Qed.

Lemma first_visits_from_NoDup seen data :
  List.NoDup (omap patient (first_visits_from seen data)).
Proof.
  revert seen. induction data as [|r data IH]; intros seen; simpl; [constructor|].
  destruct (first_visit seen r) as [e|] eqn:Hfv; [|apply IH].
  apply first_visit_Some in Hfv as [Hp _]. simpl. rewrite Hp.
  constructor; [|apply IH].
  rewrite <- list_elem_of_In, list_elem_of_omap.
  intros (r' & Hin%list_elem_of_In & Hp').
  apply first_visits_from_In in Hin as (_ & e' & He' & Hn).
  assert (e' = e) by congruence. subst e'. apply not_elem_Set_add in Hn. tauto.
Qed.

Lemma first_visits_from_first seen data row e :
  In row data -> patient row = Some e -> e ∉ seen ->
  exists first l1 l2,
    data = l1 ++ first :: l2 /\ patient first = Some e /\
    (forall r, In r l1 -> patient r <> Some e) /\
    In first (first_visits_from seen data).
Proof.
  revert seen. induction data as [|r data IH]; intros seen Hin Hp Hn; [destruct Hin|].
  destruct (decide (patient r = Some e)) as [Hr|Hr].
  - exists r, [], data. simpl. repeat split; [assumption|tauto|].
    assert (Hfv : first_visit seen r = Some e) by now apply first_visit_Some.
    rewrite Hfv. now left.
  - destruct Hin as [->|Hin]; [contradiction|].
    assert (Hrest : forall seen', e ∉ seen' ->
              exists first l1 l2,
                r :: data = l1 ++ first :: l2 /\ patient first = Some e /\
                (forall r0, In r0 l1 -> patient r0 <> Some e) /\
                In first (first_visits_from seen' data)).
    { intros seen' Hn'. destruct (IH seen' Hin Hp Hn') as (f & l1 & l2 & -> & Hf & Hl1 & Hfin).
      exists f, (r :: l1), l2. repeat split; auto.
      intros r0 [<-|Hr0]; auto. }
    simpl. destruct (first_visit seen r) as [e'|] eqn:Hfv.
    + apply first_visit_Some in Hfv as [He' _].
      destruct (Hrest (Set_add e' seen)) as (f & l1 & l2 & Heq & Hf & Hl1 & Hfin).
      { apply not_elem_Set_add. split; [congruence|assumption]. }
      exists f, l1, l2. repeat split; auto. now right.
    + destruct (Hrest seen Hn) as (f & l1 & l2 & Heq & Hf & Hl1 & Hfin).
      exists f, l1, l2. repeat split; auto.
Qed.

Lemma patients_elem rows e :
  e ∈ patients rows <-> exists row, In row rows /\ patient row = Some e.
Proof.
  unfold patients. rewrite elem_of_list_to_set, list_elem_of_omap.
  split; intros (row & Hin & Hp); exists row; split; auto; now apply list_elem_of_In.
Qed.

Lemma sum_nonzero {A} (g : A -> nat) l :
  list_sum (map g (List.filter (fun b => negb (Nat.eqb (g b) 0)) l)) = list_sum (map g l).
Proof.
  induction l as [|x l IH]; simpl; [reflexivity|].
  destruct (Nat.eqb_spec (g x) 0) as [Hz|Hz]; simpl; rewrite IH; lia.
Qed.

Lemma in_bracket_cons b row rows :
  in_bracket b (row :: rows) =
  (if String.eqb (categorizeAgeBracket (AGE row)) b then 1 else 0) + in_bracket b rows.
Proof.
  unfold in_bracket, rows_of, bracket_key. simpl.
  destruct (String.eqb_spec (categorizeAgeBracket (AGE row)) b) as [->|Hne].
  - now rewrite bool_decide_eq_true_2.
  - rewrite bool_decide_eq_false_2; [reflexivity|congruence].
Qed.

Lemma known_brackets_sum rows :
  list_sum (map (fun b => in_bracket b rows)
              (List.filter (fun b => negb (String.eqb b "Unknown")) AGE_BRACKETS))
  = List.length (omap (fun row => numeric_age (AGE row)) rows).
Proof.
  induction rows as [|row rows IH]; [reflexivity|].
  cbn [AGE_BRACKETS List.filter String.eqb Ascii.eqb Bool.eqb negb map list_sum fold_right] in *.
  rewrite !in_bracket_cons.
  pose proof (categorizeAgeBracket_listed (AGE row)) as Hl.
  pose proof (categorizeAgeBracket_Unknown (AGE row)) as Hu.
  cbn [omap list_omap].
  destruct (numeric_age (AGE row)) as [age|];
    unfold AGE_BRACKETS in Hl; simpl in Hl;
    repeat (destruct Hl as [Hb|Hl]; [rewrite <- Hb in *|]); try destruct Hl;
    try (destruct Hu as [Hu _]; specialize (Hu eq_refl); discriminate);
    try (destruct Hu as [_ Hu]; specialize (Hu eq_refl); discriminate);
    simpl; lia.
Qed.


Lemma first_visits_patients data : patients (first_visits data) = patients data.
Proof.
  apply set_eq. intros e. rewrite !patients_elem. split.
  - intros (row & Hin & Hp). apply first_visits_from_In in Hin as [Hin _]. eauto.
  - intros (row & Hin & Hp).
    destruct (first_visits_from_first ∅ data row e Hin Hp) as (f & _ & _ & _ & Hf & _ & Hfin);
      [apply not_elem_of_empty|]. eauto.
Qed.

Lemma first_visits_length data :
  List.length (first_visits data) = size (patients data).
Proof.
  rewrite <- first_visits_patients. unfold patients.
  rewrite size_list_to_set by apply NoDup_ListNoDup, first_visits_from_NoDup.
  unfold first_visits.
  assert (Hall : forall row, In row (first_visits_from ∅ data) -> is_Some (patient row)).
  { intros row (_ & e & He & _)%first_visits_from_In. eauto. }
  induction (first_visits_from ∅ data) as [|r rows IH]; [reflexivity|].
  cbn [omap list_omap]. destruct (Hall r) as [e He]; [now left|]. rewrite He. simpl.
  f_equal. apply IH. intros row Hrow. apply Hall. now right.
Qed.

Lemma all_brackets_sum rows :
  list_sum (map (fun b => in_bracket b rows) AGE_BRACKETS) = List.length rows.
Proof.
  induction rows as [|row rows IH]; [reflexivity|].
  unfold AGE_BRACKETS in *. cbn [map list_sum] in *. rewrite !in_bracket_cons.
  pose proof (categorizeAgeBracket_listed (AGE row)) as Hin.
  unfold AGE_BRACKETS in Hin. cbn [In] in Hin.
  cbn -[in_bracket Nat.add] in IH.
  repeat (destruct Hin as [Hb|Hin];
          [rewrite <- Hb; cbn -[in_bracket Nat.add]; lia|]).
  destruct Hin.
Qed.

(** C5.  [getAgeBracketDistribution] acts on the first record of each
    distinct non-empty patient number and on no other record; it files
    the patient under the bracket of that record's age, "Unknown" when
    the age is not a number and else the bracket whose bounds hold the
    floored age, the first bracket for [-Infinity] and the last for
    [Infinity]: always one of the ten of [AGE_BRACKETS]; it returns the
    brackets that have a member, with their counts, in the fixed order
    of [AGE_BRACKETS].  The counts add up to the number of distinct
    patients: each is counted once. *)
Theorem getAgeBracketDistribution_first_visits data :
  let firsts := first_visits data in
  (forall e, e ∈ patients data ->
     exists first l1 l2,
       data = l1 ++ first :: l2 /\ patient first = Some e /\
       (forall r, In r l1 -> patient r <> Some e) /\ In first firsts) /\
  (forall row, In row firsts -> In row data /\ is_Some (patient row)) /\
  List.NoDup (omap patient firsts) /\
  (forall age, categorizeAgeBracket age = "Unknown" <-> numeric_age age = None) /\
  (forall q name lo hi,
     In (name, lo, hi) bracket_table ->
     categorizeAgeBracket (AgeNum (Fin q)) = name <-> within lo hi (Qfloor q)) /\
  getAgeBracketDistribution data =
    map (fun b => (b, in_bracket b firsts))
      (List.filter (fun b => negb (Nat.eqb (in_bracket b firsts) 0)) AGE_BRACKETS) /\
  (forall age, In (categorizeAgeBracket age) AGE_BRACKETS) /\
  categorizeAgeBracket (AgeNum NegInf) = "<18" /\
  categorizeAgeBracket (AgeNum PosInf) = "85+" /\
  List.length firsts = size (patients data) /\
  list_sum (map (fun b => in_bracket b firsts) AGE_BRACKETS) = List.length firsts /\
  list_sum (map snd (getAgeBracketDistribution data)) = size (patients data).
Proof.
  intros firsts. subst firsts.
  split; [|split; [|split; [|split; [|split; [|split]]]]].
  - intros e (row & Hin & Hp)%patients_elem.
    apply (first_visits_from_first ∅ data row e Hin Hp). apply not_elem_of_empty.
  - intros row (Hin & e & He & _)%first_visits_from_In. eauto.
  - apply first_visits_from_NoDup.
  - apply categorizeAgeBracket_Unknown.
  - intros q name lo hi. apply categorizeAgeBracket_table.
  - apply getAgeBracketDistribution_eq.
  - split; [apply categorizeAgeBracket_listed|].
    split; [reflexivity|]. split; [reflexivity|].
    split; [apply first_visits_length|].
    split; [apply all_brackets_sum|].
    rewrite getAgeBracketDistribution_eq, map_map. cbn [snd].
    rewrite (sum_nonzero (fun b => in_bracket b (first_visits data))).
    rewrite all_brackets_sum. apply first_visits_length.
Qed.

Lemma filter_comm {A} (p q : A -> bool) l :
  List.filter p (List.filter q l) = List.filter q (List.filter p l).
Proof.
  induction l as [|x l IH]; simpl; [reflexivity|].
  destruct (p x) eqn:Hp, (q x) eqn:Hq; simpl; rewrite ?Hp, ?Hq, IH; reflexivity.
Qed.

Lemma filter_map_fst (p : string -> bool) (g : string -> nat) l :
  List.filter (fun e => p (fst e)) (map (fun b => (b, g b)) l) =
  map (fun b => (b, g b)) (List.filter p l).
Proof.
  induction l as [|x l IH]; simpl; [reflexivity|].
  destruct (p x); simpl; now rewrite IH.
Qed.

(** C8.  The counts of the brackets other than "Unknown" returned by
    [getAgeBracketDistribution] add up to the number of distinct
    non-empty patient numbers whose first record has a numeric age: the
    length of [getAgeDistribution], which holds exactly those ages, the
    first records being one per distinct patient. *)
Theorem known_brackets_partition data :
  list_sum (map snd
    (List.filter (fun e => negb (String.eqb (fst e) "Unknown"))
       (getAgeBracketDistribution data)))
  = List.length (getAgeDistribution data) /\
  getAgeDistribution data =
    omap (fun row => numeric_age (AGE row)) (first_visits data) /\
  List.NoDup (omap patient (first_visits data)) /\
  List.length (first_visits data) = size (patients data).
Proof.
  split; [|split; [|split]].
  - rewrite getAgeBracketDistribution_eq, getAgeDistribution_eq.
    rewrite (filter_map_fst (fun b => negb (String.eqb b "Unknown"))
               (fun b => in_bracket b (first_visits data))).
    rewrite filter_comm, map_map. simpl fst. cbn [snd].
    rewrite (sum_nonzero (fun b => in_bracket b (first_visits data))).
    apply known_brackets_sum.
  - apply getAgeDistribution_eq.
  - apply first_visits_from_NoDup.
  - apply first_visits_length.
Qed.

End AgeBrackets.

(** ** Loading a file *)

Module LoaderFacts.
Import JS Config DataLoader App Examples.

(** C9.  For a file whose lowercased extension is none of csv, xlsx and
    xls, [parseFile] rejects with the unsupported-format error and starts
    no parser, whatever the parsers would have answered; the upload
    handler then leaves [fullData] and [filteredData] as they were and
    shows the error. *)
Theorem parseFile_unsupported `{Host} `{Parsers} (file : File) (a : app) :
  includes ["csv"; "xlsx"; "xls"] (extension_of file) = false ->
  parseFile file = ([], Rejected unsupported) /\
  fst (fileInput_change (Some file) a) = [] /\
  fullData (snd (fileInput_change (Some file) a)) = fullData a /\
  filteredData (snd (fileInput_change (Some file) a)) = filteredData a /\
  fileStatus (snd (fileInput_change (Some file) a)) = Failed unsupported.
Proof.
  intros Hext.
  assert (Hparse : parseFile file = ([], Rejected unsupported)).
  { unfold parseFile. unfold includes in *. simpl in *.
    apply orb_false_iff in Hext as [Hcsv Hext].
    rewrite Hcsv, Hext. reflexivity. }
  split; [exact Hparse|].
  unfold fileInput_change. rewrite Hparse. simpl. repeat split; reflexivity.
Qed.

Lemma parseFile_unsupported_witness :
  parseFile (H := manila) (H0 := eager_parsers) report_pdf = ([], Rejected unsupported) /\
  fullData (snd (fileInput_change (H := manila) (H0 := eager_parsers)
                   (Some report_pdf) loaded_app)) = scenario.
Proof.
  destruct (parseFile_unsupported (H := manila) (H0 := eager_parsers)
              report_pdf loaded_app) as (Wp & _ & Wfull & _).
  - reflexivity.
  - split; [exact Wp|exact Wfull].
Defined.

End LoaderFacts.

(** ** The other roll-ups of [DataProcessor] *)

Module MoreRollUps.
Import JS JSDate Config DataProcessor Spec SortFacts ObjFacts EntriesFacts.
Import ProcessorFacts RangeFacts AgeBrackets Examples.

Lemma list_sum_Permutation l l' : Permutation l l' -> list_sum l = list_sum l'.
Proof. induction 1; simpl; lia. Qed.

Lemma first_visits_from_length seen data :
  List.length (first_visits_from seen data) <= List.length data.
Proof.
  revert seen. induction data as [|row data IH]; intros seen; simpl; [lia|].
  destruct (first_visit seen row); simpl; [specialize (IH (Set_add s seen))|specialize (IH seen)]; lia.
Qed.

(** X1.  The counts of [getAgeBracketDistribution], "Unknown" included, add up
    to [getUniquePatients]: the number of distinct non-empty patient
    numbers, never more than the number of records. *)
Theorem bracket_counts_total data :
  list_sum (map snd (getAgeBracketDistribution data)) = getUniquePatients data /\
  getUniquePatients data = size (patients data) /\
  getUniquePatients data <= List.length data.
Proof.
  assert (Hu : getUniquePatients data = size (patients data)).
  { unfold getUniquePatients, patients. destruct data; reflexivity. }
  split; [|split; [exact Hu|]].
  - rewrite Hu, getAgeBracketDistribution_eq, map_map. cbn [snd].
    rewrite (sum_nonzero (fun b => in_bracket b (first_visits data))).
    rewrite all_brackets_sum. apply first_visits_length.
  - rewrite Hu, <- first_visits_length. apply first_visits_from_length.
Qed.


(** *** Rankings by patients and by records *)

Lemma ranking_sorted (E : string -> string -> Prop) (l : list (string * nat)) :
  StronglySorted (fun a b => E (fst a) (fst b)) l ->
  StronglySorted (ranked E) (sort by_count_desc l).
Proof.
  intros Hl.
  rewrite (sort_ext by_count_desc
             (fun a b => (fun e => - Z.of_nat (snd e)) a - (fun e => - Z.of_nat (snd e)) b)%Z)
    by (intros a b; unfold by_count_desc; lia).
  eapply StronglySorted_weaken; [|apply sort_key_then, Hl].
  intros a b _ _ [Hlt|[Heq He]]; [left; lia|right; split; [lia|exact He]].
Qed.

Lemma ranking_keys_NoDup {V} (cmp : string * V -> string * V -> Z) l :
  List.NoDup (map fst l) -> List.NoDup (map fst (sort cmp l)).
Proof.
  intros Hl. eapply Permutation_NoDup; [|exact Hl].
  apply Permutation_map. symmetry. apply sort_Permutation.
Qed.

(** The ranking the roll-ups by distinct patients cut their answer from. *)
Lemma patient_ranking kf data topN :
  (0 <= topN)%Z ->
  exists ranking,
    slice0 topN (sort by_count_desc (sizes (Object_entries (group kf absorb data))))
      = firstn (Z.to_nat topN) ranking /\
    (forall k c,
       In (k, c) ranking <->
       rows_of kf k data <> [] /\ c = size (patients (rows_of kf k data))) /\
    List.NoDup (map fst ranking) /\
    StronglySorted (ranked (enum_before (omap kf data))) ranking.
Proof.
  intros HtopN.
  exists (sort by_count_desc (sizes (Object_entries (group kf absorb data)))).
  split; [|split; [|split]].
  - now apply slice0_firstn.
  - intros k c. rewrite sort_In. apply roll_up_In.
  - apply ranking_keys_NoDup. rewrite sizes_keys.
    apply Object_entries_NoDup, keys_group_NoDup.
  - apply ranking_sorted. unfold sizes. apply StronglySorted_map.
    exact (group_entries_order kf absorb data).
Qed.

Lemma set_sum (o : obj nat) k v :
  list_sum (map snd (set o k v)) + default 0 (get o k) = list_sum (map snd o) + v.
Proof.
  induction o as [|[k0 v0] o IH]; simpl; [lia|].
  destruct (String.eqb k k0); simpl; lia.
Qed.

(** A loop that files every record counts every record once. *)
Lemma tally_total kf (data : list Config.row) :
  (forall row, In row data -> is_Some (kf row)) ->
  list_sum (map snd (group kf tally data)) = List.length data.
Proof.
  induction data as [|row data IH] using rev_ind; intros Hk; [reflexivity|].
  rewrite group_snoc, length_app. simpl.
  destruct (Hk row) as [k Hrow]; [apply in_or_app; right; now left|].
  unfold group_step. rewrite Hrow.
  pose proof (set_sum (group kf tally data) k (tally (get (group kf tally data) k) row)) as Hs.
  unfold tally in *. rewrite IH in Hs; [lia|].
  intros r Hr. apply Hk, in_or_app. now left.
Qed.

Lemma tally_count kf (data : list Config.row) :
  list_sum (map snd (group kf tally data)) = List.length (omap kf data).
Proof.
  induction data as [|row data IH] using rev_ind; [reflexivity|].
  rewrite group_snoc, omap_app, length_app. unfold group_step. simpl omap.
  destruct (kf row) as [k|]; simpl List.length; [|lia].
  pose proof (set_sum (group kf tally data) k (tally (get (group kf tally data) k) row)) as Hs.
  unfold tally in *. lia.
Qed.

(** The ranking the roll-ups by records cut their answer from. *)
Lemma record_ranking kf (data : list Config.row) topN :
  (0 <= topN)%Z ->
  (forall row, In row data -> is_Some (kf row)) ->
  exists ranking,
    slice0 topN (sort by_count_desc (Object_entries (group kf tally data)))
      = firstn (Z.to_nat topN) ranking /\
    (forall k c,
       In (k, c) ranking <-> c = List.length (rows_of kf k data) /\ c <> 0) /\
    List.NoDup (map fst ranking) /\
    StronglySorted (ranked (enum_before (omap kf data))) ranking /\
    list_sum (map snd ranking) = List.length data.
Proof.
  intros HtopN Hk.
  exists (sort by_count_desc (Object_entries (group kf tally data))).
  split; [|split; [|split; [|split]]].
  - now apply slice0_firstn.
  - intros k c. rewrite sort_In. apply TopFindings.tally_In.
  - apply ranking_keys_NoDup, Object_entries_NoDup, keys_group_NoDup.
  - apply ranking_sorted, group_entries_order.
  - rewrite <- (tally_total kf data Hk). apply list_sum_Permutation, Permutation_map.
    etransitivity; [apply sort_Permutation|apply Object_entries_Permutation].
Qed.

Section WithHost.
Context `{Host}.

Lemma getCompanyDistribution_group data topN :
  getCompanyDistribution data topN =
  slice0 topN (sort by_count_desc (sizes (Object_entries (group company_key absorb data)))).
Proof.
  unfold getCompanyDistribution, group. do 4 f_equal.
  apply foldl_ext. intros g row. unfold group_step, company_key.
  destruct (truthy (COMPANY row)); simpl; [now rewrite collect_set|reflexivity].
Qed.

Lemma getPurposeDistribution_group data topN :
  getPurposeDistribution data topN =
  slice0 topN (sort by_count_desc (sizes (Object_entries (group purpose_key absorb data)))).
Proof.
  unfold getPurposeDistribution, group. do 4 f_equal.
  apply foldl_ext. intros g row. unfold group_step, purpose_key.
  destruct (truthy (PURPOSE row)); simpl; [now rewrite collect_set|reflexivity].
Qed.

Lemma getICDDistribution_group data topN :
  getICDDistribution data topN =
  slice0 topN (sort by_count_desc (Object_entries (group icd_key tally data))).
Proof.
  reflexivity.
Qed.

Lemma getLabelDistribution_group data topN :
  getLabelDistribution data topN =
  slice0 topN (sort by_count_desc (Object_entries (group label_key tally data))).
Proof.
  reflexivity.
Qed.

(** X2.  [getCompanyDistribution] leaves out the records without a company,
    groups the others by company (as a property key), counts the
    distinct non-empty patient numbers of each group, ranks the groups by
    descending count (equal counts in the order [Object.entries] lists
    the keys) and returns the first [topN].  Stated for companies that
    are no property name inherited by plain objects, and [topN >= 0]. *)
Theorem getCompanyDistribution_ranking data topN :
  plain_keys company_key data ->
  (0 <= topN)%Z ->
  exists ranking,
    getCompanyDistribution data topN = firstn (Z.to_nat topN) ranking /\
    (forall row, company_key row = None <-> truthy (COMPANY row) = false) /\
    (forall k c,
       In (k, c) ranking <->
       rows_of company_key k data <> [] /\
       c = size (patients (rows_of company_key k data))) /\
    List.NoDup (map fst ranking) /\
    StronglySorted (ranked (enum_before (omap company_key data))) ranking.
Proof.
  intros _ HtopN.
  destruct (patient_ranking company_key data topN HtopN) as (ranking & Hout & Hrest).
  exists ranking. split; [now rewrite getCompanyDistribution_group|].
  split; [|exact Hrest].
  intros row. unfold company_key. destruct (truthy (COMPANY row)); split; congruence.
Qed.

(** X3.  [getPurposeDistribution] leaves out the records without a purpose
    of visit, groups the others by purpose (as a property key), counts
    the distinct non-empty patient numbers of each group, ranks the
    groups by descending count (equal counts in the order
    [Object.entries] lists the keys) and returns the first [topN].
    Stated for purposes that are no property name inherited by plain
    objects, and [topN >= 0]. *)
Theorem getPurposeDistribution_ranking data topN :
  plain_keys purpose_key data ->
  (0 <= topN)%Z ->
  exists ranking,
    getPurposeDistribution data topN = firstn (Z.to_nat topN) ranking /\
    (forall row, purpose_key row = None <-> truthy (PURPOSE row) = false) /\
    (forall k c,
       In (k, c) ranking <->
       rows_of purpose_key k data <> [] /\
       c = size (patients (rows_of purpose_key k data))) /\
    List.NoDup (map fst ranking) /\
    StronglySorted (ranked (enum_before (omap purpose_key data))) ranking.
Proof.
  intros _ HtopN.
  destruct (patient_ranking purpose_key data topN HtopN) as (ranking & Hout & Hrest).
  exists ranking. split; [now rewrite getPurposeDistribution_group|].
  split; [|exact Hrest].
  intros row. unfold purpose_key. destruct (truthy (PURPOSE row)); split; congruence.
Qed.

(** X4.  [getICDDistribution] counts records, not patients: every record is
    counted once, under its ICD code or under "No ICD" when it has none,
    so the counts of the full ranking add up to the number of records;
    the ranking is by descending count and the first [topN] are
    returned. *)
Theorem getICDDistribution_ranking data topN :
  plain_keys icd_key data ->
  (0 <= topN)%Z ->
  exists ranking,
    getICDDistribution data topN = firstn (Z.to_nat topN) ranking /\
    (forall row, truthy (ICD row) = false -> icd_key row = Some "No ICD") /\
    (forall k c,
       In (k, c) ranking <-> c = List.length (rows_of icd_key k data) /\ c <> 0) /\
    List.NoDup (map fst ranking) /\
    StronglySorted (ranked (enum_before (omap icd_key data))) ranking /\
    list_sum (map snd ranking) = List.length data.
Proof.
  intros _ HtopN.
  destruct (record_ranking icd_key data topN HtopN) as (ranking & Hout & Hrest).
  { intros row _. unfold icd_key. eauto. }
  exists ranking. split; [now rewrite getICDDistribution_group|].
  split; [|exact Hrest].
  intros row Hicd. unfold icd_key, or_else. now rewrite Hicd.
Qed.

(** X5.  [getLabelDistribution] counts records too: every record is counted
    once, under its diagnosis label or under "Unclassified" when it has
    none, so the counts of the full ranking add up to the number of
    records; the ranking is by descending count and the first [topN] are
    returned. *)
Theorem getLabelDistribution_ranking data topN :
  plain_keys label_key data ->
  (0 <= topN)%Z ->
  exists ranking,
    getLabelDistribution data topN = firstn (Z.to_nat topN) ranking /\
    (forall row, truthy (LABEL row) = false -> label_key row = Some "Unclassified") /\
    (forall k c,
       In (k, c) ranking <-> c = List.length (rows_of label_key k data) /\ c <> 0) /\
    List.NoDup (map fst ranking) /\
    StronglySorted (ranked (enum_before (omap label_key data))) ranking /\
    list_sum (map snd ranking) = List.length data.
Proof.
  intros _ HtopN.
  destruct (record_ranking label_key data topN HtopN) as (ranking & Hout & Hrest).
  { intros row _. unfold label_key. eauto. }
  exists ranking. split; [now rewrite getLabelDistribution_group|].
  split; [|exact Hrest].
  intros row Hlabel. unfold label_key, or_else. now rewrite Hlabel.
Qed.

(** *** The week *)

Lemma weekday_index t :
  let day := WeekDay (LocalTime t) in
  (if (day =? 0)%Z then 6 else day - 1)%Z = ((Day (LocalTime t) + 3) mod 7)%Z.
Proof.
  unfold WeekDay. generalize (Day (LocalTime t)). intros n. cbv zeta.
  destruct (Z.eqb_spec ((n + 4) mod 7) 0); Z.div_mod_to_equations; lia.
Qed.

Lemma getWeekdayDistribution_eq data :
  getWeekdayDistribution data =
  map (fun w => (w, size (patients (rows_of weekday_key w data)))) WEEKDAYS.
Proof.
  unfold getWeekdayDistribution.
  replace (foldl _ [] data) with (group weekday_key absorb data).
  - apply map_ext. intros w. f_equal.
    rewrite get_group, value_of_absorb.
    now destruct (rows_of weekday_key w data).
  - unfold group. apply foldl_ext. intros g row. unfold group_step, weekday_key.
    destruct (DATE row); [reflexivity|]. now rewrite collect_set.
Qed.

(** X6.  [getWeekdayDistribution] always answers with the seven days from
    Monday to Sunday, in that order, each with the number of distinct
    non-empty patient numbers among the records dated on that day of the
    week in local time (0 when there is none).  A valid date falls on the
    day of the week its local day number gives, day 0 (1970-01-01) being
    a Thursday; a record carrying an Invalid Date is counted under no
    day. *)
Theorem getWeekdayDistribution_week data :
  map fst (getWeekdayDistribution data) = WEEKDAYS /\
  (forall w c,
     In (w, c) (getWeekdayDistribution data) <->
     In w WEEKDAYS /\ c = size (patients (rows_of weekday_key w data))) /\
  (forall t,
     weekday_of (Some t)
       = nth (Z.to_nat ((Day (LocalTime t) + 3) mod 7)) WEEKDAYS "undefined" /\
     In (weekday_of (Some t)) WEEKDAYS) /\
  ~ In (weekday_of None) WEEKDAYS.
Proof.
  rewrite getWeekdayDistribution_eq. split; [|split; [|split]].
  - rewrite map_map. simpl. reflexivity.
  - intros w c. rewrite in_map_iff. split.
    + intros (w' & [= <- <-] & Hw). now split.
    + intros [Hw ->]. now exists w.
  - intros t.
    assert (Hw : weekday_of (Some t)
                 = nth (Z.to_nat ((Day (LocalTime t) + 3) mod 7)) WEEKDAYS "undefined").
    { unfold weekday_of, getDay. cbn [option_map]. now rewrite weekday_index. }
    split; [exact Hw|]. rewrite Hw. apply nth_In.
    pose proof (Z.mod_pos_bound (Day (LocalTime t) + 3) 7 ltac:(lia)).
    unfold WEEKDAYS. cbn [List.length]. lia.
  - unfold weekday_of, getDay, WEEKDAYS. simpl.
    intros Hin. repeat (destruct Hin as [Hin|Hin]; [discriminate|]). exact Hin.
Qed.

(** *** Records and patients per day *)

Lemma daily_step_set grouped k row :
  daily_step grouped k row = set grouped k (record (get grouped k) row).
Proof.
  unfold daily_step, record, absorb.
  destruct (get grouped k) as [[records patients]|] eqn:Hg; simpl.
  - rewrite Hg. rewrite get_set_eq.
    destruct (patient row); simpl; now rewrite ?set_set.
  - rewrite !get_set_eq.
    destruct (patient row); simpl; now rewrite ?get_set_eq, ?set_set.
Qed.

(** The loop over the days: it stops with an exception at the first
    Invalid Date, and otherwise is a grouping by day. *)
Lemma day_loop {V} (step : obj V -> string -> Config.row -> obj V)
    (h : option V -> Config.row -> V) data :
  (forall g k row, step g k row = set g k (h (get g k) row)) ->
  foldl (fun acc row =>
           grouped ← acc;
           match DATE row with
           | NoDate => Some grouped
           | ADate date =>
               dateKey ← formatDateKey date;
               Some (step grouped dateKey row)
           end) (Some []) data
  = if forallb (fun row => match DATE row with ADate None => false | _ => true end) data
    then Some (group day_key h data) else None.
Proof.
  intros Hstep. induction data as [|row data IH] using rev_ind; [reflexivity|].
  rewrite foldl_app, forallb_app, group_snoc, IH. cbn [foldl forallb].
  destruct (forallb _ data); cbn [mbind option_bind andb]; [|reflexivity].
  unfold group_step, day_key. destruct (DATE row) as [|[t|]]; [reflexivity| |reflexivity].
  destruct (formatDateKey_valid t) as [k Hk]. rewrite Hk. cbn.
  now rewrite Hstep.
Qed.

Lemma dates_valid_forallb data :
  forallb (fun row => match DATE row with ADate None => false | _ => true end) data = true
  <-> dates_valid data.
Proof.
  unfold dates_valid. rewrite forallb_forall, List.Forall_forall.
  split; intros Hv row Hrow; specialize (Hv row Hrow);
    destruct (DATE row) as [|[t|]]; congruence.
Qed.

Lemma value_of_record kf k data :
  value_of kf record k data =
  match rows_of kf k data with
  | [] => None
  | _ :: _ => Some (List.length (rows_of kf k data), patients (rows_of kf k data))
  end.
Proof.
  induction data as [|row data IH] using rev_ind; [reflexivity|].
  rewrite value_of_snoc, rows_of_snoc, IH.
  destruct (bool_decide (kf row = Some k)).
  - destruct (rows_of kf k data) as [|r rs] eqn:Hrs.
    + simpl. unfold record, absorb, patients, Set_add. simpl.
      destruct (patient row); reflexivity.
    + unfold record. cbn [option_map fst snd default].
      rewrite <- patients_snoc, length_app. reflexivity.
  - rewrite app_nil_r. reflexivity.
Qed.

Section Values.
Context {V W : Type} (f : V -> W).

Local Abbreviation on_values := (on_values f).

Lemma get_on_values o k : get (on_values o) k = option_map f (get o k).
Proof.
  induction o as [|[k0 v0] o IH]; simpl; [reflexivity|].
  destruct (String.eqb k k0); [reflexivity|exact IH].
Qed.

Lemma set_on_values o k v : set (on_values o) k (f v) = on_values (set o k v).
Proof.
  induction o as [|[k0 v0] o IH]; simpl; [reflexivity|].
  destruct (String.eqb k k0); simpl; [reflexivity|now rewrite IH].
Qed.

Lemma filter_on_values (p : string * W -> bool) (p' : string * V -> bool) o :
  (forall k v, p (k, f v) = p' (k, v)) ->
  List.filter p (on_values o) = on_values (List.filter p' o).
Proof.
  intros Hp. induction o as [|[k0 v0] o IH]; simpl; [reflexivity|].
  rewrite Hp. destruct (p' (k0, v0)); simpl; now rewrite IH.
Qed.

End Values.

Lemma insert_sorted_map {A B} (g : A -> B) (cmp : B -> B -> Z) x l :
  insert_sorted cmp (g x) (map g l)
  = map g (insert_sorted (fun a b => cmp (g a) (g b)) x l).
Proof.
  induction l as [|y l IH]; simpl; [reflexivity|].
  destruct (cmp (g x) (g y) <=? 0)%Z; simpl; [reflexivity|now rewrite IH].
Qed.

Lemma sort_map {A B} (g : A -> B) (cmp : B -> B -> Z) l :
  sort cmp (map g l) = map g (sort (fun a b => cmp (g a) (g b)) l).
Proof.
  induction l as [|x l IH]; [reflexivity|].
  unfold sort in *. simpl. rewrite IH. apply insert_sorted_map.
Qed.

Lemma Object_entries_on_values {V W} (f : V -> W) (o : obj V) :
  Object_entries (on_values f o) = on_values f (Object_entries o).
Proof.
  unfold Object_entries.
  rewrite (filter_on_values f is_index is_index o) by reflexivity.
  rewrite (filter_on_values f (fun e => negb (is_index e)) (fun e => negb (is_index e)) o)
    by reflexivity.
  unfold on_values. rewrite map_app. f_equal.
  rewrite sort_map. reflexivity.
Qed.

Lemma group_on_values {V W} (f : V -> W) kf (h : option V -> Config.row -> V)
    (h' : option W -> Config.row -> W) data :
  (forall acc row, f (h acc row) = h' (option_map f acc) row) ->
  on_values f (group kf h data) = group kf h' data.
Proof.
  intros Hf. induction data as [|row data IH] using rev_ind; [reflexivity|].
  rewrite !group_snoc. unfold group_step. destruct (kf row) as [k|]; [|exact IH].
  rewrite <- IH, <- set_on_values, Hf, get_on_values. reflexivity.
Qed.

Lemma patients_size_le rows : size (patients rows) <= List.length rows.
Proof. rewrite <- first_visits_length. apply first_visits_from_length. Qed.

Lemma dated_count data :
  dates_valid data ->
  List.length (omap day_key data) = List.length (List.filter dated data).
Proof.
  induction 1 as [|row data Hrow Hdata IH]; [reflexivity|].
  change (omap day_key (row :: data))
    with (match day_key row with
          | Some k => k :: omap day_key data
          | None => omap day_key data
          end).
  change (List.filter dated (row :: data))
    with (if dated row then row :: List.filter dated data else List.filter dated data).
  assert (Hk : (day_key row = None /\ dated row = false) \/
               (exists k, day_key row = Some k /\ dated row = true)).
  { unfold day_key, dated. destruct (DATE row) as [|[t|]]; [now left| |congruence].
    right. destruct (formatDateKey_valid t) as [k ->]. eauto. }
  destruct Hk as [[-> ->]|(k & -> & ->)]; cbn [List.length]; now rewrite IH.
Qed.

(** X7.  [getDailyStats] throws exactly when [getPatientsPerDay] does; when it
    returns, its days and their numbers of unique patients are the
    answer of [getPatientsPerDay], in the same order; each day comes
    with the number of its records, which is positive and not below the
    number of its patients; and the records of all the days add up to
    the number of records that have a date. *)
Theorem getDailyStats_per_day data :
  option_map (map (fun e => (fst (fst e), snd e))) (getDailyStats data)
    = getPatientsPerDay data /\
  (forall out day records unique,
     getDailyStats data = Some out -> In (day, records, unique) out ->
     records = List.length (rows_of day_key day data) /\
     unique = size (patients (rows_of day_key day data)) /\
     unique <= records /\ records <> 0) /\
  (forall out,
     getDailyStats data = Some out ->
     list_sum (map (fun e => snd (fst e)) out) = List.length (List.filter dated data)).
Proof.
  unfold getDailyStats, getPatientsPerDay.
  rewrite (day_loop daily_step record data daily_step_set).
  rewrite (day_loop collect absorb data collect_set).
  destruct (forallb _ data) eqn:Hvalid; cbn [mbind option_bind option_map];
    [|split; [reflexivity|split; discriminate]].
  split; [|split].
  - f_equal.
    rewrite <- (group_on_values snd day_key record absorb data) by reflexivity.
    rewrite Object_entries_on_values.
    replace (sizes (on_values snd (Object_entries (group day_key record data))))
      with (map (fun e : string * nat * nat => (fst (fst e), snd e))
              (map (fun e : string * (nat * gset string) =>
                      (fst e, fst (snd e), size (snd (snd e))))
                 (Object_entries (group day_key record data))))
      by (unfold sizes, on_values; rewrite !map_map; reflexivity).
    rewrite !sort_map. reflexivity.
  - intros out day records unique [= <-] Hin.
    apply sort_In, in_map_iff in Hin as ([k [n s]] & [= -> -> <-] & Hin).
    apply group_entries_In in Hin. rewrite value_of_record in Hin.
    destruct (rows_of day_key day data) as [|r rs] eqn:Hrows; [discriminate|].
    injection Hin as <- <-.
    split; [reflexivity|split; [reflexivity|split; [apply patients_size_le|discriminate]]].
  - intros out [= <-].
    rewrite <- dated_count by now apply dates_valid_forallb.
    rewrite <- (tally_count day_key data).
    rewrite <- (group_on_values fst day_key record tally data) by reflexivity.
    transitivity (list_sum (map (fun e : string * (nat * gset string) => fst (snd e))
                              (group day_key record data))).
    + apply list_sum_Permutation.
      etransitivity; [apply Permutation_map, sort_Permutation|].
      rewrite map_map. cbn [fst snd].
      apply Permutation_map, Object_entries_Permutation.
    + unfold on_values. rewrite map_map. reflexivity.
Qed.

Lemma getDailyStats_returns data :
  dates_valid data -> is_Some (getDailyStats data).
Proof.
  intros Hvalid%dates_valid_forallb. unfold getDailyStats.
  rewrite (day_loop daily_step record data daily_step_set), Hvalid.
  cbn [mbind option_bind]. eauto.
Qed.

(** X8.  [getPatientsPerDay] and [getDailyStats] return exactly when no record
    carries an Invalid Date object. *)
Theorem daily_rollups_return data :
  (is_Some (getPatientsPerDay data) <-> dates_valid data) /\
  (is_Some (getDailyStats data) <-> dates_valid data).
Proof.
  unfold getDailyStats, getPatientsPerDay.
  rewrite (day_loop daily_step record data daily_step_set).
  rewrite (day_loop collect absorb data collect_set).
  rewrite <- dates_valid_forallb.
  destruct (forallb _ data); cbn [mbind option_bind];
    split; split; intros Hx; eauto; try discriminate; destruct Hx; discriminate.
Qed.

End WithHost.

Lemma getCompanyDistribution_ranking_witness :
  exists ranking,
    getCompanyDistribution (H := manila) scenario 1 = firstn 1 ranking /\
    In ("A", 1) ranking /\ In ("B", 1) ranking.
Proof.
  destruct (getCompanyDistribution_ranking (H := manila) scenario 1)
    as (ranking & Hout & _ & Hin & _).
  - repeat constructor; intros k [= <-]; reflexivity.
  - lia.
  - exists ranking. split; [exact Hout|].
    split; apply Hin; vm_compute; split; (reflexivity || discriminate).
Defined.

Lemma getPurposeDistribution_ranking_witness :
  exists ranking,
    getPurposeDistribution (H := manila) coded 1 = firstn 1 ranking /\
    In ("Consult", 2) ranking /\ In ("Follow-up", 1) ranking.
Proof.
  destruct (getPurposeDistribution_ranking (H := manila) coded 1)
    as (ranking & Hout & _ & Hin & _).
  - repeat constructor; intros k [= <-]; reflexivity.
  - lia.
  - exists ranking. split; [exact Hout|].
    split; apply Hin; vm_compute; split; (reflexivity || discriminate).
Defined.

Lemma getICDDistribution_ranking_witness :
  exists ranking,
    getICDDistribution (H := manila) coded 1 = firstn 1 ranking /\
    In ("J00", 2) ranking /\ In ("No ICD", 1) ranking /\
    list_sum (map snd ranking) = 3.
Proof.
  destruct (getICDDistribution_ranking (H := manila) coded 1)
    as (ranking & Hout & _ & Hin & _ & _ & Hsum).
  - repeat constructor; intros k [= <-]; reflexivity.
  - lia.
  - exists ranking. split; [exact Hout|].
    split; [|split; [|exact Hsum]]; apply Hin; vm_compute;
      split; (reflexivity || discriminate).
Defined.

Lemma getLabelDistribution_ranking_witness :
  exists ranking,
    getLabelDistribution (H := manila) coded 1 = firstn 1 ranking /\
    In ("Respiratory", 2) ranking /\ In ("Unclassified", 1) ranking /\
    list_sum (map snd ranking) = 3.
Proof.
  destruct (getLabelDistribution_ranking (H := manila) coded 1)
    as (ranking & Hout & _ & Hin & _ & _ & Hsum).
  - repeat constructor; intros k [= <-]; reflexivity.
  - lia.
  - exists ranking. split; [exact Hout|].
    split; [|split; [|exact Hsum]]; apply Hin; vm_compute;
      split; (reflexivity || discriminate).
Defined.

End MoreRollUps.

(** ** The largest age bracket *)

Module LargestBracket.
Import JS JSDate Config DataProcessor Spec SortFacts ObjFacts EntriesFacts.
Import ProcessorFacts RangeFacts AgeBrackets Examples.

(** [reduce] with [curr.count > max.count ? curr : max] stops at the
    first of the largest. *)
Lemma largest_of_first first rest :
  let r := largest_of first rest in
  exists l1 l2,
    first :: rest = l1 ++ r :: l2 /\
    (forall x, In x l1 -> snd x < snd r) /\
    (forall x, In x l2 -> snd x <= snd r).
Proof.
  induction rest as [|x rest IH] using rev_ind.
  - exists [], []. simpl. split; [reflexivity|]. split; intros x [].
  - unfold largest_of in *. rewrite foldl_app. cbn [foldl].
    cbv zeta in IH. destruct IH as (l1 & l2 & Heq & H1 & H2).
    set (r := foldl _ first rest) in *.
    destruct (Nat.ltb_spec (snd r) (snd x)) as [Hlt|Hge].
    + exists (first :: rest), []. split; [now rewrite app_comm_cons|].
      split; [|intros y []].
      intros y Hy. rewrite Heq in Hy. apply in_app_or in Hy as [Hy|[<-|Hy]].
      * specialize (H1 y Hy). lia.
      * exact Hlt.
      * specialize (H2 y Hy). lia.
    + exists l1, (l2 ++ [x]). split.
      * rewrite app_comm_cons, Heq, <- app_assoc. reflexivity.
      * split; [exact H1|].
        intros y [Hy|[<-|[]]]%in_app_or; [now apply H2|exact Hge].
Qed.

Lemma filter_split {A} (p : A -> bool) l m1 x m2 :
  List.filter p l = m1 ++ x :: m2 ->
  exists l1 l2, l = l1 ++ x :: l2 /\ List.filter p l1 = m1 /\ List.filter p l2 = m2.
Proof.
  revert m1. induction l as [|a l IH]; intros m1 Hf; simpl in Hf.
  - now destruct m1.
  - destruct (p a) eqn:Hp.
    + destruct m1 as [|b m1]; simpl in Hf; injection Hf as -> Hf.
      * exists [], l. now split.
      * destruct (IH m1 Hf) as (l1 & l2 & -> & H1 & H2).
        exists (b :: l1), l2. split; [reflexivity|]. simpl. rewrite Hp.
        split; [now f_equal|assumption].
    + destruct (IH m1 Hf) as (l1 & l2 & -> & H1 & H2).
      exists (a :: l1), l2. split; [reflexivity|]. simpl. now rewrite Hp.
Qed.

Lemma bracket_rows b data :
  List.filter (fun row => String.eqb (categorizeAgeBracket (AGE row)) b) data
  = rows_of bracket_key b data.
Proof.
  unfold rows_of, bracket_key. apply filter_ext. intros row.
  destruct (String.eqb_spec (categorizeAgeBracket (AGE row)) b) as [->|Hne].
  - now rewrite bool_decide_eq_true_2.
  - rewrite bool_decide_eq_false_2; [reflexivity|]. congruence.
Qed.

(** X9.  [getLargestAgeBracketFinding] answers N/A when no patient has a
    numeric age on the first visit.  Otherwise its bracket is the known
    bracket holding most patients (by the age of the first visit), the
    youngest of them when several hold as many, and its finding and
    count are the first entry of [getTopFindings] over all the records,
    not only first visits, whose age falls in that bracket. *)
Theorem getLargestAgeBracketFinding_largest `{Host} data :
  let firsts := first_visits data in
  let '(bracket, finding, count) := getLargestAgeBracketFinding data in
  (getAgeDistribution data = [] -> (bracket, finding, count) = ("N/A", "N/A", 0)) /\
  (getAgeDistribution data <> [] ->
   in_bracket bracket firsts <> 0 /\
   (exists younger older,
      AGE_BRACKETS = younger ++ bracket :: older ++ ["Unknown"] /\
      (forall b, In b younger -> in_bracket b firsts < in_bracket bracket firsts) /\
      (forall b, In b older -> in_bracket b firsts <= in_bracket bracket firsts)) /\
   match getTopFindings (rows_of bracket_key bracket data) 1 with
   | (f, c) :: _ => finding = f /\ count = c
   | [] => finding = "N/A" /\ count = 0
   end).
Proof.
  intros firsts.
  set (g := fun b => in_bracket b firsts).
  set (nz := fun b => negb (Nat.eqb (g b) 0)).
  set (known := List.filter (fun b => negb (String.eqb b "Unknown")) AGE_BRACKETS).
  assert (Hsum : list_sum (map g (List.filter nz known))
                 = List.length (getAgeDistribution data)).
  { subst nz. rewrite (sum_nonzero g known). subst g known.
    rewrite known_brackets_sum, getAgeDistribution_eq. reflexivity. }
  assert (Hres : getLargestAgeBracketFinding data =
    match map (fun b => (b, g b)) (List.filter nz known) with
    | [] => ("N/A", "N/A", 0)
    | first :: rest =>
        let largest := largest_of first rest in
        let topFindings := getTopFindings (rows_of bracket_key (fst largest) data) 1 in
        (fst largest,
         match topFindings with (finding, _) :: _ => finding | [] => "N/A" end,
         match topFindings with (_, count) :: _ => count | [] => 0 end)
    end).
  { unfold getLargestAgeBracketFinding. rewrite getAgeBracketDistribution_eq.
    fold firsts.
    change (fun b : string => negb (Nat.eqb (in_bracket b firsts) 0)) with nz.
    change (fun b : string => (b, in_bracket b firsts)) with (fun b : string => (b, g b)).
    rewrite (filter_map_fst (fun b => negb (String.eqb b "Unknown")) g).
    rewrite filter_comm. fold known.
    destruct (List.filter nz AGE_BRACKETS) as [|a l] eqn:Hall.
    - subst known. rewrite filter_comm, Hall. reflexivity.
    - cbn [map]. destruct (map (fun b => (b, g b)) (List.filter nz known)); [reflexivity|].
      rewrite bracket_rows. reflexivity. }
  rewrite Hres. clear Hres.
  destruct (List.filter nz known) as [|b0 bs] eqn:Hnz.
  - simpl in *. split; [reflexivity|].
    intros Hne. destruct (getAgeDistribution data); [now destruct Hne|discriminate].
  - cbn [map]. cbv zeta.
    destruct (largest_of_first (b0, g b0) (map (fun b => (b, g b)) bs))
      as (m1 & m2 & Heq & H1 & H2).
    set (r := largest_of (b0, g b0) (map (fun b => (b, g b)) bs)) in *.
    change ((b0, g b0) :: map (fun b => (b, g b)) bs)
      with (map (fun b => (b, g b)) (b0 :: bs)) in Heq.
    apply List.map_eq_app in Heq as (k1 & k2' & Hk & Hm1 & Heq).
    destruct k2' as [|b k2]; [discriminate|]. simpl in Heq.
    injection Heq as Hr Hm2.
    rewrite <- Hnz in Hk.
    assert (Hb : nz b = true).
    { assert (Hin : In b (List.filter nz known))
        by (rewrite Hk; apply in_or_app; right; now left).
      now apply filter_In in Hin. }
    assert (Hgb : g b <> 0).
    { subst nz. simpl in Hb. apply negb_true_iff, Nat.eqb_neq in Hb. exact Hb. }
    apply filter_split in Hk as (l1 & l2 & Hknown & Hl1 & Hl2).
    clearbody r. subst r. cbn [fst snd] in *.
    split.
    + intros Hnil. rewrite Hnil in Hsum. cbn [List.length] in Hsum.
      assert (Hle : g b <= list_sum (map g (b0 :: bs))).
      { assert (Hin : In b (b0 :: bs)).
        { rewrite <- Hnz, Hknown, List.filter_app. apply in_or_app. right.
          simpl. rewrite Hb. now left. }
        clear -Hin. induction (b0 :: bs) as [|x l IH]; [destruct Hin|].
        simpl. destruct Hin as [->|Hin]; [lia|]. specialize (IH Hin). lia. }
      lia.
    + intros _. split; [exact Hgb|]. split.
      * exists l1, l2. split; [|split].
        -- change AGE_BRACKETS with (known ++ ["Unknown"]).
           rewrite Hknown, <- app_assoc. reflexivity.
        -- intros b' Hb'. destruct (nz b') eqn:Hnzb.
           ++ change (snd (b', g b') < g b). apply H1. rewrite <- Hm1, <- Hl1.
              apply in_map_iff. exists b'. split; [reflexivity|].
              apply filter_In. now split.
           ++ subst nz. simpl in Hnzb. apply negb_false_iff, Nat.eqb_eq in Hnzb.
              unfold g in *. lia.
        -- intros b' Hb'. destruct (nz b') eqn:Hnzb.
           ++ change (snd (b', g b') <= g b). apply H2. rewrite <- Hm2, <- Hl2.
              apply in_map_iff. exists b'. split; [reflexivity|].
              apply filter_In. now split.
           ++ subst nz. simpl in Hnzb. apply negb_false_iff, Nat.eqb_eq in Hnzb.
              unfold g in *. lia.
      * destruct (getTopFindings (rows_of bracket_key b data) 1) as [|[f c] rest];
          split; reflexivity.
Qed.

End LargestBracket.

(** ** More of the filters *)

Module MoreFilters.
Import JS JSDate Config Filters DataLoader Spec Examples SortFacts RangeFacts.
Import SliderFacts FilterFacts.

Section WithHost.
Context `{Host}.

(** X10.  The date filter needs both ends: with the start date or the end
    date left empty, [applyFilters] answers as it does with both empty,
    whatever the other one holds. *)
Theorem half_open_range_ignored u data :
  dateStart_value u = None \/ dateEnd_value u = None ->
  applyFilters u data = applyFilters (no_date_range u) data.
Proof.
  intros Hopen. unfold applyFilters. apply filter_ext. intros row.
  unfold keep, readFilterState, no_date_range. cbn.
  destruct Hopen as [-> | ->]; [reflexivity|].
  now destruct (dateStart_value u) as [[[y m] d]|].
Qed.

(** X11.  Choosing more companies never takes a record out of view: every
    record shown for a choice of companies is still shown when the
    choice is enlarged, and when it is emptied. *)
Theorem more_companies_more_records u data chosen more :
  chosen <> [] ->
  more = [] \/ incl chosen more ->
  forall row,
    In row (applyFilters (choose_companies chosen u) data) ->
    In row (applyFilters (choose_companies more u) data).
Proof.
  intros Hchosen Hmore row. rewrite !applyFilters_In, !keep_true.
  intros (Hrow & ((Hc & Hrest) & Hdate & Hage)). split; [assumption|].
  split; [split; [|exact Hrest]|split; [exact Hdate|exact Hage]].
  cbn in Hc |- *. unfold accepts in *.
  destruct Hc as [Hnil|Hin]; [contradiction|].
  destruct Hmore as [->|Hincl]; [now left|right; now apply Hincl].
Qed.

(** *** The options of the multiselects *)

Lemma add_value_In values s x : In x (add_value values s) <-> In x values \/ x = s.
Proof.
  unfold add_value. destruct (includes values s) eqn:Hi.
  - apply includes_In in Hi. split; [now left|]. intros [Hx| ->]; assumption.
  - rewrite in_app_iff. simpl. intuition.
Qed.

Lemma add_value_NoDup values s : List.NoDup values -> List.NoDup (add_value values s).
Proof.
  intros Hnd. unfold add_value. destruct (includes values s) eqn:Hi; [assumption|].
  apply List.NoDup_app; [assumption| |].
  - repeat constructor. intros [].
  - intros x Hx [<-|[]]. apply includes_In in Hx. congruence.
Qed.

Section Options.
Context `{Collation}.

(** The loop of [getUniqueValues]: the set it builds. *)
Lemma unique_values_loop data (column : Config.row -> value) :
  let values :=
    foldl (fun values row =>
             let val := column row in
             if offered val then add_value values (ToString val) else values)
      [] data in
  (forall s,
     In s values <->
     exists row, In row data /\ offered (column row) = true /\
                 ToString (column row) = s) /\
  List.NoDup values.
Proof.
  cbv zeta.
  set (step := fun values row =>
                 let val := column row in
                 if offered val then add_value values (ToString val) else values).
  induction data as [|row data [IH Hnd]] using rev_ind.
  - split; [|constructor]. intros s. simpl. split; [intros []|intros (row & [] & _)].
  - rewrite foldl_app. cbn [foldl]. unfold step at 1 3. cbv zeta.
    destruct (offered (column row)) eqn:Ho.
    + split; [|now apply add_value_NoDup].
      intros s. rewrite add_value_In, IH. split.
      * intros [(r & Hr & Hor & Hs)| ->].
        -- exists r. split; [apply in_or_app; now left|now split].
        -- exists row. split; [apply in_or_app; right; now left|now split].
      * intros (r & [Hr|[<-|[]]]%in_app_or & Hor & Hs).
        -- left. exists r. repeat split; assumption.
        -- now right.
    + split; [|assumption]. intros s. rewrite IH. split.
      * intros (r & Hr & Hor & Hs). exists r. split; [apply in_or_app; now left|now split].
      * intros (r & [Hr|[<-|[]]]%in_app_or & Hor & Hs); [|congruence].
        exists r. repeat split; assumption.
Qed.

(** X12.  [getUniqueValues] lists, each once, the texts of the cells of the
    column that are not [null], [undefined] or the empty string. *)
Theorem getUniqueValues_options data (column : Config.row -> value) :
  (forall s,
     In s (getUniqueValues data column) <->
     exists row, In row data /\ offered (column row) = true /\
                 ToString (column row) = s) /\
  List.NoDup (getUniqueValues data column).
Proof.
  unfold getUniqueValues. cbv zeta.
  destruct (unique_values_loop data column) as [Hloop Hnd]. split.
  - intros s. rewrite sort_In. apply Hloop.
  - eapply Permutation_NoDup; [symmetry; apply sort_Permutation|exact Hnd].
Qed.

Lemma getUniqueValues_In data (column : Config.row -> value) s :
  In s (getUniqueValues data column) ->
  exists row, In row data /\ ToString (column row) = s.
Proof.
  unfold getUniqueValues. cbv zeta. intros Hs%sort_In.
  apply (proj1 (unique_values_loop data column)) in Hs.
  destruct Hs as (row & Hrow & _ & Hs). now exists row.
Qed.

End Options.

Lemma populateFilters_identity data u :
  prints_integers -> finite_ages data -> whole_steps (ageMax_slider u) ->
  applyFilters (populateFilters data u) data = data.
Proof.
  intros Hprint Hfinite Hwhole. unfold applyFilters. apply filter_all. intros row Hrow. apply keep_true.
  destruct (populateFilters_selects data u) as (Hc & Hp & Hm & Hs & Hl & Hf).
  split; [|split].
  - unfold categories_ok, accepts. rewrite Hc, Hp, Hm, Hs, Hl, Hf. tauto.
  - intros start end_ t Hstart Hend Ht.
    now apply (populateFilters_dates data u row t).
  - intros age Hage. now apply (populateFilters_ages data u row).
Qed.

(** X13.  An option of the company multiselect always matches a record:
    chosen alone on the page as [populateFilters] set it up, it makes
    [applyFilters] answer with the records whose company reads as the
    option, and there is at least one.  Stated for records whose
    numeric ages are finite, of at most 2^53 once floored or ceiled and
    printed by their digits, and for an [ageMax] slider that can rest on
    every whole number: then the sliders hold the whole range of
    ages. *)
Theorem company_option_selects `{Collation} data u s :
  prints_integers -> finite_ages data -> whole_steps (ageMax_slider u) ->
  In s (companyOptions data) ->
  let page := choose_companies [s] (populateFilters data u) in
  (forall row,
     In row (applyFilters page data) <->
     In row data /\ ToString (COMPANY row) = s) /\
  applyFilters page data <> [].
Proof.
  intros Hprint Hfinite Hwhole Hs page.
  assert (Hin : forall row,
            In row (applyFilters page data) <->
            In row data /\ ToString (COMPANY row) = s).
  { intros row. rewrite applyFilters_In, keep_true.
    destruct (populateFilters_selects data u) as (Hc & Hp & Hm & Hsx & Hl & Hf).
    cbn in Hp, Hm, Hsx, Hl, Hf.
    split.
    - intros (Hrow & (Hcomp & _) & _). split; [assumption|].
      destruct Hcomp as [Hnil|[Heq|[]]]; [discriminate|now symmetry].
    - intros [Hrow Heq]. split; [assumption|]. split; [|split].
      + unfold categories_ok, accepts. cbn. rewrite Hp, Hm, Hsx, Hl, Hf.
        repeat split; try (now left). right. left. now symmetry.
      + intros start end_ t Hst Hen Ht.
        exact (populateFilters_dates data u row t start end_ Hrow Ht Hst Hen).
      + intros age Hage.
        exact (populateFilters_ages data u row age Hprint Hfinite Hwhole Hrow Hage). }
  split; [exact Hin|].
  apply getUniqueValues_In in Hs as (row & Hrow & Heq).
  intros Hnil. assert (Hout : In row (applyFilters page data)) by now apply Hin.
  rewrite Hnil in Hout. destruct Hout.
Qed.

(** *** The months in calendar order *)

Lemma insert_sorted_monotone {A} (cmp : A -> A -> Z) (f : A -> Z) x l :
  (forall a b, (cmp a b <= 0)%Z -> (f a <= f b)%Z) ->
  (forall a b, (0 < cmp a b)%Z -> (f b <= f a)%Z) ->
  StronglySorted (fun a b => (f a <= f b)%Z) l ->
  StronglySorted (fun a b => (f a <= f b)%Z) (insert_sorted cmp x l).
Proof.
  intros Hle Hgt. induction 1 as [|y l Hl IH Hy]; simpl; [repeat constructor|].
  destruct (Z.leb_spec (cmp x y) 0) as [Hc|Hc].
  - constructor; [now constructor|].
    constructor; [now apply Hle|].
    rewrite List.Forall_forall in *. intros z Hz.
    specialize (Hy z Hz). specialize (Hle x y Hc). lia.
  - constructor; [assumption|].
    rewrite List.Forall_forall in *. intros z Hz.
    apply (Permutation_in _ (insert_sorted_Permutation cmp x l)) in Hz.
    destruct Hz as [<-|Hz]; [now apply Hgt|now apply Hy].
Qed.

Lemma sort_monotone {A} (cmp : A -> A -> Z) (f : A -> Z) l :
  (forall a b, (cmp a b <= 0)%Z -> (f a <= f b)%Z) ->
  (forall a b, (0 < cmp a b)%Z -> (f b <= f a)%Z) ->
  StronglySorted (fun a b => (f a <= f b)%Z) (sort cmp l).
Proof.
  intros Hle Hgt. induction l as [|x l IH]; [constructor|].
  change (sort cmp (x :: l)) with (insert_sorted cmp x (sort cmp l)).
  now apply insert_sorted_monotone.
Qed.

Lemma indexOf_bound arr s i :
  indexOf arr s = Some i -> (0 <= i < Z.of_nat (List.length arr))%Z.
Proof.
  revert i. induction arr as [|x arr IH]; intros i; simpl; [discriminate|].
  destruct (String.eqb x s); [intros [= <-]; lia|].
  destruct (indexOf arr s) as [j|]; [|discriminate].
  intros [= <-]. specialize (IH j eq_refl). lia.
Qed.

Lemma indexOf_None arr s : indexOf arr s = None <-> ~ In s arr.
Proof.
  induction arr as [|x arr IH]; simpl; [tauto|].
  destruct (String.eqb_spec x s) as [->|Hne].
  - split; [discriminate|]. intros Hnot. exfalso. apply Hnot. now left.
  - destruct (indexOf arr s) as [j|]; simpl.
    + split; [discriminate|]. intros Hnot. exfalso. apply Hnot. right.
      destruct (in_dec string_dec s arr) as [Hin|Hin]; [assumption|].
      apply IH in Hin. discriminate.
    + split; [|reflexivity]. intros _ [Hx|Hin]; [congruence|]. now apply IH.
Qed.

(** X14.  The month multiselect lists the texts of the month column with the
    names of the months first, in calendar order whatever their case,
    and any other text after them. *)
Theorem monthOptions_calendar `{Collation} data :
  Permutation (monthOptions data) (getUniqueValues data MONTH) /\
  StronglySorted (fun a b => (month_rank a <= month_rank b)%Z) (monthOptions data) /\
  (forall s, (0 <= month_rank s <= 12)%Z) /\
  (forall s, month_rank s = 12%Z <-> ~ In (toUpperCase s) monthOrder).
Proof.
  assert (Hrank : forall s, (0 <= month_rank s <= 12)%Z).
  { intros s. unfold month_rank.
    destruct (indexOf monthOrder (toUpperCase s)) as [i|] eqn:Hi; simpl; [|lia].
    apply indexOf_bound in Hi. simpl in Hi. lia. }
  split; [apply sort_Permutation|]. split; [|split; [exact Hrank|]].
  - unfold monthOptions. apply sort_monotone; intros a b;
      pose proof (Hrank a) as Ha; pose proof (Hrank b) as Hb; revert Ha Hb;
      unfold by_calendar, month_rank;
      destruct (indexOf monthOrder (toUpperCase a)) as [i|] eqn:Hi;
      destruct (indexOf monthOrder (toUpperCase b)) as [j|] eqn:Hj; simpl;
      try apply indexOf_bound in Hi; try apply indexOf_bound in Hj;
      simpl in *; lia.
  - intros s. unfold month_rank. rewrite <- indexOf_None.
    destruct (indexOf monthOrder (toUpperCase s)) as [i|] eqn:Hi; simpl.
    + pose proof (indexOf_bound _ _ _ Hi) as Hb. simpl in Hb.
      split; [lia|discriminate].
    + split; reflexivity.
Qed.

End WithHost.

Lemma company_option_selects_witness :
  applyFilters (H := manila)
    (choose_companies ["B"] (populateFilters (H := manila) scenario january)) scenario
  <> [].
Proof.
  apply (company_option_selects (H := manila) (H0 := bytewise) scenario january "B"
           manila_prints_integers scenario_finite_ages (Qeq_refl 1)).
  vm_compute. right. left. reflexivity.
Defined.

Lemma more_companies_more_records_witness :
  In (visit "2024-01-05" "E1" 30 "A" "F1")
    (applyFilters (H := manila) (choose_companies ["A"; "B"] january) scenario).
Proof.
  apply (more_companies_more_records (H := manila) january scenario ["A"] ["A"; "B"]).
  - discriminate.
  - right. intros x [<-|[]]. now left.
  - vm_compute. left. reflexivity.
Defined.

Lemma half_open_range_ignored_witness :
  applyFilters (H := manila) from_february scenario = scenario.
Proof.
  rewrite (half_open_range_ignored (H := manila) from_february scenario)
    by (right; reflexivity).
  vm_compute. reflexivity.
Defined.

End MoreFilters.

(** ** The multiselects and the session *)

Module SelectFacts.
Import JS SearchableSelect FilterFacts.

Lemma splice_first_In value arr x :
  List.NoDup arr -> In x (splice_first value arr) <-> In x arr /\ x <> value.
Proof.
  induction 1 as [|y arr Hy Hnd IH]; simpl; [tauto|].
  destruct (String.eqb_spec y value) as [->|Hne]; simpl.
  - split; [intros Hx; split; [now right|congruence]|].
    intros [[Hx|Hx] Hv]; [congruence|assumption].
  - rewrite IH. split.
    + intros [<-|[Hx Hv]]; [split; [now left|assumption]|split; [now right|assumption]].
    + intros [[Hx|Hx] Hv]; [now left|right; now split].
Qed.

Lemma splice_first_NoDup value arr :
  List.NoDup arr -> List.NoDup (splice_first value arr).
Proof.
  induction 1 as [|y arr Hy Hnd IH]; simpl; [constructor|].
  destruct (String.eqb y value); [assumption|].
  constructor; [|assumption].
  intros Hin. apply splice_first_In in Hin; [|assumption]. tauto.
Qed.

Lemma splice_first_last value arr :
  ~ In value arr -> splice_first value (arr ++ [value]) = arr.
Proof.
  induction arr as [|y arr IH]; simpl; intros Hnot.
  - now rewrite String.eqb_refl.
  - destruct (String.eqb_spec y value) as [->|Hne]; [tauto|].
    rewrite IH; [reflexivity|tauto].
Qed.

Lemma toggleOption_keeps i value :
  List.NoDup (selected i) -> (forall s, In s (selected i) -> In s (values i)) ->
  values (toggleOption i value) = values i /\
  List.NoDup (selected (toggleOption i value)) /\
  (forall s, In s (selected (toggleOption i value)) -> In s (values (toggleOption i value))).
Proof.
  intros Hnd Hsub. unfold toggleOption.
  destruct (includes (values i) value) eqn:Hv; simpl; [|now repeat split].
  destruct (includes (selected i) value) eqn:Hs; simpl.
  - split; [reflexivity|]. split; [now apply splice_first_NoDup|].
    intros s Hin. apply splice_first_In in Hin; [|assumption]. apply Hsub, Hin.
  - split; [reflexivity|]. split.
    + apply List.NoDup_app; [assumption|repeat constructor; intros []|].
      intros x Hx [<-|[]]. apply includes_In in Hx. congruence.
    + intros s [Hin|[<-|[]]]%in_app_or; [now apply Hsub|now apply includes_In].
Qed.

(** X15.  Whatever options are toggled and however often the selection is
    cleared, a multiselect never holds a value twice and only holds
    values it offers; toggling an option twice in a row leaves the same
    values selected. *)
Theorem selection_invariant vals actions :
  let i := foldl act (create vals) actions in
  values i = vals /\
  List.NoDup (selected i) /\
  (forall s, In s (selected i) -> In s vals) /\
  (forall value s,
     In s (selected (toggleOption (toggleOption i value) value)) <-> In s (selected i)).
Proof.
  intros i.
  assert (Hinv : values i = vals /\ List.NoDup (selected i) /\
                 (forall s, In s (selected i) -> In s vals)).
  { subst i. induction actions as [|a actions IH] using rev_ind.
    - simpl. split; [reflexivity|]. split; [constructor|intros s []].
    - rewrite foldl_app. cbn [foldl]. destruct IH as (Hv & Hnd & Hsub).
      destruct a as [value|]; simpl.
      + assert (Hsub0 : forall s, In s (selected (foldl act (create vals) actions)) ->
                                  In s (values (foldl act (create vals) actions)))
          by (intros s Hs; rewrite Hv; now apply Hsub).
        destruct (toggleOption_keeps _ value Hnd Hsub0) as (Hv' & Hnd' & Hsub').
        split; [congruence|]. split; [assumption|].
        intros s Hs. apply Hsub' in Hs. congruence.
      + split; [assumption|]. split; [constructor|intros s []]. }
  destruct Hinv as (Hv & Hnd & Hsub).
  split; [assumption|]. split; [assumption|]. split; [assumption|].
  intros value s.
  destruct (includes (values i) value) eqn:Hval.
  2: { unfold toggleOption. rewrite Hval. simpl. rewrite Hval. reflexivity. }
  destruct (includes (selected i) value) eqn:Hsel.
  - assert (Hfirst : toggleOption i value =
                     {| values := values i;
                        selected := splice_first value (selected i) |})
      by (unfold toggleOption; now rewrite Hval, Hsel).
    rewrite Hfirst. unfold toggleOption. cbn [values selected]. rewrite Hval. cbn [negb].
    assert (Hgone : includes (splice_first value (selected i)) value = false).
    { destruct (includes (splice_first value (selected i)) value) eqn:Hi; [|reflexivity].
      apply includes_In, splice_first_In in Hi; [|assumption]. tauto. }
    rewrite Hgone. cbn [selected]. rewrite in_app_iff, splice_first_In by assumption.
    apply includes_In in Hsel. simpl.
    destruct (string_dec s value) as [->|Hne]; [tauto|]. intuition congruence.
  - assert (Hfirst : toggleOption i value =
                     {| values := values i; selected := selected i ++ [value] |})
      by (unfold toggleOption; now rewrite Hval, Hsel).
    rewrite Hfirst. unfold toggleOption. cbn [values selected]. rewrite Hval. cbn [negb].
    assert (Hthere : includes (selected i ++ [value]) value = true).
    { apply includes_In, in_or_app. right. now left. }
    rewrite Hthere. cbn [selected]. rewrite splice_first_last; [reflexivity|].
    intros Hin. apply includes_In in Hin. congruence.
Qed.

End SelectFacts.

Module SessionFacts.
Import JS JSDate Config Filters DataLoader App Spec Examples SortFacts RangeFacts.
Import SliderFacts FilterFacts MoreFilters.

Section WithHost.
Context `{Host} `{Parsers}.

Lemma applyFilters_nil u : applyFilters u [] = [].
Proof. reflexivity. Qed.

Lemma populateFilters_sliders data u :
  numeric_ages data <> [] ->
  ageMin_slider (populateFilters data u)
  = with_range (Math_floor (Math_min (numeric_ages data)))
      (Math_ceil (Math_max (numeric_ages data))) (ageMin_slider u) /\
  ageMax_slider (populateFilters data u)
  = with_range (Math_floor (Math_min (numeric_ages data)))
      (Math_ceil (Math_max (numeric_ages data))) (ageMax_slider u).
Proof.
  intros Hne. unfold populateFilters, populateAgeRange. fold (numeric_ages data).
  destruct (numeric_ages data); [contradiction|].
  cbn [ageMin_slider ageMax_slider].
  now rewrite (proj1 (populateDateRange_sliders data _)),
    (proj2 (populateDateRange_sliders data _)).
Qed.

Lemma populateFilters_whole_steps data u :
  whole_steps (ageMax_slider u) -> whole_steps (ageMax_slider (populateFilters data u)).
Proof.
  unfold populateFilters, populateAgeRange.
  destruct (omap _ data); cbn [ageMax_slider];
    rewrite ?(proj2 (populateDateRange_sliders data _)); auto.
Qed.

(** The dates [clearFilters] writes back are those [populateFilters]
    wrote. *)
Lemma clearFilters_dates data r u u' :
  valid_dates data <> [] ->
  dateStart_value (clearFilters (storeRanges data r) u')
  = dateStart_value (populateFilters data u) /\
  dateEnd_value (clearFilters (storeRanges data r) u')
  = dateEnd_value (populateFilters data u).
Proof.
  intros Hne.
  unfold clearFilters, storeRanges, storeAgeRange, storeDateRange,
    populateFilters, populateAgeRange, populateDateRange.
  fold (valid_dates data).
  assert (Hs : sort (fun a b => a - b)%Z (valid_dates data) <> []).
  { intros Hnil. apply Hne. destruct (valid_dates data) as [|t l]; [reflexivity|].
    assert (Hin : In t (sort (fun a b => (a - b)%Z) (t :: l)))
      by (apply sort_In; now left).
    rewrite Hnil in Hin. destruct Hin. }
  destruct (sort _ (valid_dates data)); [contradiction|].
  destruct (omap (fun row => numeric_age (AGE row)) data); split; reflexivity.
Qed.

(** The ranges [populateFilters] stores let [clearFilters] put the page
    back to where every record passes, when the sliders still have the
    attributes [populateFilters] gave them. *)
Lemma storeRanges_covers data r u u' :
  prints_integers -> finite_ages data -> whole_steps (ageMax_slider u) ->
  ageMin_slider u' = ageMin_slider (populateFilters data u) ->
  ageMax_slider u' = ageMax_slider (populateFilters data u) ->
  applyFilters (clearFilters (storeRanges data r) u') data = data.
Proof.
  intros Hprint Hfinite Hwhole Hmin Hmax.
  unfold applyFilters. apply filter_all. intros row Hrow. apply keep_true.
  split; [|split].
  - unfold categories_ok, accepts. cbn. tauto.
  - intros start end_ t Hstart Hend Ht.
    assert (Hne : valid_dates data <> []).
    { intros Hnil.
      assert (Hin : In t (valid_dates data)).
      { apply list_elem_of_In, list_elem_of_omap.
        exists row. split; [now apply list_elem_of_In|assumption]. }
      rewrite Hnil in Hin. destruct Hin. }
    destruct (clearFilters_dates data r u u' Hne) as [Es Ee].
    apply (populateFilters_dates data u row t start end_ Hrow Ht).
    + rewrite <- Hstart. unfold readFilterState. cbn [dateStart]. now rewrite Es.
    + rewrite <- Hend. unfold readFilterState. cbn [dateEnd]. now rewrite Ee.
  - intros age Hage.
    assert (Hin : In age (numeric_ages data)).
    { apply list_elem_of_In, list_elem_of_omap.
      exists row. split; [now apply list_elem_of_In|assumption]. }
    assert (Hne : numeric_ages data <> [])
      by (intros Hnil; rewrite Hnil in Hin; destruct Hin).
    destruct (populateFilters_ages data u row age Hprint Hfinite Hwhole Hrow Hage)
      as [Hlo Hhi].
    destruct (populateFilters_age_range data u Hprint Hfinite Hwhole Hne) as [Emin Emax].
    rewrite Emin in Hlo. rewrite Emax in Hhi.
    destruct (populateFilters_sliders data u Hne) as [Smin Smax].
    destruct (age_range_whole (numeric_ages data) Hne Hfinite)
      as (a & b & Ha & Hb & Hab & Hasafe & Hbsafe).
    assert (Er : originalAgeMin (storeRanges data r)
                 = Math_floor (Math_min (numeric_ages data)) /\
                 originalAgeMax (storeRanges data r)
                 = Math_ceil (Math_max (numeric_ages data))).
    { unfold storeRanges, storeAgeRange. fold (numeric_ages data).
      destruct (numeric_ages data); [contradiction|]. split; reflexivity. }
    destruct Er as [Ermin Ermax].
    unfold readFilterState, clearFilters. cbn [ageMin ageMax ageMin_value ageMax_value].
    rewrite Ermin, Ermax, Hmin, Hmax, Smin, Smax, Ha, Hb.
    rewrite slider_reads_min, slider_reads_max by assumption.
    rewrite <- Ha, <- Hb. split; assumption.
Qed.

Lemma handle_keeps s e :
  prints_integers -> loads_finite_ages [e] ->
  steady s -> steady (handle s e).
Proof.
  intros Hprint He (Hview & Hwhole & Hclear). apply Forall_inv in He.
  unfold steady. destruct e as [[file|]|page|]; cbn.
  - unfold fileInput_change. cbn in He.
    destruct (parseFile file) as [calls [data|message]]; cbn in He |- *.
    + split; [symmetry; now apply populateFilters_identity|].
      split; [now apply populateFilters_whole_steps|].
      intros u Hmin Hmax. now apply (storeRanges_covers data _ (filters (application s))).
    + split; [assumption|]. split; assumption.
  - split; [assumption|]. split; assumption.
  - unfold onFilterChange, with_filters. cbn.
    destruct (Nat.eqb_spec (List.length (fullData (application s))) 0) as [Hlen|Hlen]; cbn.
    + split; [|split; assumption].
      destruct (fullData (application s)); [|discriminate]. rewrite Hview. reflexivity.
    + split; [reflexivity|]. split; assumption.
  - unfold onFilterChange, with_filters. cbn.
    destruct (Nat.eqb_spec (List.length (fullData (application s))) 0) as [Hlen|Hlen]; cbn.
    + split; [|split; assumption].
      destruct (fullData (application s)); [|discriminate]. rewrite Hview. reflexivity.
    + split; [reflexivity|]. split; assumption.
Qed.

Lemma run_keeps page events :
  prints_integers -> whole_steps (ageMax_slider page) -> loads_finite_ages events ->
  steady (run (initialSession page) events).
Proof.
  intros Hprint Hwhole. induction events as [|e events IH] using rev_ind; intros He.
  - cbn. split; [reflexivity|]. split; [exact Hwhole|reflexivity].
  - unfold run in *. rewrite foldl_app. cbn [foldl].
    apply Forall_app in He as [Hes He].
    apply handle_keeps; [assumption|exact He|now apply IH].
Qed.

(** X16.  After any sequence of uploads (failed or not), changes of the filter
    inputs and presses of the clear button, each handled to its end, the
    records shown are those the filter inputs select from the loaded
    records: [filteredData] is [applyFilters] of [fullData] for the page
    as it stands.  Stated for uploads whose numeric ages are finite, of
    at most 2^53 once floored or ceiled and printed by their digits,
    on a page whose [ageMax] slider can rest on every whole number:
    the sliders then hold the whole range of ages after an upload. *)
Theorem view_follows_filters page events :
  prints_integers -> whole_steps (ageMax_slider page) -> loads_finite_ages events ->
  let a := application (run (initialSession page) events) in
  filteredData a = applyFilters (filters a) (fullData a).
Proof. intros Hprint Hwhole He a. now apply run_keeps. Qed.

(** X17.  Pressing the clear button brings every loaded record back, whatever
    was done before: after it [filteredData] is [fullData].  Stated for
    uploads whose numeric ages are finite, of at most 2^53 once floored
    or ceiled and printed by their digits, on a page whose [ageMax]
    slider can rest on every whole number. *)
Theorem clear_restores_all page events :
  prints_integers -> whole_steps (ageMax_slider page) -> loads_finite_ages events ->
  let a := application (run (initialSession page) (events ++ [ClearPressed])) in
  filteredData a = fullData a.
Proof.
  intros Hprint Hwhole He a. subst a. unfold run. rewrite foldl_app. cbn [foldl].
  destruct (run_keeps page events Hprint Hwhole He) as (Hview & _ & Hclear).
  unfold run in *.
  set (s := foldl handle (initialSession page) events) in *.
  cbn. unfold onFilterChange, with_filters. cbn.
  destruct (Nat.eqb_spec (List.length (fullData (application s))) 0) as [Hlen|Hlen]; cbn.
  - rewrite Hview. destruct (fullData (application s)); [reflexivity|discriminate].
  - now apply Hclear.
Qed.

End WithHost.

Lemma visits_csv_parsed :
  snd (parseFile (H := manila) (H0 := scenario_parsers) visits_csv) = Resolved scenario.
Proof. vm_compute. reflexivity. Qed.

Lemma scenario_loads_finite :
  loads_finite_ages (H := manila) (H0 := scenario_parsers) upload_edit_clear.
Proof.
  apply List.Forall_forall. intros e [<-|[<-|[<-|[]]]]; try exact I.
  rewrite visits_csv_parsed. exact scenario_finite_ages.
Qed.

Lemma view_follows_filters_witness :
  let a := application (run (H := manila) (H0 := scenario_parsers)
                          (initialSession january) upload_edit_clear) in
  fullData a = scenario /\
  filteredData a = applyFilters (H := manila) (filters a) (fullData a).
Proof.
  split; [vm_compute; reflexivity|].
  apply (view_follows_filters (H := manila) (H0 := scenario_parsers) january
           upload_edit_clear manila_prints_integers (Qeq_refl 1) scenario_loads_finite).
Defined.

Lemma clear_restores_all_witness :
  let a := application (run (H := manila) (H0 := scenario_parsers)
                          (initialSession january)
                          ([FileChosen (Some visits_csv); FiltersEdited from_february]
                           ++ [ClearPressed])) in
  fullData a = scenario /\ filteredData a = fullData a.
Proof.
  split; [vm_compute; reflexivity|].
  apply (clear_restores_all (H := manila) (H0 := scenario_parsers) january
           [FileChosen (Some visits_csv); FiltersEdited from_february]
           manila_prints_integers (Qeq_refl 1)).
  apply List.Forall_forall. intros e [<-|[<-|[]]]; try exact I.
  rewrite visits_csv_parsed. exact scenario_finite_ages.
Defined.

End SessionFacts.

(** ** More of the loader *)

Module MoreLoader.
Import JS JSDate Config DataProcessor DataLoader App ChartToolbar Spec Examples.
Import ProcessorFacts StringFacts MoreRollUps.

(** *** The extension of a file name *)

Lemma pop_last_part base ext :
  has "." ext = false ->
  pop (split "." (base ++ String "." ext)) = ext.
Proof.
  intros Hext. rewrite split_app, (split_whole "." ext Hext).
  unfold pop. apply last_last.
Qed.

Section WithHost.
Context `{Host} `{Parsers}.

(** X18.  [parseFile] goes by what follows the last dot of the file name,
    whatever its case: csv starts the CSV parser, xlsx and xls start the
    Excel parser, each exactly once, and the answer is that parser's.  A
    name without a dot is its own extension. *)
Theorem parseFile_by_extension file base ext :
  name file = (base ++ String "." ext)%string \/ name file = ext ->
  has "." ext = false ->
  extension_of file = toLowerCase ext /\
  (toLowerCase ext = "csv" ->
   parseFile file = ([CallParseCSV file], parseCSV file)) /\
  (toLowerCase ext = "xlsx" \/ toLowerCase ext = "xls" ->
   parseFile file = ([CallParseExcel file], parseExcel file)).
Proof.
  intros Hname Hext.
  assert (Hx : extension_of file = toLowerCase ext).
  { unfold extension_of. destruct Hname as [-> | ->].
    - now rewrite pop_last_part.
    - now rewrite (split_whole "." ext Hext). }
  split; [exact Hx|]. unfold parseFile. rewrite Hx. split.
  - intros ->. reflexivity.
  - intros [-> | ->]; reflexivity.
Qed.

(** *** What [processData] leaves behind *)

Lemma processData_In data row :
  In row (processData data) ->
  exists raw, In raw data /\ row = loaded (process_row raw).
Proof.
  unfold processData. intros (p & <- & Hp)%in_map_iff.
  apply filter_In in Hp as [(raw & <- & Hraw)%in_map_iff _]. eauto.
Qed.

Lemma process_row_employee raw :
  EMPLOYEE (loaded (process_row raw)) =
  match cell_EMPLOYEE raw with
  | Undefined => None
  | cell => Some (if truthy cell then ToString cell else "")
  end.
Proof.
  unfold loaded, process_row, process_employee, or_else. cbn [EMPLOYEE cell_EMPLOYEE].
  destruct (cell_EMPLOYEE raw); try reflexivity; destruct (truthy _); reflexivity.
Qed.

Lemma process_row_patient raw e :
  patient (loaded (process_row raw)) = Some e <->
  truthy (cell_EMPLOYEE raw) = true /\ ToString (cell_EMPLOYEE raw) = e /\ e <> "".
Proof.
  unfold patient. rewrite process_row_employee.
  destruct (cell_EMPLOYEE raw) as [| |b|n|s|tv];
    [cbn; split; [discriminate|intros [Ht _]; discriminate]|..];
    cbv beta iota zeta;
    (destruct (truthy _) eqn:Ht; cbv beta iota;
     [match goal with
      | |- context [String.eqb ?x ""] => destruct (String.eqb_spec x "") as [He|He]
      end;
      [split; [discriminate|intros (_ & <- & Hne); contradiction]
      |split; [intros [= <-]; now repeat split|intros (_ & <- & _); reflexivity]]
     |cbn [String.eqb]; split; [discriminate|intros [Ht' _]; discriminate]]).
Qed.

Lemma process_row_date raw :
  DATE (loaded (process_row raw)) = ADate None -> cell_DATE raw = DateObj None.
Proof.
  unfold loaded, process_row, process_date. cbn.
  destruct (cell_DATE raw) as [| |b|n|s|[t|]]; cbn;
    repeat match goal with
           | |- context [if ?c then _ else _] => destruct c; cbn
           | |- context [match ?c with Some _ => _ | None => _ end] => destruct c; cbn
           end; congruence.
Qed.

Lemma process_row_age raw : AGE (loaded (process_row raw)) <> AgeNum NaN.
Proof.
  unfold loaded, process_row, process_age. simpl.
  destruct (cell_AGE raw); try discriminate;
    destruct (parseFloat _); simpl; discriminate.
Qed.

(** X19.  Every record [processData] returns comes from a parsed row.  It
    counts as a patient's exactly when the row's employee cell is truthy
    (so not for the number 0, [false], [null] or the empty string), the
    patient number being the cell as text; its age is never [NaN]; and
    its date is an Invalid Date only when the parser handed over an
    Invalid Date object, text that cannot be read becoming [null]. *)
Theorem processData_rows data row :
  In row (processData data) ->
  exists raw,
    In raw data /\ row = loaded (process_row raw) /\
    (forall e,
       patient row = Some e <->
       truthy (cell_EMPLOYEE raw) = true /\ ToString (cell_EMPLOYEE raw) = e /\ e <> "") /\
    AGE row <> AgeNum NaN /\
    (DATE row = ADate None -> cell_DATE raw = DateObj None).
Proof.
  intros (raw & Hraw & ->)%processData_In. exists raw.
  split; [assumption|]. split; [reflexivity|]. split; [|split].
  - intros e. apply process_row_patient.
  - apply process_row_age.
  - apply process_row_date.
Qed.

(** X20.  When no parsed row holds an Invalid Date object (as with dates that
    arrive as text or numbers), the records [processData] returns never
    make [getPatientsPerDay] or [getDailyStats] throw. *)
Theorem loaded_days_roll_up data :
  Forall (fun raw => cell_DATE raw <> DateObj None) data ->
  dates_valid (processData data) /\
  is_Some (getPatientsPerDay (processData data)) /\
  is_Some (getDailyStats (processData data)).
Proof.
  intros Hdata.
  assert (Hv : dates_valid (processData data)).
  { apply List.Forall_forall. intros row (raw & Hraw & ->)%processData_In Hd.
    apply process_row_date in Hd. rewrite List.Forall_forall in Hdata.
    now apply (Hdata raw). }
  split; [exact Hv|]. split; [|now apply getDailyStats_returns].
  rewrite getPatientsPerDay_group by assumption. eauto.
Qed.

End WithHost.

Lemma parseFile_by_extension_witness :
  parseFile (H := manila) (H0 := eager_parsers) visits_csv
  = ([CallParseCSV visits_csv], parseCSV (H := manila) (H0 := eager_parsers) visits_csv).
Proof.
  destruct (parseFile_by_extension (H := manila) (H0 := eager_parsers)
              visits_csv "Visits.2024" "CSV") as (_ & Wcsv & _).
  - left. reflexivity.
  - reflexivity.
  - apply Wcsv. reflexivity.
Defined.

Lemma processData_rows_witness :
  exists raw,
    In raw parsed_scenario /\
    (patient (visit "2024-02-10" "E2" 70 "B" "F1") = Some "E2" <->
     truthy (cell_EMPLOYEE raw) = true /\
     ToString (H := manila) (cell_EMPLOYEE raw) = "E2" /\ "E2" <> "").
Proof.
  destruct (processData_rows (H := manila) parsed_scenario
              (visit "2024-02-10" "E2" 70 "B" "F1"))
    as (raw & Hraw & _ & Hpatient & _).
  - vm_compute. right. right. left. reflexivity.
  - exists raw. split; [exact Hraw|apply Hpatient].
Defined.

Lemma loaded_days_roll_up_witness :
  is_Some (getPatientsPerDay (H := manila) (processData (H := manila) parsed_scenario)).
Proof.
  apply (loaded_days_roll_up (H := manila) parsed_scenario).
  repeat constructor; discriminate.
Defined.

End MoreLoader.

(** ** The lines of a downloaded table *)

Module CsvFacts.
Import JS ChartToolbar Spec StringFacts.

Ltac push_append H := rewrite ?append_cons, ?append_nil in H.

Lemma plain_cons c s :
  plain (String c s) <-> c <> comma /\ c <> quote /\ plain s.
Proof.
  unfold plain. simpl. rewrite !orb_false_iff.
  destruct (Ascii.eqb_spec c comma), (Ascii.eqb_spec c quote); intuition congruence.
Qed.

Lemma digit_string_plain d : plain (NilEmpty.string_of_uint d).
Proof.
  induction d; simpl; try (split; reflexivity);
    apply plain_cons; (split; [discriminate|split; [discriminate|assumption]]).
Qed.

Lemma follows_head c t : follows (String c t) -> c = comma.
Proof. intros [Ht|[t' Ht]]; [discriminate|congruence]. Qed.

(** Two unquoted fields *)
Lemma plain_fields p1 p2 t1 t2 :
  plain p1 -> plain p2 -> follows t1 -> follows t2 ->
  (p1 ++ t1 = p2 ++ t2)%string -> p1 = p2 /\ t1 = t2.
Proof.
  revert p2. induction p1 as [|c1 p1 IH]; intros [|c2 p2] Hp1 Hp2 Ht1 Ht2 Heq;
    push_append Heq.
  - now split.
  - subst t1. apply follows_head in Ht1. apply plain_cons in Hp2. tauto.
  - subst t2. apply follows_head in Ht2. apply plain_cons in Hp1. tauto.
  - injection Heq as <- Heq.
    apply plain_cons in Hp1 as (_ & _ & Hp1). apply plain_cons in Hp2 as (_ & _ & Hp2).
    destruct (IH p2 Hp1 Hp2 Ht1 Ht2 Heq) as [-> ->]. now split.
Qed.

Lemma comma_not_quote : comma <> quote.
Proof. discriminate. Qed.

Lemma double_quotes_quote s :
  double_quotes (String quote s) = String quote (String quote (double_quotes s)).
Proof. reflexivity. Qed.

Lemma double_quotes_other c s :
  c <> quote -> double_quotes (String c s) = String c (double_quotes s).
Proof.
  intros Hc. cbn [double_quotes]. destruct (Ascii.eqb_spec c quote); [contradiction|reflexivity].
Qed.

(** Two quoted fields, after the opening quote *)
Lemma quoted_fields s1 s2 t1 t2 :
  follows t1 -> follows t2 ->
  (double_quotes s1 ++ String quote t1 = double_quotes s2 ++ String quote t2)%string ->
  s1 = s2 /\ t1 = t2.
Proof.
  revert s2. induction s1 as [|c1 s1 IH]; intros [|c2 s2] Ht1 Ht2 Heq.
  - cbn [double_quotes] in Heq. push_append Heq. injection Heq as ->. now split.
  - exfalso. change (double_quotes "") with EmptyString in Heq.
    destruct (Ascii.eqb_spec c2 quote) as [->|Hc2].
    + rewrite double_quotes_quote in Heq. push_append Heq.
      injection Heq as ->. apply follows_head in Ht1. now apply comma_not_quote.
    + rewrite double_quotes_other in Heq by assumption. push_append Heq.
      injection Heq as Hc _. congruence.
  - exfalso. change (double_quotes "") with EmptyString in Heq.
    destruct (Ascii.eqb_spec c1 quote) as [->|Hc1].
    + rewrite double_quotes_quote in Heq. push_append Heq.
      injection Heq as <-. apply follows_head in Ht2. now apply comma_not_quote.
    + rewrite double_quotes_other in Heq by assumption. push_append Heq.
      injection Heq as Hc _. congruence.
  - destruct (Ascii.eqb_spec c1 quote) as [->|Hc1],
             (Ascii.eqb_spec c2 quote) as [->|Hc2];
      rewrite ?double_quotes_quote, ?(double_quotes_other c1), ?(double_quotes_other c2)
        in Heq by assumption;
      push_append Heq.
    + injection Heq as Heq. destruct (IH s2 Ht1 Ht2 Heq) as [-> ->]. now split.
    + injection Heq as Hc _. congruence.
    + injection Heq as Hc _. congruence.
    + injection Heq as <- Heq. destruct (IH s2 Ht1 Ht2 Heq) as [-> ->]. now split.
Qed.

(** An unquoted field against a quoted one *)
Lemma plain_or_quoted p t1 rest :
  plain p -> follows t1 -> (p ++ t1)%string <> String quote rest.
Proof.
  intros Hp Ht1 Heq. destruct p as [|c p]; push_append Heq.
  - subst t1. apply follows_head in Ht1. now apply comma_not_quote.
  - injection Heq as -> _. apply plain_cons in Hp. tauto.
Qed.

Lemma field_form c :
  (plain (shown c) /\ field c = shown c) \/
  field c = String quote (double_quotes (shown c) ++ String quote EmptyString).
Proof.
  destruct c as [s|n]; simpl.
  - destruct (has comma s) eqn:Hc; simpl; [now right|].
    destruct (has quote s) eqn:Hq; simpl; [now right|].
    left. now repeat split.
  - left. split; [apply digit_string_plain|reflexivity].
Qed.

(** A field is told from what follows it. *)
Lemma field_cut a b t1 t2 :
  follows t1 -> follows t2 ->
  (field a ++ t1 = field b ++ t2)%string -> shown a = shown b /\ t1 = t2.
Proof.
  intros Ht1 Ht2 Heq.
  destruct (field_form a) as [[Hpa Ha]| Ha], (field_form b) as [[Hpb Hb]| Hb];
    rewrite Ha, Hb in Heq; push_append Heq; rewrite ?string_app_assoc in Heq;
    push_append Heq.
  - now apply plain_fields.
  - exfalso. now apply (plain_or_quoted _ _ _ Hpa Ht1 Heq).
  - exfalso. symmetry in Heq. now apply (plain_or_quoted _ _ _ Hpb Ht2 Heq).
  - injection Heq as Heq. now apply quoted_fields.
Qed.

Lemma line_cons c row : line (c :: row) = (field c ++ rest_of row)%string.
Proof.
  unfold line. destruct row as [|c' row]; simpl.
  - induction (field c) as [|x f IH]; [reflexivity|]. now rewrite append_cons, <- IH.
  - reflexivity.
Qed.

Lemma follows_rest row : follows (rest_of row).
Proof. destruct row; [now left|right; eexists; reflexivity]. Qed.

Lemma line_cut r1 r2 : rest_of r1 = rest_of r2 -> map shown r1 = map shown r2.
Proof.
  revert r2. induction r1 as [|a r1 IH]; intros [|b r2] Heq; try discriminate;
    [reflexivity|].
  cbn [rest_of] in Heq. injection Heq as Heq. rewrite !line_cons in Heq.
  apply field_cut in Heq as [Hab Hrest]; try apply follows_rest.
  simpl. rewrite Hab. f_equal. now apply IH.
Qed.

(** X21.  The line [downloadCSV] writes for a row of a table tells the cells:
    two rows (of at least one cell) written as the same line show the
    same texts, cell by cell.  Commas and double quotes inside a cell
    never run into the next cell. *)
Theorem line_unambiguous r1 r2 :
  r1 <> [] -> r2 <> [] -> line r1 = line r2 -> map shown r1 = map shown r2.
Proof.
  intros H1 H2 Heq. apply line_cut.
  destruct r1; [contradiction|]. destruct r2; [contradiction|].
  simpl. now rewrite Heq.
Qed.

Lemma line_unambiguous_witness :
  map shown [Text "ACME, Inc."; Text "12"] = map shown [Text "ACME, Inc."; Count 12].
Proof.
  apply line_unambiguous; [discriminate|discriminate|reflexivity].
Defined.

End CsvFacts.

(** ** The order of the days and of the months *)

Module Chronology.
Import JS JSDate Config DataProcessor Spec SortFacts ObjFacts EntriesFacts.
Import ProcessorFacts RangeFacts StringFacts Examples.
Import ChartToolbar.

Local Open Scope Z_scope.

Lemma civil_from_days_day z : 1 <= snd (civil_from_days z) <= 31.
Proof.
  unfold civil_from_days. cbv zeta.
  set (z' := z + 719468).
  set (era := z' / 146097).
  set (doe := z' - era * 146097).
  assert (Hdoe : 0 <= doe < 146097).
  { subst doe era. pose proof (Z.mod_pos_bound z' 146097 ltac:(lia)) as Hm.
    rewrite Z.mod_eq in Hm by lia. lia. }
  pose proof (yoe_bounds doe Hdoe) as Hy. cbv zeta in Hy.
  set (yoe := (doe - doe / 1460 + doe / 36524 - doe / 146096) / 365) in *.
  set (doy := doe - (365 * yoe + yoe / 4 - yoe / 100)) in *.
  simpl snd. destruct Hy as [_ Hdoy]. clearbody doy. clear -Hdoy.
  Z.div_mod_to_equations. lia.
Qed.

Lemma yoe_back yoe doy :
  0 <= yoe <= 399 -> 0 <= doy <= 337 ->
  let doe := yoe * 365 + yoe / 4 - yoe / 100 + doy in
  (doe - doe / 1460 + doe / 36524 - doe / 146096) / 365 = yoe.
Proof.
  intros Hy Hd doe. subst doe. Z.div_mod_to_equations. lia.
Qed.

(** The first day of a month is a date of the calendar. *)
Lemma civil_month_start y m :
  1 <= m <= 12 -> civil_from_days (days_from_civil y m 1) = (y, m, 1).
Proof.
  intros Hm. unfold days_from_civil. cbv zeta.
  set (y' := if m <=? 2 then y - 1 else y).
  set (era := y' / 400).
  set (yoe := y' - era * 400).
  assert (Hyoe : 0 <= yoe <= 399).
  { subst yoe era. pose proof (Z.mod_pos_bound y' 400 ltac:(lia)) as Hb.
    rewrite Z.mod_eq in Hb by lia. lia. }
  set (mp := if 2 <? m then m - 3 else m + 9).
  assert (Hmp : 0 <= mp <= 11).
  { subst mp. destruct (Z.ltb_spec 2 m); lia. }
  set (doy := (153 * mp + 2) / 5 + 1 - 1).
  assert (Hdoy : 0 <= doy <= 337).
  { subst doy. Z.div_mod_to_equations. lia. }
  set (doe := yoe * 365 + yoe / 4 - yoe / 100 + doy).
  assert (Hdoe : 0 <= doe < 146097).
  { subst doe. Z.div_mod_to_equations. lia. }
  unfold civil_from_days. cbv zeta.
  replace (era * 146097 + doe - 719468 + 719468) with (era * 146097 + doe) by lia.
  replace ((era * 146097 + doe) / 146097) with era
    by (apply Z.div_unique with (r := doe); lia).
  replace (era * 146097 + doe - era * 146097) with doe by lia.
  pose proof (yoe_back yoe doy Hyoe Hdoy) as Hback. cbv zeta in Hback.
  fold doe in Hback. rewrite Hback.
  replace (doe - (365 * yoe + yoe / 4 - yoe / 100)) with doy by (subst doe; lia).
  assert (Hmp' : (5 * doy + 2) / 153 = mp).
  { subst doy. clear -Hmp. Z.div_mod_to_equations. lia. }
  rewrite Hmp'.
  assert (Hd : doy - (153 * mp + 2) / 5 + 1 = 1) by (subst doy; lia).
  rewrite Hd.
  subst mp y' yoe.
  destruct (Z.ltb_spec 2 m), (Z.leb_spec m 2); try lia.
  - destruct (Z.ltb_spec (m - 3) 10).
    + replace (m - 3 + 3) with m by lia.
      destruct (Z.leb_spec m 2); [lia|]. f_equal. f_equal. lia.
    + lia.
  - destruct (Z.ltb_spec (m + 9) 10); [lia|].
    replace (m + 9 - 9) with m by lia.
    destruct (Z.leb_spec m 2); [|lia]. f_equal. f_equal. lia.
Qed.

Lemma has_pad c w z :
  ~ In c digit_chars -> c <> "-"%char -> has c (pad w z) = false.
Proof.
  intros Hc Hm. unfold pad, padStart0. rewrite has_append.
  rewrite has_zeros by (intros ->; apply Hc; now left).
  destruct z as [|p|p]; cbn [Z_toString orb].
  - now apply string_of_uint_chars.
  - now apply string_of_uint_chars.
  - rewrite append_cons, append_nil. cbn [has].
    unfold digits. rewrite string_of_uint_chars by assumption.
    rewrite orb_false_r. apply Ascii.eqb_neq. congruence.
Qed.

Lemma has_iso_date t : has "T" (iso_date t) = false.
Proof.
  assert (HT : ~ In "T"%char digit_chars)
    by (unfold digit_chars; simpl; intuition discriminate).
  unfold iso_date. cbv zeta.
  rewrite !has_append, !has_pad by (assumption || discriminate).
  destruct (_ && _); [now rewrite has_pad by (assumption || discriminate)|].
  rewrite has_append, has_pad by (assumption || discriminate).
  now destruct (YearFromTime t <? 0).
Qed.

(** [formatDateKey] answers the date part of [toISOString]. *)
Lemma formatDateKey_iso t : formatDateKey (Some t) = Some (iso_date t).
Proof.
  unfold formatDateKey.
  replace (toISOString t)
    with (iso_date t ++ String "T"
            (pad 2 (TimeWithinDay t / 3600000) ++ ":" ++
             pad 2 ((TimeWithinDay t / 60000) mod 60) ++ ":" ++
             pad 2 ((TimeWithinDay t / 1000) mod 60) ++ "." ++
             pad 3 (TimeWithinDay t mod 1000) ++ "Z"))%string.
  - apply head_split, has_iso_date.
  - unfold toISOString, iso_date. cbv zeta. rewrite !string_app_assoc. reflexivity.
Qed.

Lemma iso_date_day t t' : Day t = Day t' -> iso_date t = iso_date t'.
Proof.
  intros Hd. unfold iso_date, YearFromTime, MonthFromTime, DateFromTime.
  now rewrite Hd.
Qed.

Lemma first_digit a s n : parse_digits (String a s) = Some n -> In a digit_chars.
Proof.
  unfold parse_digits. cbn [NilEmpty.uint_of_string]. unfold uint_of_char.
  destruct (NilEmpty.uint_of_string s) as [u|]; [|discriminate].
  destruct a as [[] [] [] [] [] [] [] []]; cbn; try discriminate;
    intros _; unfold digit_chars; simpl;
    repeat (first [left; reflexivity|right]).
Qed.

Lemma iso_midnight_digit a rest :
  In a digit_chars -> iso_midnight (String a rest) = iso_fields 1 (String a rest) 4.
Proof.
  intros Ha. unfold digit_chars in Ha. simpl in Ha.
  repeat (destruct Ha as [<-|Ha]; [reflexivity|]). destruct Ha.
Qed.

Lemma iso_fields_plain (Y M D : string) y m d :
  String.length Y = 4%nat -> String.length M = 2%nat -> String.length D = 2%nat ->
  parse_digits Y = Some y -> parse_digits M = Some m -> parse_digits D = Some d ->
  (1 <= Z.of_N m <= 12) ->
  civil_from_days (days_from_civil (Z.of_N y) (Z.of_N m) (Z.of_N d))
    = (Z.of_N y, Z.of_N m, Z.of_N d) ->
  iso_fields 1 (Y ++ "-" ++ M ++ "-" ++ D) 4
  = Some (days_from_civil (Z.of_N y) (Z.of_N m) (Z.of_N d) * msPerDay).
Proof.
  intros HY HM HD Hy Hm Hd Hmonth Hcivil. unfold iso_fields.
  destruct Y as [|y1 [|y2 [|y3 [|y4 [|? ?]]]]]; try discriminate HY.
  destruct M as [|m1 [|m2 [|? ?]]]; try discriminate HM.
  destruct D as [|d1 [|d2 [|? ?]]]; try discriminate HD.
  rewrite !append_cons, !append_nil.
  cbn [String.length substring Nat.add Nat.eqb negb String.eqb Ascii.eqb Bool.eqb andb].
  rewrite Hy, Hm, Hd. cbv zeta. rewrite Z.mul_1_l.
  change (1 =? -1) with false. cbn [andb].
  destruct (Z.leb_spec 1 (Z.of_N m)); [|lia].
  destruct (Z.leb_spec (Z.of_N m) 12); [|lia]. cbn [andb negb].
  rewrite Hcivil. now rewrite !Z.eqb_refl.
Qed.

Lemma iso_midnight_signed rest :
  iso_midnight (String "+" rest) = iso_fields 1 rest 6 /\
  iso_midnight (String "-" rest) = iso_fields (-1) rest 6.
Proof. split; reflexivity. Qed.

Lemma iso_fields_signed sign (Y M D : string) y m d :
  String.length Y = 6%nat -> String.length M = 2%nat -> String.length D = 2%nat ->
  parse_digits Y = Some y -> parse_digits M = Some m -> parse_digits D = Some d ->
  sign * Z.of_N y <> 0 ->
  (1 <= Z.of_N m <= 12) ->
  civil_from_days (days_from_civil (sign * Z.of_N y) (Z.of_N m) (Z.of_N d))
    = (sign * Z.of_N y, Z.of_N m, Z.of_N d) ->
  iso_fields sign (Y ++ "-" ++ M ++ "-" ++ D) 6
  = Some (days_from_civil (sign * Z.of_N y) (Z.of_N m) (Z.of_N d) * msPerDay).
Proof.
  intros HY HM HD Hy Hm Hd Hnz Hmonth Hcivil. unfold iso_fields.
  destruct Y as [|y1 [|y2 [|y3 [|y4 [|y5 [|y6 [|? ?]]]]]]]; try discriminate HY.
  destruct M as [|m1 [|m2 [|? ?]]]; try discriminate HM.
  destruct D as [|d1 [|d2 [|? ?]]]; try discriminate HD.
  rewrite !append_cons, !append_nil.
  cbn [String.length substring Nat.add Nat.eqb negb String.eqb Ascii.eqb Bool.eqb andb].
  rewrite Hy, Hm, Hd. cbv zeta.
  rewrite (proj2 (Z.eqb_neq _ _) Hnz), andb_false_r.
  destruct (Z.leb_spec 1 (Z.of_N m)); [|lia].
  destruct (Z.leb_spec (Z.of_N m) 12); [|lia]. cbn [andb negb].
  rewrite Hcivil. now rewrite !Z.eqb_refl.
Qed.

(** The years of the dates a [Date] can hold. *)
Lemma year_range t :
  Z.abs t <= 8640000000000000 -> -300000 < YearFromTime t < 300000.
Proof.
  intros Ht. unfold YearFromTime, civil_from_days, Day, msPerDay. cbv zeta.
  set (z := t / 86400000).
  assert (Hz : -100000000 <= z <= 100000000) by (subst z; Z.div_mod_to_equations; lia).
  clearbody z. clear t Ht.
  set (z' := z + 719468).
  set (era := z' / 146097).
  set (doe := z' - era * 146097).
  assert (Hdoe : 0 <= doe < 146097).
  { subst doe era. pose proof (Z.mod_pos_bound z' 146097 ltac:(lia)) as Hm.
    rewrite Z.mod_eq in Hm by lia. lia. }
  pose proof (yoe_bounds doe Hdoe) as Hy. cbv zeta in Hy.
  set (yoe := (doe - doe / 1460 + doe / 36524 - doe / 146096) / 365) in *.
  assert (Hera : -700 <= era <= 700) by (subst era z'; Z.div_mod_to_equations; lia).
  cbn [fst]. destruct (_ <=? 2); lia.
Qed.

Lemma pad_natural w z :
  0 <= z -> pad w z = padStart0 w (digits (Z.to_N z)).
Proof. intros Hz. unfold pad. now destruct z. Qed.

(** The day key read back with [new Date] is midnight UTC of the day. *)
Lemma iso_midnight_key t :
  Z.abs t <= 8640000000000000 ->
  iso_midnight (iso_date t) = Some (Day t * msPerDay).
Proof.
  intros Ht. pose proof (year_range t Ht) as Hyear. unfold iso_date. cbv zeta.
  destruct (civil_from_days_inverse (Day t)) as [Hinv Hmonth].
  pose proof (civil_from_days_day (Day t)) as Hday.
  unfold YearFromTime, MonthFromTime, DateFromTime in *.
  destruct (civil_from_days (Day t)) as [[y m] d] eqn:Hcivil.
  cbn [fst snd] in *. replace (m - 1 + 1) with m by lia.
  rewrite (pad_natural 2 m), (pad_natural 2 d) by lia.
  pose proof (parse_digits_padded 2 (Z.to_N m)) as Hm.
  pose proof (parse_digits_padded 2 (Z.to_N d)) as Hd.
  assert (HM : String.length (padStart0 2 (digits (Z.to_N m))) = 2%nat).
  { apply padded_length. apply (digits_length (Z.to_N m)); lia. }
  assert (HD : String.length (padStart0 2 (digits (Z.to_N d))) = 2%nat).
  { apply padded_length. apply (digits_length (Z.to_N d)); lia. }
  generalize dependent (padStart0 2 (digits (Z.to_N m))). intros M Hm HM.
  generalize dependent (padStart0 2 (digits (Z.to_N d))). intros D Hd HD.
  destruct (Z.leb_spec 0 y) as [Hy0|Hy0]; cbn [andb];
    [destruct (Z.leb_spec y 9999) as [Hy9|Hy9]|].
  - (* a year of four digits *)
    rewrite (pad_natural 4 y) by lia.
    pose proof (parse_digits_padded 4 (Z.to_N y)) as Hy.
    assert (HY : String.length (padStart0 4 (digits (Z.to_N y))) = 4%nat).
    { apply padded_length. apply (digits_length (Z.to_N y)). lia. }
    generalize dependent (padStart0 4 (digits (Z.to_N y))). intros Y Hy HY.
    transitivity (iso_fields 1 (Y ++ "-" ++ M ++ "-" ++ D) 4).
    + destruct Y as [|a Y']; [discriminate HY|].
      rewrite append_cons. apply iso_midnight_digit. eapply first_digit, Hy.
    + rewrite (iso_fields_plain Y M D (Z.to_N y) (Z.to_N m) (Z.to_N d));
        rewrite ?Z2N.id by lia; try assumption; try lia.
      * now rewrite Hinv.
      * now rewrite Hinv.
  - (* a later year *)
    destruct (Z.ltb_spec y 0); [lia|].
    rewrite string_app_assoc, append_cons, append_nil.
    rewrite (proj1 (iso_midnight_signed _)).
    replace (Z.abs y) with y by lia. rewrite (pad_natural 6 y) by lia.
    pose proof (parse_digits_padded 6 (Z.to_N y)) as Hy.
    assert (HY : String.length (padStart0 6 (digits (Z.to_N y))) = 6%nat).
    { apply padded_length, digits_at_most; [lia|]. rewrite Z2N.id by lia.
      change (10 ^ Z.of_nat 6) with 1000000. lia. }
    generalize dependent (padStart0 6 (digits (Z.to_N y))). intros Y Hy HY.
    rewrite (iso_fields_signed 1 Y M D (Z.to_N y) (Z.to_N m) (Z.to_N d));
      rewrite ?Z2N.id, ?Z.mul_1_l by lia; try assumption; try lia.
    * now rewrite Hinv.
    * now rewrite Hinv.
  - (* a year before 0 *)
    destruct (Z.ltb_spec y 0); [|lia].
    rewrite string_app_assoc, append_cons, append_nil.
    rewrite (proj2 (iso_midnight_signed _)).
    replace (Z.abs y) with (- y) by lia. rewrite (pad_natural 6 (- y)) by lia.
    pose proof (parse_digits_padded 6 (Z.to_N (- y))) as Hy.
    assert (HY : String.length (padStart0 6 (digits (Z.to_N (- y)))) = 6%nat).
    { apply padded_length, digits_at_most; [lia|]. rewrite Z2N.id by lia.
      change (10 ^ Z.of_nat 6) with 1000000. lia. }
    generalize dependent (padStart0 6 (digits (Z.to_N (- y)))). intros Y Hy HY.
    rewrite (iso_fields_signed (-1) Y M D (Z.to_N (- y)) (Z.to_N m) (Z.to_N d));
      rewrite ?Z2N.id by lia;
      replace (-1 * - y) with y by lia; try assumption; try lia.
    * now rewrite Hinv.
    * now rewrite Hinv.
Qed.

Lemma insert_sorted_ext_In {A} (cmp cmp' : A -> A -> Z) x l :
  (forall y, In y l -> cmp x y = cmp' x y) ->
  insert_sorted cmp x l = insert_sorted cmp' x l.
Proof.
  induction l as [|y l IH]; intros Hc; [reflexivity|].
  simpl. rewrite (Hc y) by now left.
  destruct (cmp' x y <=? 0); [reflexivity|].
  rewrite IH; [reflexivity|]. intros z Hz. apply Hc. now right.
Qed.

Lemma sort_ext_In {A} (cmp cmp' : A -> A -> Z) l :
  (forall a b, In a l -> In b l -> cmp a b = cmp' a b) ->
  sort cmp l = sort cmp' l.
Proof.
  induction l as [|x l IH]; intros Hc; [reflexivity|].
  change (sort cmp (x :: l)) with (insert_sorted cmp x (sort cmp l)).
  change (sort cmp' (x :: l)) with (insert_sorted cmp' x (sort cmp' l)).
  rewrite IH by (intros a b Ha Hb; apply Hc; now right).
  apply insert_sorted_ext_In. intros y Hy%sort_In. apply Hc; [now left|now right].
Qed.

(** Within the range of [Date], so is the midnight of the day. *)
Lemma TimeClip_day t :
  Z.abs t <= 8640000000000000 -> TimeClip (Day t * msPerDay) = Some (Day t * msPerDay).
Proof.
  intros Ht. unfold TimeClip, Day, msPerDay.
  destruct (Z.leb_spec (Z.abs (t / 86400000 * 86400000)) 8640000000000000) as [_|Hout];
    [reflexivity|].
  exfalso. revert Hout. Z.div_mod_to_equations. lia.
Qed.

Lemma TimeClip_four_digits y m d :
  1000 <= y <= 9999 -> 1 <= m <= 12 -> 1 <= d <= 31 ->
  TimeClip (days_from_civil y m d * msPerDay) = Some (days_from_civil y m d * msPerDay).
Proof.
  intros Hy Hm Hd. unfold TimeClip, msPerDay.
  destruct (Z.leb_spec (Z.abs (days_from_civil y m d * 86400000)) 8640000000000000)
    as [_|Hout]; [reflexivity|].
  exfalso. revert Hout. unfold days_from_civil.
  destruct (m <=? 2), (2 <? m); Z.div_mod_to_equations; lia.
Qed.

Section WithHost.
Context `{Host}.

Lemma date_diff_parsed a b x y :
  Date_parse a = Some x -> Date_parse b = Some y ->
  date_diff a b = default 0 (Date_parse a) - default 0 (Date_parse b).
Proof. intros Ha Hb. unfold date_diff. rewrite Ha, Hb. reflexivity. Qed.

Lemma day_entry data k c :
  dates_valid data ->
  Forall (fun t => Z.abs t <= 8640000000000000) (valid_dates data) ->
  In (k, c) (sizes (Object_entries (group day_key absorb data))) ->
  exists row t,
    In row data /\ DATE row = ADate (Some t) /\ k = iso_date t /\
    Date_parse k = Some (Day t * msPerDay).
Proof.
  intros Hvalid Hyears [Hrows _]%roll_up_In.
  destruct (rows_of day_key k data) as [|row rows] eqn:Hr; [contradiction|].
  assert (Hin : In row (rows_of day_key k data)) by (rewrite Hr; now left).
  apply rows_of_In in Hin as [Hrow Hkey].
  unfold day_key in Hkey. destruct (DATE row) as [|[t|]] eqn:Hdate; try discriminate.
  rewrite formatDateKey_iso in Hkey. injection Hkey as <-.
  exists row, t. split; [assumption|]. split; [assumption|]. split; [reflexivity|].
  assert (Ht : Z.abs t <= 8640000000000000).
  { rewrite List.Forall_forall in Hyears. apply Hyears.
    apply list_elem_of_In, list_elem_of_omap. exists row.
    split; [now apply list_elem_of_In|]. now rewrite Hdate. }
  unfold Date_parse. rewrite iso_midnight_key by assumption.
  now apply TimeClip_day.
Qed.

(** X22.  When no record carries an Invalid Date, [getPatientsPerDay] lists
    the days in ascending order: each key is the UTC day of a record's
    date, [new Date] of the key is midnight UTC of that day, and these
    times increase strictly along the answer.  Stated for time values
    in the range of [Date], within 8.64e15 ms of the epoch. *)
Theorem getPatientsPerDay_chronological data :
  dates_valid data ->
  Forall (fun t => Z.abs t <= 8640000000000000) (valid_dates data) ->
  exists out,
    getPatientsPerDay data = Some out /\
    (forall k c,
       In (k, c) out ->
       exists row t,
         In row data /\ DATE row = ADate (Some t) /\
         formatDateKey (Some t) = Some k /\
         Date_parse k = Some (Day t * msPerDay)) /\
    StronglySorted
      (fun a b =>
         exists ta tb,
           Date_parse (fst a) = Some ta /\ Date_parse (fst b) = Some tb /\ ta < tb)
      out.
Proof.
  intros Hvalid Hyears. rewrite getPatientsPerDay_group by assumption.
  eexists. split; [reflexivity|].
  set (L := sizes (Object_entries (group day_key absorb data))).
  assert (Hentry : forall e, In e L ->
            exists row t,
              In row data /\ DATE row = ADate (Some t) /\ fst e = iso_date t /\
              Date_parse (fst e) = Some (Day t * msPerDay)).
  { intros [k c] He. now apply (day_entry data k c). }
  split.
  - intros k c Hin%sort_In.
    destruct (Hentry _ Hin) as (row & t & Hrow & Hdate & Hk & Hparse).
    exists row, t. cbn [fst] in *. subst k. rewrite formatDateKey_iso. now repeat split.
  - set (f := fun e : string * nat => default 0 (Date_parse (fst e))).
    rewrite (sort_ext_In _ (fun a b => f a - f b) L).
    2: { intros a b Ha Hb.
         destruct (Hentry a Ha) as (_ & ta & _ & _ & _ & Hpa).
         destruct (Hentry b Hb) as (_ & tb & _ & _ & _ & Hpb).
         unfold f. exact (date_diff_parsed _ _ _ _ Hpa Hpb). }
    eapply StronglySorted_weaken;
      [|apply (sort_key_then f (fun a b => fst a <> fst b)), distinct_keys_sorted].
    + intros a b Ha%sort_In Hb%sort_In Hab.
      destruct (Hentry a Ha) as (_ & ta & _ & _ & Hka & Hpa).
      destruct (Hentry b Hb) as (_ & tb & _ & _ & Hkb & Hpb).
      exists (Day ta * msPerDay), (Day tb * msPerDay).
      split; [assumption|]. split; [assumption|].
      unfold key_then, f in Hab. rewrite Hpa, Hpb in Hab.
      change (default 0 (Some (Day ta * msPerDay))) with (Day ta * msPerDay) in Hab.
      change (default 0 (Some (Day tb * msPerDay))) with (Day tb * msPerDay) in Hab.
      destruct Hab as [Hlt|[Heq Hne]]; [exact Hlt|].
      exfalso. apply Hne. rewrite Hka, Hkb. apply iso_date_day.
      unfold msPerDay in Heq. lia.
    + subst L. rewrite sizes_keys. apply Object_entries_NoDup, keys_group_NoDup.
Qed.

(** *** Months *)

Lemma padStart0_none s : padStart0 0 s = s.
Proof. unfold padStart0. cbn [Nat.sub repeat_zero]. apply append_nil. Qed.

(** For a local year of four digits, the month key followed by "-01"
    reads back as midnight UTC of the first day of the month. *)
Lemma parse_month_key t :
  1000 <= YearFromTime (LocalTime t) <= 9999 ->
  iso_midnight (formatMonthKey (Some t) ++ "-01")
  = Some (days_from_civil (YearFromTime (LocalTime t))
            (MonthFromTime (LocalTime t) + 1) 1 * msPerDay).
Proof.
  intros Hyear. unfold formatMonthKey, getFullYear, getMonth.
  cbn [option_map succ_int int_toString].
  destruct (civil_from_days_inverse (Day (LocalTime t))) as [_ Hmonth].
  unfold YearFromTime, MonthFromTime in *.
  destruct (civil_from_days (Day (LocalTime t))) as [[y m] d].
  cbn [fst snd] in *. replace (m - 1 + 1) with m by lia.
  assert (Hys : Z_toString y = padStart0 0 (digits (Z.to_N y)))
    by (rewrite padStart0_none; destruct y; reflexivity || lia).
  assert (Hms : Z_toString m = digits (Z.to_N m)) by (destruct m; reflexivity || lia).
  rewrite Hys, Hms.
  pose proof (parse_digits_padded 0 (Z.to_N y)) as Hy.
  pose proof (parse_digits_padded 2 (Z.to_N m)) as Hm.
  assert (HY : String.length (padStart0 0 (digits (Z.to_N y))) = 4%nat).
  { rewrite padStart0_none. apply (digits_length (Z.to_N y)); lia. }
  assert (HM : String.length (padStart0 2 (digits (Z.to_N m))) = 2%nat).
  { apply padded_length. apply (digits_length (Z.to_N m)); lia. }
  generalize dependent (padStart0 0 (digits (Z.to_N y))). intros Y _ Hy HY.
  generalize dependent (padStart0 2 (digits (Z.to_N m))). intros M Hm HM.
  replace ((Y ++ "-" ++ M) ++ "-01")%string with (Y ++ "-" ++ M ++ "-" ++ "01")%string
    by (rewrite !string_app_assoc; reflexivity).
  transitivity (iso_fields 1 (Y ++ "-" ++ M ++ "-" ++ "01") 4).
  - destruct Y as [|a Y']; [discriminate HY|].
    rewrite append_cons. apply iso_midnight_digit. eapply first_digit, Hy.
  - rewrite (iso_fields_plain Y M "01" (Z.to_N y) (Z.to_N m) 1);
      rewrite ?Z2N.id by lia; try assumption; try reflexivity; try lia.
    apply civil_month_start. lia.
Qed.

Lemma month_entry data k c :
  dates_valid data ->
  Forall (fun t => 1000 <= YearFromTime (LocalTime t) <= 9999) (valid_dates data) ->
  In (k, c) (sizes (Object_entries (group month_key absorb data))) ->
  exists row t,
    In row data /\ DATE row = ADate (Some t) /\ k = formatMonthKey (Some t) /\
    Date_parse (k ++ "-01")
    = Some (days_from_civil (YearFromTime (LocalTime t))
              (MonthFromTime (LocalTime t) + 1) 1 * msPerDay).
Proof.
  intros Hvalid Hyears [Hrows _]%roll_up_In.
  destruct (rows_of month_key k data) as [|row rows] eqn:Hr; [contradiction|].
  assert (Hin : In row (rows_of month_key k data)) by (rewrite Hr; now left).
  apply rows_of_In in Hin as [Hrow Hkey].
  unfold month_key in Hkey. destruct (DATE row) as [|[t|]] eqn:Hdate; try discriminate.
  - injection Hkey as <-.
    exists row, t. split; [assumption|]. split; [assumption|]. split; [reflexivity|].
    assert (Ht : 1000 <= YearFromTime (LocalTime t) <= 9999).
    { rewrite List.Forall_forall in Hyears. apply Hyears.
      apply list_elem_of_In, list_elem_of_omap. exists row.
      split; [now apply list_elem_of_In|]. now rewrite Hdate. }
    unfold Date_parse. rewrite parse_month_key by assumption.
    apply TimeClip_four_digits; [assumption| |lia].
    destruct (civil_from_days_inverse (Day (LocalTime t))) as [_ Hmonth].
    unfold MonthFromTime. lia.
  - exfalso. unfold dates_valid in Hvalid. rewrite List.Forall_forall in Hvalid.
    now apply (Hvalid row Hrow).
Qed.

(** X23.  When no record carries an Invalid Date and the local years have
    four digits, [getPatientsPerMonth] lists the months in ascending
    order: each key is the local year and month of a record's date, the
    key followed by "-01" reads back with [new Date] as the first day of
    that month, and these times increase strictly along the answer. *)
Theorem getPatientsPerMonth_chronological data :
  dates_valid data ->
  Forall (fun t => 1000 <= YearFromTime (LocalTime t) <= 9999) (valid_dates data) ->
  let out := getPatientsPerMonth data in
  (forall k c,
     In (k, c) out ->
     exists row t,
       In row data /\ DATE row = ADate (Some t) /\ formatMonthKey (Some t) = k /\
       Date_parse (k ++ "-01")
       = Some (days_from_civil (YearFromTime (LocalTime t))
                 (MonthFromTime (LocalTime t) + 1) 1 * msPerDay)) /\
  StronglySorted
    (fun a b =>
       exists ta tb,
         Date_parse (fst a ++ "-01") = Some ta /\
         Date_parse (fst b ++ "-01") = Some tb /\ ta < tb)
    out.
Proof.
  intros Hvalid Hyears out. subst out. rewrite getPatientsPerMonth_group.
  set (L := sizes (Object_entries (group month_key absorb data))).
  assert (Hentry : forall e, In e L ->
            exists row t,
              In row data /\ DATE row = ADate (Some t) /\
              fst e = formatMonthKey (Some t) /\
              Date_parse (fst e ++ "-01")
              = Some (days_from_civil (YearFromTime (LocalTime t))
                        (MonthFromTime (LocalTime t) + 1) 1 * msPerDay)).
  { intros [k c] He. now apply (month_entry data k c). }
  split.
  - intros k c Hin%sort_In.
    destruct (Hentry _ Hin) as (row & t & Hrow & Hdate & Hk & Hparse).
    exists row, t. cbn [fst] in *. now repeat split.
  - set (f := fun e : string * nat => default 0 (Date_parse (fst e ++ "-01"))).
    rewrite (sort_ext_In _ (fun a b => f a - f b) L).
    2: { intros a b Ha Hb.
         destruct (Hentry a Ha) as (_ & ta & _ & _ & _ & Hpa).
         destruct (Hentry b Hb) as (_ & tb & _ & _ & _ & Hpb).
         unfold f. exact (date_diff_parsed _ _ _ _ Hpa Hpb). }
    eapply StronglySorted_weaken;
      [|apply (sort_key_then f (fun a b => fst a <> fst b)), distinct_keys_sorted].
    + intros a b Ha%sort_In Hb%sort_In Hab.
      destruct (Hentry a Ha) as (_ & ta & _ & _ & Hka & Hpa).
      destruct (Hentry b Hb) as (_ & tb & _ & _ & Hkb & Hpb).
      eexists _, _. split; [exact Hpa|]. split; [exact Hpb|].
      unfold key_then, f in Hab. rewrite Hpa, Hpb in Hab.
      remember (days_from_civil (YearFromTime (LocalTime ta))
                  (MonthFromTime (LocalTime ta) + 1) 1) as da eqn:Hda.
      remember (days_from_civil (YearFromTime (LocalTime tb))
                  (MonthFromTime (LocalTime tb) + 1) 1) as db eqn:Hdb.
      change (default 0 (Some (da * msPerDay))) with (da * msPerDay) in Hab.
      change (default 0 (Some (db * msPerDay))) with (db * msPerDay) in Hab.
      destruct Hab as [Hlt|[Heq Hne]]; [exact Hlt|].
      exfalso. apply Hne. rewrite Hka, Hkb.
      assert (Hd : da = db) by (unfold msPerDay in Heq; lia).
      rewrite Hda, Hdb in Hd. apply (f_equal civil_from_days) in Hd.
      destruct (civil_from_days_inverse (Day (LocalTime ta))) as [_ Hma].
      destruct (civil_from_days_inverse (Day (LocalTime tb))) as [_ Hmb].
      rewrite !civil_month_start in Hd by (unfold MonthFromTime; lia).
      injection Hd as Hy Hm.
      unfold formatMonthKey, getFullYear, getMonth. cbn [option_map succ_int].
      rewrite Hy. replace (MonthFromTime (LocalTime ta)) with (MonthFromTime (LocalTime tb))
        by lia. reflexivity.
    + subst L. rewrite sizes_keys. apply Object_entries_NoDup, keys_group_NoDup.
Qed.

End WithHost.

Lemma getPatientsPerMonth_chronological_witness :
  StronglySorted
    (fun a b =>
       exists ta tb,
         Date_parse (H := manila) (fst a ++ "-01") = Some ta /\
         Date_parse (H := manila) (fst b ++ "-01") = Some tb /\ ta < tb)
    (getPatientsPerMonth (H := manila) scenario).
Proof.
  apply (getPatientsPerMonth_chronological (H := manila) scenario).
  - repeat constructor; vm_compute; discriminate.
  - apply List.Forall_forall. intros t Ht. vm_compute in Ht.
    destruct Ht as [<-|[<-|[<-|[]]]]; vm_compute; split; discriminate.
Defined.

Lemma getPatientsPerDay_chronological_witness :
  exists out,
    getPatientsPerDay (H := manila) scenario = Some out /\
    StronglySorted
      (fun a b =>
         exists ta tb,
           Date_parse (H := manila) (fst a) = Some ta /\
           Date_parse (H := manila) (fst b) = Some tb /\ ta < tb)
      out.
Proof.
  destruct (getPatientsPerDay_chronological (H := manila) scenario)
    as (out & Hout & _ & Hsorted).
  - repeat constructor; vm_compute; discriminate.
  - apply List.Forall_forall. intros t Ht. vm_compute in Ht.
    destruct Ht as [<-|[<-|[<-|[]]]]; vm_compute; discriminate.
  - exists out. split; assumption.
Defined.

End Chronology.
